(** * The virtual file tree of the Qwik CLI plugin SDK

    A shallow embedding of
    [packages/qwik/src/cli/plugin-sdk/virtual-file-tree.ts]: the class
    [VirtualFileTree] (a queue of staged file operations, the cache of the
    latest content, the store of original states, commit and rollback) and
    the class [VirtualFileTreeCheckpoint].  With it, its callers in
    [packages/qwik/src/cli/plugin-sdk/plugin-context.ts] (the class
    [PluginContext] and [runPlugin]), the plugin of
    [packages/qwik/src/cli/plugin-sdk/tailwind-plugin.ts], and the two
    functions of the enhanced plugin context that decide where an external
    plugin is fetched from.

    Conventions of the embedding.
    - A JavaScript string is a Rocq [string]: the bytes of its UTF-8
      encoding.  Concatenation is [+:+]; [Buffer.from(s, 'utf-8')] is the
      list of bytes of [s]; writing a file with the ['utf-8'] option
      stores these bytes, and reading a file that holds well-formed UTF-8
      ([utf8_well_formed]) gives its bytes.  On other bytes the decoder of
      [readFile] puts U+FFFD for every ill-formed sequence, which the
      embedding leaves out: a statement that compares the content of a file
      before and after a transaction is made for a file that holds
      well-formed UTF-8 ([utf8_at]).
    - A JavaScript [Map] is an association list in insertion order
      ([JsMap]); a JavaScript [Set] is a duplicate-free list in insertion
      order ([JsSet]).
    - The file system is a finite map from absolute paths to nodes, a node
      being a regular file with its content or a directory.  Every call of
      [node:fs] made by the class is a primitive that also appends the call
      to a log, so that "no disk access" is a statement about the log.  The
      map is flat: of [mkdir] with [recursive: true] it holds the directory
      that is named, not the missing directories above it, which the call
      creates as well; a statement about the paths that a commit leaves
      alone excludes them.  A primitive fails in the cases written in its
      definition; a statement about a commit that throws is made for
      whatever error the file system raised.
    - The functions [resolve], [relative] and [dirname] of [node:path] are
      parameters of the development.
    - A method is a computation in the monad [M]: it reads and updates the
      fields of the object and the file system, and returns or throws.
    - A plugin and a method of the plugin context are computations in the
      monad [P], which is [M] with the errors that are not of the file
      tree.  The computation of [addDependency] on the JSON text and the
      matches of the regular expressions of [addVitePlugin] are
      parameters. *)

From Stdlib Require Import Strings.Byte Strings.Ascii Strings.String.
From stdpp Require Import base option strings list gmap pretty.

Open Scope string_scope.
Open Scope list_scope.

(** ** JavaScript containers *)

Module JsMap.
Section jsmap.
Context {V : Type}.

Definition t : Type := list (string * V).

Definition empty : t := [].

(** [map.get(k)] *)
Fixpoint get (k : string) (m : t) : option V :=
  match m with
  | [] => None
  | (k', v) :: m' => if decide (k = k') then Some v else get k m'
  end.

(** [map.has(k)] *)
Definition has (k : string) (m : t) : bool :=
  match get k m with Some _ => true | None => false end.

(** [map.set(k, v)]: an existing key keeps its place, a new key goes
    last. *)
Fixpoint set (k : string) (v : V) (m : t) : t :=
  match m with
  | [] => [(k, v)]
  | (k', v') :: m' =>
      if decide (k = k') then (k, v) :: m' else (k', v') :: set k v m'
  end.

(** [map.keys()] and [map.entries()], in insertion order *)
Definition keys (m : t) : list string := m.*1.
Definition entries (m : t) : list (string * V) := m.

(** [new Map(m)] *)
Definition copy (m : t) : t := m.
End jsmap.
Arguments t : clear implicits.
End JsMap.

Module JsSet.
Definition t : Type := list string.

(** [set.add(x)] *)
Definition add (x : string) (s : t) : t :=
  if decide (x ∈ s) then s else s ++ [x].

(** [new Set(array)] *)
Definition of_list (l : list string) : t :=
  foldl (λ s x, add x s) [] l.
End JsSet.

(** ** Data model *)

Inductive OperationType := create | modify | delete | append | prepend.

Global Instance OperationType_eq_dec : EqDecision OperationType.
Proof. solve_decision. Defined.

(** [fs.Stats], of which the class uses [isFile()] alone. *)
Record Stats := { st_isFile : bool }.

(** [interface OriginalFileState] *)
Record OriginalFileState := {
  os_existed : bool;
  os_content : option string;
  os_stats : option Stats
}.

(** [interface CurrentFileState] *)
Record CurrentFileState := {
  cs_content : string;
  cs_exists : bool
}.

(** [interface FileOperation].  The optional field [transformer] is never
    set by the class and is left out. *)
Record FileOperation := {
  op_id : string;
  op_path : string;
  op_type : OperationType;
  op_content : option string
}.

(** The mutable fields of [class VirtualFileTree]. *)
Record VirtualFileTree := {
  operationQueue : list FileOperation;
  originalStates : JsMap.t OriginalFileState;
  latestContent : JsMap.t CurrentFileState;
  isCommitted : bool;
  operationCounter : nat
}.

Definition set_operationQueue (f : list FileOperation → list FileOperation)
    (t : VirtualFileTree) : VirtualFileTree :=
  {| operationQueue := f (operationQueue t);
     originalStates := originalStates t;
     latestContent := latestContent t;
     isCommitted := isCommitted t;
     operationCounter := operationCounter t |}.

Definition set_originalStates
    (f : JsMap.t OriginalFileState → JsMap.t OriginalFileState)
    (t : VirtualFileTree) : VirtualFileTree :=
  {| operationQueue := operationQueue t;
     originalStates := f (originalStates t);
     latestContent := latestContent t;
     isCommitted := isCommitted t;
     operationCounter := operationCounter t |}.

Definition set_latestContent
    (f : JsMap.t CurrentFileState → JsMap.t CurrentFileState)
    (t : VirtualFileTree) : VirtualFileTree :=
  {| operationQueue := operationQueue t;
     originalStates := originalStates t;
     latestContent := f (latestContent t);
     isCommitted := isCommitted t;
     operationCounter := operationCounter t |}.

Definition set_isCommitted (b : bool) (t : VirtualFileTree) : VirtualFileTree :=
  {| operationQueue := operationQueue t;
     originalStates := originalStates t;
     latestContent := latestContent t;
     isCommitted := b;
     operationCounter := operationCounter t |}.

Definition set_operationCounter (n : nat) (t : VirtualFileTree) : VirtualFileTree :=
  {| operationQueue := operationQueue t;
     originalStates := originalStates t;
     latestContent := latestContent t;
     isCommitted := isCommitted t;
     operationCounter := n |}.

(** The state of a fresh object, which is also what [initialize] sets. *)
Definition fresh : VirtualFileTree :=
  {| operationQueue := [];
     originalStates := JsMap.empty;
     latestContent := JsMap.empty;
     isCommitted := false;
     operationCounter := 0 |}.

(** ** The file system *)

Inductive node :=
  | File (content : string)
  | Dir.

Inductive fs_call :=
  | CallStat (p : string)
  | CallReadFile (p : string)
  | CallExistsSync (p : string)
  | CallMkdir (p : string)
  | CallWriteFile (p : string) (content : string)
  | CallUnlink (p : string).

Global Instance fs_call_eq_dec : EqDecision fs_call.
Proof. solve_decision. Defined.

Record world := {
  disk : gmap string node;
  calls : list fs_call
}.

Definition call_path (c : fs_call) : string :=
  match c with
  | CallStat p | CallReadFile p | CallExistsSync p | CallMkdir p
  | CallWriteFile p _ | CallUnlink p => p
  end.

Definition is_write (c : fs_call) : bool :=
  match c with
  | CallMkdir _ | CallWriteFile _ _ | CallUnlink _ => true
  | _ => false
  end.









(** What the class reads of a path of the disk: the state it caches, the
    original state it captures, and what [fs.existsSync] answers. *)
Definition disk_state (d : gmap string node) (p : string) : CurrentFileState :=
  match d !! p with
  | Some (File c) => {| cs_content := c; cs_exists := true |}
  | _ => {| cs_content := ""; cs_exists := false |}
  end.

Definition disk_original (d : gmap string node) (p : string) : OriginalFileState :=
  match d !! p with
  | Some (File c) =>
      {| os_existed := true; os_content := Some c;
         os_stats := Some {| st_isFile := true |} |}
  | _ => {| os_existed := false; os_content := None; os_stats := None |}
  end.

Definition disk_exists (d : gmap string node) (p : string) : bool :=
  match d !! p with Some _ => true | None => false end.

(** ** Errors and the monad of methods *)

Inductive fs_code := ENOENT | EISDIR | EEXIST.

(* The messages: [FileDoesNotExist p] is `File ${p} does not exist`,
   [CannotCreate p] is `Cannot create file ${p}: file already exists`,
   [CannotOperate ty p] is `Cannot ${ty} file ${p}: file does not exist`,
   [AlreadyCommitted] is 'Transaction has already been committed',
   [FailedToCommit e] is `Failed to commit changes: ${e}`. *)
Inductive error :=
  | FsError (code : fs_code) (p : string)
  | FileDoesNotExist (path : string)
  | CannotCreate (path : string)
  | CannotOperate (type : OperationType) (path : string)
  | AlreadyCommitted
  | FailedToCommit (cause : error)
  | TypeError.

Inductive result (A : Type) :=
  | Ok (a : A)
  | Err (e : error).
Arguments Ok {A} a.
Arguments Err {A} e.

Definition M (A : Type) : Type :=
  VirtualFileTree → world → result A * VirtualFileTree * world.

Definition ret {A} (a : A) : M A := λ t w, (Ok a, t, w).

Definition throw {A} (e : error) : M A := λ t w, (Err e, t, w).

Definition bind {A B} (m : M A) (f : A → M B) : M B := λ t w,
  match m t w with
  | (Ok a, t', w') => f a t' w'
  | (Err e, t', w') => (Err e, t', w')
  end.

(** [try { m } catch (e) { h e }] *)
Definition try_catch {A} (m : M A) (h : error → M A) : M A := λ t w,
  match m t w with
  | (Ok a, t', w') => (Ok a, t', w')
  | (Err e, t', w') => h e t' w'
  end.

(** Reading and assigning the fields of [this]. *)
Definition this : M VirtualFileTree := λ t w, (Ok t, t, w).

Definition update (f : VirtualFileTree → VirtualFileTree) : M unit :=
  λ t w, (Ok tt, f t, w).

Declare Scope vft_scope.
Delimit Scope vft_scope with vft.
Notation "x <- m ;; k" := (bind m (λ x, k))
  (at level 100, m at next level, right associativity) : vft_scope.
Notation "m ;; k" := (bind m (λ _, k))
  (at level 100, right associativity) : vft_scope.
Open Scope vft_scope.

(** [for (const x of l) { await body(x) }] *)
Fixpoint for_each {A} (l : list A) (body : A → M unit) : M unit :=
  match l with
  | [] => ret tt
  | x :: l' => body x ;; for_each l' body
  end.

(** A started promise, settled: the outcome is kept as a value. *)
Definition settle (m : M unit) : M (result unit) := λ t w,
  match m t w with
  | (r, t', w') => (Ok r, t', w')
  end.

(** [operations.push(start(x))] for every [x], the promises settling in the
    order in which they were started. *)
Fixpoint start_all {A} (l : list A) (start : A → M unit) : M (list (result unit)) :=
  match l with
  | [] => ret []
  | x :: l' => r <- settle (start x) ;; rs <- start_all l' start ;; ret (r :: rs)
  end.

(** [await Promise.all(operations)]: rejects with the first rejection. *)
Fixpoint Promise_all (rs : list (result unit)) : M unit :=
  match rs with
  | [] => ret tt
  | Ok _ :: rs' => Promise_all rs'
  | Err e :: _ => throw e
  end.

(** *** The primitives of [node:fs] *)

Definition log (c : fs_call) (w : world) : world :=
  {| disk := disk w; calls := calls w ++ [c] |}.

Definition set_disk (d : gmap string node) (w : world) : world :=
  {| disk := d; calls := calls w |}.

(** [fs.promises.stat(p)] *)
Definition fs_stat (p : string) : M Stats := λ t w,
  match disk w !! p with
  | Some (File _) => (Ok {| st_isFile := true |}, t, log (CallStat p) w)
  | Some Dir => (Ok {| st_isFile := false |}, t, log (CallStat p) w)
  | None => (Err (FsError ENOENT p), t, log (CallStat p) w)
  end.

(** [fs.promises.readFile(p, 'utf-8')]: the text of a regular file, which
    is its bytes when they are well-formed UTF-8 ([utf8_well_formed]); the
    replacement of ill-formed sequences by U+FFFD is left out. *)
Definition fs_readFile (p : string) : M string := λ t w,
  match disk w !! p with
  | Some (File c) => (Ok c, t, log (CallReadFile p) w)
  | Some Dir => (Err (FsError EISDIR p), t, log (CallReadFile p) w)
  | None => (Err (FsError ENOENT p), t, log (CallReadFile p) w)
  end.

(** [fs.existsSync(p)]: true for a file and for a directory. *)
Definition fs_existsSync (p : string) : M bool := λ t w,
  match disk w !! p with
  | Some _ => (Ok true, t, log (CallExistsSync p) w)
  | None => (Ok false, t, log (CallExistsSync p) w)
  end.

(** [fs.promises.mkdir(p, { recursive: true })]: nothing to do on a
    directory, fails where a regular file is in the way.  The directories
    above [p], which the call creates when they are missing and under
    which it fails when one is a regular file, are not in the map. *)
Definition fs_mkdir (p : string) : M unit := λ t w,
  match disk w !! p with
  | Some (File _) => (Err (FsError EEXIST p), t, log (CallMkdir p) w)
  | Some Dir => (Ok tt, t, log (CallMkdir p) w)
  | None => (Ok tt, t, set_disk (<[p := Dir]> (disk w)) (log (CallMkdir p) w))
  end.

(** [fs.promises.writeFile(p, content, 'utf-8')]: creates or replaces a
    regular file, fails on a directory. *)
Definition fs_writeFile (p : string) (content : string) : M unit := λ t w,
  match disk w !! p with
  | Some Dir => (Err (FsError EISDIR p), t, log (CallWriteFile p content) w)
  | _ => (Ok tt, t,
          set_disk (<[p := File content]> (disk w)) (log (CallWriteFile p content) w))
  end.

(** [fs.promises.unlink(p)]: removes a regular file, fails on a directory
    and on a missing path. *)
Definition fs_unlink (p : string) : M unit := λ t w,
  match disk w !! p with
  | Some (File _) =>
      (Ok tt, t, set_disk (base.delete p (disk w)) (log (CallUnlink p) w))
  | Some Dir => (Err (FsError EISDIR p), t, log (CallUnlink p) w)
  | None => (Err (FsError ENOENT p), t, log (CallUnlink p) w)
  end.

(** ** The class [VirtualFileTree] *)

(** [`op_${n}`] *)
Definition op_name (n : nat) : string := "op_" +:+ pretty n.

(** [content || ''] *)
Definition or_empty (content : option string) : string := default "" content.

(** The entries of [toFsUpdates()]: [content] is a [Buffer]. *)
Inductive UpdateType := update_create | update_modify | update_delete.

Record FsUpdate := {
  fu_path : string;
  fu_content : list byte;
  fu_type : UpdateType
}.

(** [class VirtualFileTreeCheckpoint]; the field [vft] is the object the
    methods below run on. *)
Record VirtualFileTreeCheckpoint := {
  savedOperations : list FileOperation;
  savedOriginalStates : JsMap.t OriginalFileState;
  savedLatestContent : JsMap.t CurrentFileState;
  savedCounter : nat
}.

(** [new VirtualFileTreeCheckpoint(vft)] *)
Definition new_VirtualFileTreeCheckpoint (vft : VirtualFileTree) :
    VirtualFileTreeCheckpoint :=
  {| savedOperations := operationQueue vft;
     savedOriginalStates := JsMap.copy (originalStates vft);
     savedLatestContent := JsMap.copy (latestContent vft);
     savedCounter := operationCounter vft |}.

(** [checkpoint.restore()] *)
Definition restore (cp : VirtualFileTreeCheckpoint) : M unit :=
  update (set_operationQueue (λ _, savedOperations cp)) ;;
  update (set_originalStates (λ _, JsMap.copy (savedOriginalStates cp))) ;;
  update (set_latestContent (λ _, JsMap.copy (savedLatestContent cp))) ;;
  update (set_operationCounter (savedCounter cp)) ;;
  update (set_isCommitted false).

(** The fold of the specification, in its words: create sets
    [{content, exists:true}], modify replaces the content, append yields
    old + content, prepend yields content + old, delete yields
    [{content:'', exists:false}]. *)
Definition spec_apply (st : CurrentFileState) (op : FileOperation) : CurrentFileState :=
  match op_type op with
  | create => {| cs_content := or_empty (op_content op); cs_exists := true |}
  | modify => {| cs_content := or_empty (op_content op); cs_exists := cs_exists st |}
  | append =>
      {| cs_content := cs_content st +:+ or_empty (op_content op);
         cs_exists := cs_exists st |}
  | prepend =>
      {| cs_content := or_empty (op_content op) +:+ cs_content st;
         cs_exists := cs_exists st |}
  | delete => {| cs_content := ""; cs_exists := false |}
  end.

(** The queued operations of one path, in queue order. *)
Definition operations_on (k : string) (q : list FileOperation) : list FileOperation :=
  filter (λ op, op_path op = k) q.

Definition spec_fold (k : string) (q : list FileOperation)
    (init : CurrentFileState) : CurrentFileState :=
  foldl spec_apply init (operations_on k q).

(** What a read of a path in a given state returns. *)
Definition spec_read (path : string) (st : CurrentFileState) : result string :=
  if cs_exists st then Ok (cs_content st) else Err (FileDoesNotExist path).

(** The [switch (type)] of [_updateLatestContent]: the operation applied
    to the cached state. *)
Definition apply_operation (type : OperationType) (content : option string)
    (currentState : CurrentFileState) : CurrentFileState :=
  match type with
  | create => {| cs_content := or_empty content; cs_exists := true |}
  | modify =>
      {| cs_content := or_empty content; cs_exists := cs_exists currentState |}
  | append =>
      {| cs_content := cs_content currentState +:+ or_empty content;
         cs_exists := cs_exists currentState |}
  | prepend =>
      {| cs_content := or_empty content +:+ cs_content currentState;
         cs_exists := cs_exists currentState |}
  | delete => {| cs_content := ""; cs_exists := false |}
  end.

Section VirtualFileTree.

(** [node:path], and the field [rootDir], resolved by the constructor. *)
Variable resolve : string → string → string.
Variable relative : string → string → string.
Variable dirname : string → string.
Variable rootDir : string.

(** [initialize()] *)
Definition initialize : M unit :=
  update (set_originalStates (λ _, JsMap.empty)) ;;
  update (set_latestContent (λ _, JsMap.empty)) ;;
  update (set_operationQueue (λ _, [])) ;;
  update (set_isCommitted false) ;;
  update (set_operationCounter 0).

(** [readFile(path)] *)
Definition readFile (path : string) : M string :=
  let absolutePath := resolve rootDir path in
  let relativePath := relative rootDir absolutePath in
  t <- this ;;
  match JsMap.get relativePath (latestContent t) with
  | Some cached =>
      if negb (cs_exists cached) then throw (FileDoesNotExist path)
      else ret (cs_content cached)
  | None =>
      r <- try_catch
             (stats <- fs_stat absolutePath ;;
              if st_isFile stats then
                content <- fs_readFile absolutePath ;;
                update (set_latestContent
                  (JsMap.set relativePath
                     {| cs_content := content; cs_exists := true |})) ;;
                ret (Some content)
              else ret None)
             (λ _, ret None) ;;
      match r with
      | Some content => ret content
      | None => throw (FileDoesNotExist path)
      end
  end.

(** [fileExists(path)] *)
Definition fileExists (path : string) : M bool :=
  let absolutePath := resolve rootDir path in
  let relativePath := relative rootDir absolutePath in
  t <- this ;;
  match JsMap.get relativePath (latestContent t) with
  | Some cached => ret (cs_exists cached)
  | None => fs_existsSync absolutePath
  end.

(** [_captureOriginalState(relativePath, absolutePath)] *)
Definition _captureOriginalState (relativePath absolutePath : string) : M unit :=
  originalState <-
    try_catch
      (stats <- fs_stat absolutePath ;;
       if st_isFile stats then
         content <- fs_readFile absolutePath ;;
         ret {| os_existed := true; os_content := Some content;
                os_stats := Some stats |}
       else
         ret {| os_existed := false; os_content := None; os_stats := None |})
      (λ _, ret {| os_existed := false; os_content := None; os_stats := None |}) ;;
  update (set_originalStates (JsMap.set relativePath originalState)).

(** [_updateLatestContent(relativePath, type, content)] *)
Definition _updateLatestContent (relativePath : string) (type : OperationType)
    (content : option string) : M unit :=
  t <- this ;;
  currentState <-
    match JsMap.get relativePath (latestContent t) with
    | Some currentState => ret currentState
    | None =>
        let absolutePath := resolve rootDir relativePath in
        try_catch
          (stats <- fs_stat absolutePath ;;
           if st_isFile stats then
             fileContent <- fs_readFile absolutePath ;;
             ret {| cs_content := fileContent; cs_exists := true |}
           else ret {| cs_content := ""; cs_exists := false |})
          (λ _, ret {| cs_content := ""; cs_exists := false |})
    end ;;
  let newState := apply_operation type content currentState in
  update (set_latestContent (JsMap.set relativePath newState)).

(** [_addOperation(path, type, content)] *)
Definition _addOperation (path : string) (type : OperationType)
    (content : option string) : M unit :=
  let absolutePath := resolve rootDir path in
  let relativePath := relative rootDir absolutePath in
  t <- this ;;
  (if negb (JsMap.has relativePath (originalStates t))
   then _captureOriginalState relativePath absolutePath
   else ret tt) ;;
  currentExists <- fileExists path ;;
  t <- this ;;
  match JsMap.get relativePath (originalStates t) with
  | None => throw TypeError (* [originalStates.get(relativePath)!] *)
  | Some originalState =>
      (if bool_decide (type = create) && (os_existed originalState || currentExists)
       then
         let hasDeleteOperation :=
           existsb (λ op, bool_decide (op_type op = delete))
             (filter (λ op, op_path op = relativePath) (operationQueue t)) in
         if negb hasDeleteOperation then throw (CannotCreate path) else ret tt
       else ret tt) ;;
      (if (bool_decide (type = modify) || bool_decide (type = delete)
           || bool_decide (type = append) || bool_decide (type = prepend))
          && negb currentExists
       then throw (CannotOperate type path)
       else ret tt) ;;
      _updateLatestContent relativePath type content ;;
      t <- this ;;
      update (set_operationCounter (S (operationCounter t))) ;;
      update (set_operationQueue (λ q, q ++
        [{| op_id := op_name (S (operationCounter t));
            op_path := relativePath;
            op_type := type;
            op_content := content |}]))
  end.

(** The staging methods. *)
Definition createFile (path content : string) : M unit :=
  _addOperation path create (Some content).

Definition modifyFile (path content : string) : M unit :=
  _addOperation path modify (Some content).

Definition appendToFile (path content : string) : M unit :=
  _addOperation path append (Some content).

Definition prependToFile (path content : string) : M unit :=
  _addOperation path prepend (Some content).

(** [transformFile(path, transformer)], with
    [await this.readFile(path).catch(() => '')] *)
Definition transformFile (path : string) (transformer : string → string) : M unit :=
  currentContent <- try_catch (readFile path) (λ _, ret "") ;;
  let newContent := transformer currentContent in
  _addOperation path modify (Some newContent).

Definition deleteFile (path : string) : M unit :=
  _addOperation path delete None.

Definition overwriteFile (path content : string) : M unit :=
  exists_ <- fileExists path ;;
  _addOperation path (if exists_ then modify else create) (Some content).

(** [preview()] *)
Definition preview : M (list FileOperation) :=
  t <- this ;; ret (map (λ op, op) (operationQueue t)).

(** [commit()] *)
Definition commit : M unit :=
  t <- this ;;
  if isCommitted t then throw AlreadyCommitted
  else
    let affectedFiles :=
      JsSet.of_list (map (λ op, resolve rootDir (op_path op)) (operationQueue t)) in
    let directories := JsSet.of_list (map dirname affectedFiles) in
    try_catch
      (for_each directories fs_mkdir ;;
       for_each (JsMap.entries (latestContent t))
         (λ '(relativePath, latestState),
            let absolutePath := resolve rootDir relativePath in
            if cs_exists latestState
            then fs_writeFile absolutePath (cs_content latestState)
            else try_catch (fs_unlink absolutePath) (λ _, ret tt)) ;;
       update (set_isCommitted true))
      (λ error, throw (FailedToCommit error)).

(** [_restoreOriginalState()] *)
Definition _restoreOriginalState : M unit :=
  t <- this ;;
  operations <-
    start_all (JsMap.entries (originalStates t))
      (λ '(relativePath, originalState),
         let absolutePath := resolve rootDir relativePath in
         if os_existed originalState
         then fs_writeFile absolutePath (or_empty (os_content originalState))
         else try_catch (fs_unlink absolutePath) (λ _, ret tt)) ;;
  Promise_all operations ;;
  update (set_operationQueue (λ _, [])) ;;
  update (set_latestContent (λ _, JsMap.empty)) ;;
  update (set_originalStates (λ _, JsMap.empty)) ;;
  update (set_isCommitted false) ;;
  update (set_operationCounter 0).

(** [rollback()] *)
Definition rollback : M unit :=
  t <- this ;;
  if isCommitted t then _restoreOriginalState
  else
    update (set_operationQueue (λ _, [])) ;;
    update (set_latestContent (λ _, JsMap.empty)).

(** The getters. *)
Definition pendingOperations (t : VirtualFileTree) : nat :=
  length (operationQueue t).

Definition hasPendingChanges (t : VirtualFileTree) : bool :=
  bool_decide (0 < length (operationQueue t)) && negb (isCommitted t).

Definition isTransactionCommitted (t : VirtualFileTree) : bool :=
  isCommitted t.

(** [getTrackedFiles()] *)
Definition getTrackedFiles (t : VirtualFileTree) : list string :=
  JsMap.keys (originalStates t).

(** [toFsUpdates()] *)
Definition toFsUpdates (t : VirtualFileTree) : list FsUpdate :=
  map (λ '(path, state),
         {| fu_path := resolve rootDir path;
            fu_content := String.list_byte_of_string (cs_content state);
            fu_type := update_modify |})
    (filter (λ '(_, state), cs_exists state = true)
       (JsMap.entries (latestContent t))).

(** [createCheckpoint()] *)
Definition createCheckpoint : M VirtualFileTreeCheckpoint :=
  t <- this ;; ret (new_VirtualFileTreeCheckpoint t).

(** The calls of a client during the staging phase of a transaction. *)
Inductive staging_call :=
  | CreateFile (path content : string)
  | ModifyFile (path content : string)
  | AppendToFile (path content : string)
  | PrependToFile (path content : string)
  | TransformFile (path : string) (transformer : string → string)
  | DeleteFile (path : string)
  | OverwriteFile (path content : string)
  | ReadFile (path : string)
  | FileExists (path : string).

(** The path that a staging method is called on. *)
Definition staged_path (c : staging_call) : option string :=
  match c with
  | CreateFile path _ | ModifyFile path _ | AppendToFile path _
  | PrependToFile path _ | TransformFile path _ | DeleteFile path
  | OverwriteFile path _ => Some path
  | ReadFile _ | FileExists _ => None
  end.

Definition discard {A} (m : M A) : M unit := _ <- m ;; ret tt.

Definition run_call (c : staging_call) : M unit :=
  match c with
  | CreateFile path content => createFile path content
  | ModifyFile path content => modifyFile path content
  | AppendToFile path content => appendToFile path content
  | PrependToFile path content => prependToFile path content
  | TransformFile path transformer => transformFile path transformer
  | DeleteFile path => deleteFile path
  | OverwriteFile path content => overwriteFile path content
  | ReadFile path => discard (readFile path)
  | FileExists path => discard (fileExists path)
  end.

(** A client that makes the calls one after the other and goes on after a
    call that throws. *)
Fixpoint run_calls (cs : list staging_call)
    (t : VirtualFileTree) (w : world) : VirtualFileTree * world :=
  match cs with
  | [] => (t, w)
  | c :: cs' =>
      match run_call c t w with
      | (_, t', w') => run_calls cs' t' w'
      end
  end.

End VirtualFileTree.

(** ** Notions used in the statements *)

(** One step of the loops of [commit] and [_restoreOriginalState] on the
    disk: with a content, [writeFile], which does nothing on a directory
    (it fails); without one, [unlink] with its failure ignored. *)
Definition settle_path (d : gmap string node) (p : string)
    (target : option string) : gmap string node :=
  match target, d !! p with
  | Some c, Some Dir => d
  | Some c, _ => <[p := File c]> d
  | None, Some (File _) => base.delete p d
  | None, _ => d
  end.

(** What a step leaves at a path. *)
Definition settled (tg : option string) (n : option node) : option node :=
  match tg, n with
  | Some c, Some Dir => Some Dir
  | Some c, _ => Some (File c)
  | None, Some (File _) => None
  | None, n => n
  end.

(** The one way a step is rejected: [writeFile] on a directory. *)
Definition settle_fails (d : gmap string node) (p : string)
    (target : option string) : bool :=
  match target, d !! p with
  | Some _, Some Dir => true
  | _, _ => false
  end.

Definition settle_call (p : string) (target : option string) : fs_call :=
  match target with
  | Some c => CallWriteFile p c
  | None => CallUnlink p
  end.

(** What the loop of [commit] does with an entry of the projection, and
    the loop of [_restoreOriginalState] with an entry of the store. *)
Definition commit_target (st : CurrentFileState) : option string :=
  if cs_exists st then Some (cs_content st) else None.

Definition restore_target (os : OriginalFileState) : option string :=
  if os_existed os then Some (or_empty (os_content os)) else None.

(** The loop bodies of [commit] and of [_restoreOriginalState], for a map
    of values [V] and what is to be done with a value. *)
Section Loops.
Variable resolve : string → string → string.
Variable rootDir : string.
Context {V : Type}.
Variable target : V → option string.

Definition settle_entry (kv : string * V) : M unit :=
  let absolutePath := resolve rootDir kv.1 in
  match target kv.2 with
  | Some c => fs_writeFile absolutePath c
  | None => try_catch (fs_unlink absolutePath) (λ _, ret tt)
  end.

Definition settle_disk (d : gmap string node) (l : list (string * V)) :
    gmap string node :=
  foldl (λ d kv, settle_path d (resolve rootDir kv.1) (target kv.2)) d l.

Definition settle_calls (l : list (string * V)) : list fs_call :=
  (λ kv, settle_call (resolve rootDir kv.1) (target kv.2)) <$> l.

Definition settle_paths (l : list (string * V)) : list string :=
  (λ kv, resolve rootDir kv.1) <$> l.
End Loops.

(** What [mkdir] may do to the disk: a path is as before, or was missing
    and is a directory. *)
Definition mkdir_only (d d' : gmap string node) : Prop :=
  ∀ p, d' !! p = d !! p ∨ (d !! p = None ∧ d' !! p = Some Dir).

(** A method that made no write: the disk is the same and the log grew by
    reads alone. *)
Definition reads_only (w w' : world) : Prop :=
  disk w' = disk w ∧
  ∃ cs, calls w' = calls w ++ cs ∧ Forall (λ c, is_write c = false) cs.

(** The calls that a method made: the log from a given length on. *)
Definition calls_since (w w' : world) : list fs_call :=
  drop (length (calls w)) (calls w').

(** The directory of a path and the directories above it: what [mkdir]
    with [recursive: true] on the directory of the path may create. *)
Definition above (dirname : string → string) (p q : string) : Prop :=
  ∃ n, p = Nat.iter (S n) dirname q.

(** ** The state of a transaction *)

Section Invariants.
Variable resolve : string → string → string.
Variable relative : string → string → string.
Variable rootDir : string.

(** [hasDeleteOperation] of [_addOperation], for a key and a queue. *)
Definition has_delete (k : string) (q : list FileOperation) : bool :=
  existsb (λ op, bool_decide (op_type op = delete))
    (filter (λ op, op_path op = k) q).

(** The operation that [_addOperation] pushes. *)
Definition staged_operation (t : VirtualFileTree) (k : string)
    (type : OperationType) (content : option string) : FileOperation :=
  {| op_id := op_name (S (operationCounter t));
     op_path := k; op_type := type; op_content := content |}.

(** What [fileExists] answers: the cached state, else the disk. *)
Definition current_exists (t : VirtualFileTree) (d : gmap string node)
    (path : string) : bool :=
  match JsMap.get (relative rootDir (resolve rootDir path)) (latestContent t) with
  | Some cached => cs_exists cached
  | None => disk_exists d (resolve rootDir path)
  end.

(** The state of a key that [_updateLatestContent] starts from. *)
Definition current_state (t : VirtualFileTree) (d : gmap string node)
    (k : string) : CurrentFileState :=
  match JsMap.get k (latestContent t) with
  | Some cached => cached
  | None => disk_state d (resolve rootDir k)
  end.

(** The keys of the maps are what [relative(rootDir, resolve(rootDir, p))]
    returns, and a [Map] holds a key once. *)
Definition canonical (k : string) : Prop :=
  relative rootDir (resolve rootDir k) = k.

Definition wf (t : VirtualFileTree) : Prop :=
  NoDup (JsMap.keys (latestContent t)) ∧
  NoDup (JsMap.keys (originalStates t)) ∧
  (∀ k, k ∈ JsMap.keys (latestContent t) → canonical k) ∧
  (∀ k, k ∈ JsMap.keys (originalStates t) → canonical k).

(** The state of a transaction that was staged on the disk [d0]: the disk
    is [d0] still; the cache of a key is the fold of the queued operations
    of the key over what [d0] holds (and a key that is not cached has no
    queued operation); a cached key that does not exist has a queued
    operation; the store of original states holds what [d0] holds. *)
Definition staged_on (d0 : gmap string node) (t : VirtualFileTree) (w : world) : Prop :=
  disk w = d0 ∧
  (∀ k, match JsMap.get k (latestContent t) with
        | Some st => st = spec_fold k (operationQueue t) (disk_state d0 (resolve rootDir k))
        | None => operations_on k (operationQueue t) = []
        end) ∧
  (∀ k st, JsMap.get k (latestContent t) = Some st → cs_exists st = false →
           operations_on k (operationQueue t) ≠ []) ∧
  (∀ k os, JsMap.get k (originalStates t) = Some os →
           os = disk_original d0 (resolve rootDir k)) ∧
  (∀ op, op ∈ operationQueue t → is_Some (JsMap.get (op_path op) (originalStates t))).

(** What every call of the staging phase keeps, from a state [t], [w] to a
    state [t'], [w']: no write, the flag [isCommitted], and the entries of
    the store of original states. *)
Definition framed (t : VirtualFileTree) (w : world) t' w' : Prop :=
  reads_only w w' ∧ isCommitted t' = isCommitted t ∧
  ∀ k os, JsMap.get k (originalStates t) = Some os →
          JsMap.get k (originalStates t') = Some os.

(** The same, with the invariants of a transaction staged on [d0]. *)
Definition kept (d0 : gmap string node) (t : VirtualFileTree) (w : world)
    (t' : VirtualFileTree) (w' : world) : Prop :=
  wf t' ∧ staged_on d0 t' w' ∧ reads_only w w' ∧ isCommitted t' = isCommitted t.

End Invariants.

(** ** A path library for the examples

    On relative paths without [.] and [..] segments, below the root [/r],
    [node:path] does the following. *)

Module Posix.
Definition rootDir : string := "/r".

Definition resolve (root path : string) : string :=
  if decide (path = "") then root else root +:+ "/" +:+ path.

Fixpoint drop_string (n : nat) (s : string) : string :=
  match n, s with
  | O, _ => s
  | S n', String _ s' => drop_string n' s'
  | S _, EmptyString => EmptyString
  end.

Definition relative (root path : string) : string :=
  drop_string (S (String.length root)) path.

(** The path up to its last separator. *)
Fixpoint dirname_aux (s : string) : option string :=
  match s with
  | EmptyString => None
  | String c s' =>
      match dirname_aux s' with
      | Some d => Some (String c d)
      | None => if decide (c = "/"%char) then Some EmptyString else None
      end
  end.

Definition dirname (path : string) : string :=
  match dirname_aux path with
  | Some "" => "/"
  | Some d => d
  | None => "."
  end.

Definition start (d : gmap string node) : world := {| disk := d; calls := [] |}.

(** The methods of the class on this path library. *)
Definition run_calls := run_calls resolve relative rootDir.
Definition readFile := readFile resolve relative rootDir.
Definition fileExists := fileExists resolve relative rootDir.
Definition createFile := createFile resolve relative rootDir.
Definition deleteFile := deleteFile resolve relative rootDir.
Definition commit := commit resolve dirname rootDir.
Definition rollback := rollback resolve rootDir.
Definition toFsUpdates := toFsUpdates resolve rootDir.
End Posix.

(** ** The rest of the class: the list of changed files *)

Section Listing.

(** [array.sort()] without a comparator, which orders strings by their
    UTF-16 code units.  It is a parameter: the statements use only that
    the result is a permutation of the array. *)
Variable Array_sort : list string → list string.

(** [getChangedFiles()] *)
Definition getChangedFiles (t : VirtualFileTree) : list string :=
  let changedFiles :=
    foldl (λ changedFiles operation, JsSet.add (op_path operation) changedFiles)
      [] (operationQueue t) in
  Array_sort changedFiles.

End Listing.

(** ** JavaScript strings *)

(** [s.includes(sub)] *)
Fixpoint includes (s sub : string) : bool :=
  if String.prefix sub s then true
  else match s with
       | EmptyString => false
       | String _ s' => includes s' sub
       end.

(** [s.slice(0, n)] and [s.slice(n)], for an [n] that is not negative. *)
Fixpoint slice_to (n : nat) (s : string) : string :=
  match n, s with
  | S n', String c s' => String c (slice_to n' s')
  | _, _ => EmptyString
  end.

Fixpoint slice_from (n : nat) (s : string) : string :=
  match n, s with
  | S n', String _ s' => slice_from n' s'
  | _, _ => s
  end.

(** The line feed of a template string. *)
Definition LF : string := String "010"%char EmptyString.

(** The double quote. *)
Definition DQ : string := String "034"%char EmptyString.

(** ** The plugin context

    [packages/qwik/src/cli/plugin-sdk/plugin-context.ts]: the class
    [PluginContext], whose field [vft] is the object that the methods run
    on, and the function [runPlugin]. *)

(** What a plugin and the methods of the context throw: an error of the
    file tree, or another value, such as [new Error(message)]. *)
Inductive exn :=
  | TreeError (e : error)
  | PluginError (message : string).

Inductive outcome (A : Type) :=
  | Returned (a : A)
  | Threw (e : exn).
Arguments Returned {A} a.
Arguments Threw {A} e.

(** The monad of plugins and of the methods of the context. *)
Definition P (A : Type) : Type :=
  VirtualFileTree → world → outcome A * VirtualFileTree * world.

(** A method of the file tree, called from the context. *)
Definition lift {A} (m : M A) : P A := λ t w,
  match m t w with
  | (Ok a, t', w') => (Returned a, t', w')
  | (Err e, t', w') => (Threw (TreeError e), t', w')
  end.

Definition p_ret {A} (a : A) : P A := λ t w, (Returned a, t, w).

Definition p_throw {A} (e : exn) : P A := λ t w, (Threw e, t, w).

Definition p_bind {A B} (m : P A) (f : A → P B) : P B := λ t w,
  match m t w with
  | (Returned a, t', w') => f a t' w'
  | (Threw e, t', w') => (Threw e, t', w')
  end.

(** [try { m } catch (error) { h error }] *)
Definition p_try {A} (m : P A) (h : exn → P A) : P A := λ t w,
  match m t w with
  | (Returned a, t', w') => (Returned a, t', w')
  | (Threw e, t', w') => h e t' w'
  end.

Declare Scope ctx_scope.
Delimit Scope ctx_scope with ctx.
Notation "x <- m ;; k" := (p_bind m (λ x, k))
  (at level 100, m at next level, right associativity) : ctx_scope.
Notation "m ;; k" := (p_bind m (λ _, k))
  (at level 100, right associativity) : ctx_scope.

(** [interface VitePluginConfig] *)
Record VitePluginConfig := {
  importPath : string;
  defaultImport : string;
  pluginCall : string
}.

(** The section of [package.json] that [addDependency] writes to. *)
Inductive DependencyType := dependencies | devDependencies | peerDependencies.

(** [type PluginFunction = (ctx: PluginContext) => Promise<void>]: what the
    function does with the context it is given. *)
Definition PluginFunction : Type := P unit.

Section PluginContext.

Variable resolve : string → string → string.
Variable relative : string → string → string.
Variable dirname : string → string.
Variable rootDir : string.

(** The part of [addDependency] that computes on JSON, from the text of
    [package.json] to its new text:
    [JSON.parse], the assignments [packageJson[type] = {}] and
    [packageJson[type][name] = version], and [JSON.stringify(_, null, 2)].
    It throws where [JSON.parse] or an assignment does. *)
Variable json_with_dependency :
  string → string → DependencyType → string → exn + string.

(** The matches of the two regular expressions of [addVitePlugin] in a
    text, each with its index and its matched text:
    [[...s.matchAll(/^import\s+.*?;$/gm)]] and [s.match(/plugins:\s*\[/)].
    Indices and lengths count the units of the strings of the
    embedding. *)
Variable import_matches : string → list (nat * string).
Variable plugins_match : string → option (nat * string).

Local Open Scope ctx_scope.

(** [addDependency(name, version, type)] *)
Definition addDependency (name version : string) (type : DependencyType) : P unit :=
  packageJsonContent <- lift (readFile resolve relative rootDir "package.json") ;;
  match json_with_dependency name version type packageJsonContent with
  | inl e => p_throw e
  | inr newContent =>
      lift (modifyFile resolve relative rootDir "package.json" newContent)
  end.

(** [_findViteConfig()], with the loop over [possibleConfigs]. *)
Definition possibleConfigs : list string :=
  ["vite.config.ts"; "vite.config.js"; "vite.config.mjs"].

Fixpoint first_existing (configs : list string) : M (option string) :=
  match configs with
  | [] => ret None
  | config :: configs' =>
      bind (fileExists resolve relative rootDir config) (λ exists_,
        if exists_ then ret (Some config) else first_existing configs')
  end.

Definition _findViteConfig : M (option string) := first_existing possibleConfigs.

(** The two edits of [addVitePlugin]. *)
Definition with_import (config : VitePluginConfig) (modifiedConfig : string) : string :=
  if negb (includes modifiedConfig (importPath config)) then
    let importStatement :=
      "import " +:+ defaultImport config +:+ " from '" +:+ importPath config
        +:+ "';" +:+ LF in
    match last (import_matches modifiedConfig) with
    | Some lastImport =>
        let insertPosition := lastImport.1 + String.length lastImport.2 + 1 in
        slice_to insertPosition modifiedConfig +:+ importStatement
          +:+ slice_from insertPosition modifiedConfig
    | None => importStatement +:+ modifiedConfig
    end
  else modifiedConfig.

Definition with_plugin_call (config : VitePluginConfig) (modifiedConfig : string) :
    P string :=
  if negb (includes modifiedConfig (pluginCall config)) then
    match plugins_match modifiedConfig with
    | Some match_ =>
        let insertPosition := match_.1 + String.length match_.2 in
        p_ret (slice_to insertPosition modifiedConfig
                 +:+ (LF +:+ "    " +:+ pluginCall config +:+ ",")
                 +:+ slice_from insertPosition modifiedConfig)
    | None =>
        p_throw (PluginError
          "Could not find plugins array in vite config. Manual modification needed.")
    end
  else p_ret modifiedConfig.

(** [addVitePlugin(config)] *)
Definition addVitePlugin (config : VitePluginConfig) : P unit :=
  viteConfigPath <- lift _findViteConfig ;;
  match viteConfigPath with
  | None => p_throw (PluginError "No vite.config file found. Cannot add plugin.")
  | Some viteConfigPath =>
      viteConfigContent <- lift (readFile resolve relative rootDir viteConfigPath) ;;
      modifiedConfig <- with_plugin_call config (with_import config viteConfigContent) ;;
      lift (modifyFile resolve relative rootDir viteConfigPath modifiedConfig)
  end.

(** [tailwindPlugin] of [tailwind-plugin.ts]; [ctx.createFile] delegates
    to the file tree. *)
Definition tailwindPlugin : PluginFunction :=
  addDependency "tailwindcss" "^4.0.0" devDependencies ;;
  addDependency "@tailwindcss/vite" "^4.0.0" devDependencies ;;
  addDependency "prettier-plugin-tailwindcss" "^0.6.11" devDependencies ;;
  addVitePlugin {| importPath := "@tailwindcss/vite";
                   defaultImport := "tailwindcss";
                   pluginCall := "tailwindcss()" |} ;;
  lift (createFile resolve relative rootDir "src/global.css"
          ("@import " +:+ DQ +:+ "tailwindcss" +:+ DQ +:+ ";" +:+ LF)) ;;
  let prettierConfig :=
    "export default {" +:+ LF +:+ "  plugins: ['prettier-plugin-tailwindcss'],"
      +:+ LF +:+ "}" +:+ LF in
  lift (createFile resolve relative rootDir ".prettierrc.js" prettierConfig).

(** [runPlugin(pluginFn, projectRoot)], on a new file tree of the root. *)
Definition runPlugin (pluginFn : PluginFunction) (w : world) :
    outcome unit * VirtualFileTree * world :=
  (lift initialize ;;
   p_try
     (pluginFn ;; lift (commit resolve dirname rootDir))
     (λ error, lift (rollback resolve rootDir) ;; p_throw error)) fresh w.

(** A plugin that stages: from a transaction staged on a disk [d0], it
    leaves a transaction staged on [d0], having made no write. *)
Definition stages {A} (m : P A) : Prop :=
  ∀ d0 t w,
    wf resolve relative rootDir t → staged_on resolve rootDir d0 t w →
    kept resolve relative rootDir d0 t w (m t w).1.2 (m t w).2.

End PluginContext.

(** ** Loading a plugin from GitHub

    The two functions of the enhanced [plugin-context.ts] that decide
    where the code of an external plugin is fetched from: [loadPlugin]
    hands every path accepted by [isGitHubUrl] to [loadExternalPlugin],
    which fetches [convertToRawGitHubUrl(pluginUrl)]. *)

(** [s.startsWith(prefix)] *)
Definition startsWith (s prefix : string) : bool := String.prefix prefix s.

(** [s.replace(pattern, replacement)] for a pattern that is a string: the
    first occurrence is replaced.  The replacements of the code hold no
    [$]. *)
Fixpoint replace (s pattern replacement : string) : string :=
  if String.prefix pattern s
  then replacement +:+ slice_from (String.length pattern) s
  else match s with
       | EmptyString => EmptyString
       | String c s' => String c (replace s' pattern replacement)
       end.

(** [s.split(sep)] for a separator of one character. *)
Fixpoint split (sep : ascii) (s : string) : list string :=
  match s with
  | EmptyString => [EmptyString]
  | String c s' =>
      if decide (c = sep) then EmptyString :: split sep s'
      else match split sep s' with
           | part :: parts => String c part :: parts
           | [] => [String c EmptyString]
           end
  end.

(** [parts.join(sep)] *)
Fixpoint join (sep : string) (parts : list string) : string :=
  match parts with
  | [] => EmptyString
  | [part] => part
  | part :: parts' => part +:+ sep +:+ join sep parts'
  end.

(** [`${x}`] for an [x] that is a string or [undefined]. *)
Definition template (x : option string) : string := default "undefined" x.

(** [isGitHubUrl(url)] *)
Definition isGitHubUrl (url : string) : bool :=
  startsWith url "https://github.com/" || startsWith url "github:".

(** [convertToRawGitHubUrl(url)] *)
Definition convertToRawGitHubUrl (url : string) : string :=
  if startsWith url "github:" then
    let parts := split "/" (replace url "github:" "") in
    let owner := parts !! 0 in
    let repo := parts !! 1 in
    let path :=
      let joined := join "/" (drop 2 parts) in
      if decide (joined = "") then "plugin.ts" else joined in
    "https://raw.githubusercontent.com/" +:+ template owner +:+ "/" +:+ template repo
      +:+ "/main/" +:+ path
  else if includes url "github.com" && includes url "/blob/" then
    replace (replace url "github.com" "raw.githubusercontent.com") "/blob/" "/"
  else replace url "github.com" "raw.githubusercontent.com" +:+ "/main/plugin.ts".

(** ** Instances for the examples *)

Module Example.

(** A sort by the order of the bytes, which on ASCII strings is the order
    of the UTF-16 code units. *)
Fixpoint insert_sorted (x : string) (l : list string) : list string :=
  match l with
  | [] => [x]
  | y :: l' => if String.leb x y then x :: l else y :: insert_sorted x l'
  end.

Definition Array_sort (l : list string) : list string := foldr insert_sorted [] l.

(** The methods on the path library of the examples. *)
Definition getChangedFiles := getChangedFiles Array_sort.
Definition modifyFile := modifyFile Posix.resolve Posix.relative Posix.rootDir.
Definition appendToFile := appendToFile Posix.resolve Posix.relative Posix.rootDir.
Definition prependToFile := prependToFile Posix.resolve Posix.relative Posix.rootDir.
Definition transformFile := transformFile Posix.resolve Posix.relative Posix.rootDir.
Definition overwriteFile := overwriteFile Posix.resolve Posix.relative Posix.rootDir.
Definition runPlugin := runPlugin Posix.resolve Posix.dirname Posix.rootDir.
Definition stages {A} := stages (A:=A) Posix.resolve Posix.relative Posix.rootDir.

(** A staging method called through the context. *)
Definition call (c : staging_call) : P unit :=
  lift (run_call Posix.resolve Posix.relative Posix.rootDir c).

(** A plugin that stages a file and throws. *)
Definition throwing_plugin : PluginFunction :=
  (call (CreateFile "should-not-exist.txt" "content") ;;
   p_throw (PluginError "Plugin error"))%ctx.


(** A plugin that stages a file, and a file and a directory of one name. *)
Definition clashing_plugin : PluginFunction :=
  (call (CreateFile "a.txt" "x") ;;
   call (CreateFile "sub" "y") ;;
   call (CreateFile "sub/f" "z"))%ctx.

(** The text of [JSON.stringify({ devDependencies: { ... } }, null, 2)],
    and of [JSON.stringify({}, null, 2)] for no entry. *)
Definition quoted (s : string) : string := DQ +:+ s +:+ DQ.

Definition package_json (deps : list (string * string)) : string :=
  match deps with
  | [] => "{}"
  | _ =>
      "{" +:+ LF +:+ "  " +:+ quoted "devDependencies" +:+ ": {" +:+ LF
        +:+ join ("," +:+ LF)
              (map (λ '(name, version),
                      "    " +:+ quoted name +:+ ": " +:+ quoted version) deps)
        +:+ LF +:+ "  }" +:+ LF +:+ "}"
  end.

(** The computation of [addDependency] on the JSON text, on the texts of
    the example: a [package.json] that is [{}], to which the three
    dependencies of the Tailwind plugin are added one after the other. *)
Definition tailwind_dependencies : list (string * string) :=
  [("tailwindcss", "^4.0.0"); ("@tailwindcss/vite", "^4.0.0");
   ("prettier-plugin-tailwindcss", "^0.6.11")].

Definition json_with_dependency (name version : string) (type : DependencyType)
    (content : string) : exn + string :=
  match
    find (λ n, bool_decide (content = package_json (take n tailwind_dependencies)
                            ∧ tailwind_dependencies !! n = Some (name, version)))
      [0; 1; 2], type
  with
  | Some n, devDependencies => inr (package_json (take (S n) tailwind_dependencies))
  | _, _ => inl (PluginError "a text that is not of the example")
  end.

(** The regular expressions of [addVitePlugin] do not run on a project
    that has no vite config. *)
Definition import_matches (s : string) : list (nat * string) := [].
Definition plugins_match (s : string) : option (nat * string) := None.

Definition tailwindPlugin : PluginFunction :=
  tailwindPlugin Posix.resolve Posix.relative Posix.rootDir json_with_dependency
    import_matches plugins_match.

End Example.


(** * Properties *)

(** ** The containers *)

Module JsMapFacts.
Section facts.
Context {V : Type}.
Implicit Types (m : JsMap.t V) (k : string) (v : V).

Lemma get_set_eq m k v : JsMap.get k (JsMap.set k v m) = Some v.
Proof.
  induction m as [|[k' v'] m IH]; simpl.
  - by rewrite decide_True.
  - destruct (decide (k = k')) as [->|Hne]; simpl.
    + by rewrite decide_True.
    + by rewrite decide_False.
Qed.

Lemma get_set_ne m k k' v :
  k ≠ k' → JsMap.get k' (JsMap.set k v m) = JsMap.get k' m.
Proof.
  intros Hne. induction m as [|[k0 v0] m IH]; simpl.
  - by rewrite decide_False.
  - destruct (decide (k = k0)) as [->|Hne0]; simpl.
    + by rewrite !decide_False.
    + destruct (decide (k' = k0)); auto.
Qed.

Lemma get_set m k k' v :
  JsMap.get k' (JsMap.set k v m)
  = if decide (k = k') then Some v else JsMap.get k' m.
Proof.
  destruct (decide (k = k')) as [->|Hne].
  - apply get_set_eq.
  - by apply get_set_ne.
Qed.

Lemma has_get m k : JsMap.has k m = true ↔ is_Some (JsMap.get k m).
Proof.
  unfold JsMap.has. destruct (JsMap.get k m); split; intros H; eauto.
  - discriminate.
  - by destruct H.
Qed.

Lemma get_Some_elem m k v : JsMap.get k m = Some v → (k, v) ∈ JsMap.entries m.
Proof.
  unfold JsMap.entries. induction m as [|[k' v'] m IH]; simpl; [done|].
  destruct (decide (k = k')) as [->|Hne]; intros H.
  - injection H as ->. left.
  - right. auto.
Qed.

Lemma get_is_Some_keys m k : is_Some (JsMap.get k m) ↔ k ∈ JsMap.keys m.
Proof.
  unfold JsMap.keys. induction m as [|[k' v'] m IH]; simpl.
  - split; [by intros [? ?] | by intros ?%elem_of_nil].
  - destruct (decide (k = k')) as [->|Hne].
    + split; [intros _; left | eauto].
    + rewrite IH. split; [by right | ].
      intros [?|?]%elem_of_cons; [done | assumption].
Qed.

Lemma elem_get m k v :
  NoDup (JsMap.keys m) → (k, v) ∈ JsMap.entries m → JsMap.get k m = Some v.
Proof.
  unfold JsMap.keys, JsMap.entries.
  induction m as [|[k' v'] m IH]; simpl; intros Hnd Hin.
  - by apply elem_of_nil in Hin.
  - apply NoDup_cons in Hnd as [Hnotin Hnd].
    apply elem_of_cons in Hin as [Heq|Hin].
    + injection Heq as -> ->. by rewrite decide_True.
    + destruct (decide (k = k')) as [->|Hne]; [|auto].
      exfalso. apply Hnotin. apply list_elem_of_fmap. by exists (k', v).
Qed.

Lemma keys_set m k v :
  JsMap.keys (JsMap.set k v m)
  = if decide (k ∈ JsMap.keys m) then JsMap.keys m else JsMap.keys m ++ [k].
Proof.
  unfold JsMap.keys. induction m as [|[k' v'] m IH].
  - rewrite decide_False; [done | apply not_elem_of_nil].
  - cbn [JsMap.set]. destruct (decide (k = k')) as [->|Hne].
    + rewrite decide_True; [done | rewrite fmap_cons; left].
    + rewrite !fmap_cons, IH. cbn [fst].
      destruct (decide (k ∈ m.*1)) as [Hin|Hnin].
      * rewrite decide_True; [done | by right].
      * rewrite decide_False; [done |].
        intros [?|?]%elem_of_cons; done.
Qed.

Lemma keys_set_elem m k k' v :
  k' ∈ JsMap.keys (JsMap.set k v m) ↔ k' = k ∨ k' ∈ JsMap.keys m.
Proof.
  rewrite <- !get_is_Some_keys, get_set.
  destruct (decide (k = k')) as [->|Hne].
  - split; eauto.
  - split; [by right | intros [->|?]; done].
Qed.

Lemma NoDup_keys_set m k v :
  NoDup (JsMap.keys m) → NoDup (JsMap.keys (JsMap.set k v m)).
Proof.
  intros Hnd. rewrite keys_set. destruct (decide _) as [|Hnin]; [done|].
  apply NoDup_app. split_and!; [done | | apply NoDup_singleton].
  intros x Hx ->%list_elem_of_singleton. done.
Qed.
End facts.
End JsMapFacts.

(** ** The staging methods, run *)

Lemma initialize_run t w : initialize t w = (Ok tt, fresh, w).
Proof. reflexivity. Qed.

Lemma reads_only_refl w : reads_only w w.
Proof. split; [done|]. exists []. by rewrite app_nil_r. Qed.

Lemma reads_only_trans w1 w2 w3 :
  reads_only w1 w2 → reads_only w2 w3 → reads_only w1 w3.
Proof.
  intros [Hd1 (cs1 & Hc1 & Hf1)] [Hd2 (cs2 & Hc2 & Hf2)]. split; [congruence|].
  exists (cs1 ++ cs2). rewrite Hc2, Hc1, app_assoc. split; [done|].
  by apply Forall_app.
Qed.

Lemma reads_only_log c w : is_write c = false → reads_only w (log c w).
Proof. intros Hc. split; [done|]. exists [c]. split; [done|]. by constructor. Qed.

Lemma reads_only_log_r c w w' :
  is_write c = false → reads_only w w' → reads_only w (log c w').
Proof.
  intros Hc Hw. eapply reads_only_trans; [exact Hw | by apply reads_only_log].
Qed.

Create HintDb vft.
Global Hint Resolve reads_only_refl reads_only_log reads_only_log_r : vft.

Ltac unfold_M :=
  unfold bind, try_catch, this, update, ret, throw, settle, discard,
    fs_stat, fs_readFile, fs_existsSync, fs_mkdir, fs_writeFile, fs_unlink.

Lemma run_bind_ok {A B} (m : M A) (f : A → M B) t w a t' w' :
  m t w = (Ok a, t', w') → bind m f t w = f a t' w'.
Proof. unfold bind. by intros ->. Qed.

Lemma run_bind_err {A B} (m : M A) (f : A → M B) t w e t' w' :
  m t w = (Err e, t', w') → bind m f t w = (Err e, t', w').
Proof. unfold bind. by intros ->. Qed.

Section StagingFacts.
Variable resolve : string → string → string.
Variable relative : string → string → string.
Variable rootDir : string.

Local Notation "'key' path" := (relative rootDir (resolve rootDir path))
  (at level 10, path at level 9, only parsing).
Local Notation "'abs' path" := (resolve rootDir path)
  (at level 10, path at level 9, only parsing).

Lemma fileExists_run path t w :
  ∃ w', fileExists resolve relative rootDir path t w
        = (Ok (current_exists resolve relative rootDir t (disk w) path), t, w')
        ∧ reads_only w w'.
Proof.
  unfold fileExists, current_exists, disk_exists. unfold_M.
  destruct (JsMap.get _ _); [eauto with vft|].
  destruct (disk w !! _); eauto with vft.
Qed.

Lemma captureOriginalState_run k a t w :
  ∃ w', _captureOriginalState k a t w
        = (Ok tt, set_originalStates (JsMap.set k (disk_original (disk w) a)) t, w')
        ∧ reads_only w w'.
Proof.
  unfold _captureOriginalState, disk_original. unfold_M.
  destruct (disk w !! a) as [[c|]|] eqn:E; cbn; rewrite ?E; eauto 6 with vft.
Qed.

Lemma updateLatestContent_run k type content t w :
  ∃ w', _updateLatestContent resolve rootDir k type content t w
        = (Ok tt,
           set_latestContent
             (JsMap.set k
                (apply_operation type content (current_state resolve rootDir t (disk w) k)))
             t,
           w')
        ∧ reads_only w w'.
Proof.
  unfold _updateLatestContent, current_state, disk_state. unfold_M.
  destruct (JsMap.get k (latestContent t)); [eauto with vft|].
  destruct (disk w !! _) as [[c|]|] eqn:E; cbn; rewrite ?E; eauto 6 with vft.
Qed.

(** [readFile]: the result, and the entry that a first read caches. *)
Lemma readFile_run path t w :
  ∃ w', readFile resolve relative rootDir path t w
        = (match JsMap.get (key path) (latestContent t) with
           | Some cached => spec_read path cached
           | None => spec_read path (disk_state (disk w) (abs path))
           end,
           match JsMap.get (key path) (latestContent t), disk w !! abs path with
           | None, Some (File c) =>
               set_latestContent
                 (JsMap.set (key path) {| cs_content := c; cs_exists := true |}) t
           | _, _ => t
           end, w')
        ∧ reads_only w w'.
Proof.
  unfold readFile, spec_read, disk_state. unfold_M.
  destruct (JsMap.get _ (latestContent t)) as [[c e]|].
  - destruct e; cbn; eauto with vft.
  - destruct (disk w !! _) as [[c|]|] eqn:E; cbn; rewrite ?E; eauto 6 with vft.
Qed.

(** The store of original states after the capture of [_addOperation]. *)
Lemma addOperation_run path type content t w :
  let k := key path in
  let os' := if JsMap.has k (originalStates t) then originalStates t
             else JsMap.set k (disk_original (disk w) (abs path)) (originalStates t) in
  let t1 := set_originalStates (λ _, os') t in
  let cur := current_exists resolve relative rootDir t (disk w) path in
  ∃ w' orig, reads_only w w' ∧ JsMap.get k os' = Some orig ∧
    _addOperation resolve relative rootDir path type content t w =
      if bool_decide (type = create) && (os_existed orig || cur)
         && negb (has_delete k (operationQueue t))
      then (Err (CannotCreate path), t1, w')
      else if negb (bool_decide (type = create)) && negb cur
      then (Err (CannotOperate type path), t1, w')
      else (Ok tt,
            {| operationQueue :=
                 operationQueue t ++ [staged_operation t k type content];
               originalStates := os';
               latestContent :=
                 JsMap.set k
                   (apply_operation type content
                      (current_state resolve rootDir t (disk w) k))
                   (latestContent t);
               isCommitted := isCommitted t;
               operationCounter := S (operationCounter t) |},
            w').
Proof.
  intros k os' t1 cur.
  assert (∃ orig, JsMap.get k os' = Some orig) as [orig Horig].
  { subst os'. destruct (JsMap.has k (originalStates t)) eqn:Hhas.
    - by apply JsMapFacts.has_get in Hhas as [o ->]; eauto.
    - rewrite JsMapFacts.get_set_eq. eauto. }
  assert (∃ w1, (if negb (JsMap.has k (originalStates t))
                 then _captureOriginalState k (abs path)
                 else ret tt) t w = (Ok tt, t1, w1) ∧ reads_only w w1)
    as (w1 & E1 & R1).
  { subst t1 os'. destruct (JsMap.has k (originalStates t)); cbn.
    - exists w. split; [|auto with vft]. unfold ret. by destruct t.
    - destruct (captureOriginalState_run k (abs path) t w) as (w1 & -> & R).
      eauto. }
  destruct (fileExists_run path t1 w1) as (w2 & E2 & R2).
  assert (current_exists resolve relative rootDir t1 (disk w1) path = cur) as Hcur.
  { subst cur t1. unfold current_exists. cbn. by rewrite (proj1 R1). }
  rewrite Hcur in E2.
  assert (reads_only w w2) as R02 by eauto using reads_only_trans.
  set (t2 := set_latestContent (JsMap.set k (apply_operation type content
                (current_state resolve rootDir t (disk w) k))) t1).
  destruct (updateLatestContent_run k type content t1 w2) as (w3 & E3 & R3).
  assert (current_state resolve rootDir t1 (disk w2) k
          = current_state resolve rootDir t (disk w) k) as Hst.
  { subst t1. unfold current_state. cbn. by rewrite (proj1 R02). }
  rewrite Hst in E3. fold t2 in E3.
  enough (∃ w', reads_only w w' ∧
    _addOperation resolve relative rootDir path type content t w =
      if bool_decide (type = create) && (os_existed orig || cur)
         && negb (has_delete k (operationQueue t))
      then (Err (CannotCreate path), t1, w')
      else if negb (bool_decide (type = create)) && negb cur
      then (Err (CannotOperate type path), t1, w')
      else (Ok tt,
            {| operationQueue :=
                 operationQueue t ++ [staged_operation t k type content];
               originalStates := os';
               latestContent :=
                 JsMap.set k
                   (apply_operation type content
                      (current_state resolve rootDir t (disk w) k))
                   (latestContent t);
               isCommitted := isCommitted t;
               operationCounter := S (operationCounter t) |},
            w')) as (w' & ? & ?) by (by exists w', orig).
  unfold _addOperation. fold k.
  erewrite run_bind_ok by reflexivity.
  erewrite run_bind_ok by exact E1.
  erewrite run_bind_ok by exact E2.
  erewrite run_bind_ok by reflexivity.
  replace (originalStates t1) with os' by done. rewrite Horig.
  unfold has_delete. replace (operationQueue t1) with (operationQueue t) by done.
  assert (∀ w', reads_only w2 w' → reads_only w w') as Hw
    by eauto using reads_only_trans.
  assert ((_updateLatestContent resolve rootDir k type content;;
           t0 <- this;;
           update (set_operationCounter (S (operationCounter t0)));;
           update (set_operationQueue (λ q,
             q ++ [{| op_id := op_name (S (operationCounter t0)); op_path := k;
                      op_type := type; op_content := content |}]))) t1 w2
          = (Ok tt,
             {| operationQueue :=
                  operationQueue t ++ [staged_operation t k type content];
                originalStates := os';
                latestContent :=
                  JsMap.set k
                    (apply_operation type content
                       (current_state resolve rootDir t (disk w) k))
                    (latestContent t);
                isCommitted := isCommitted t;
                operationCounter := S (operationCounter t) |}, w3)) as Etail.
  { erewrite run_bind_ok by exact E3.
    erewrite run_bind_ok by reflexivity.
    erewrite run_bind_ok by reflexivity. reflexivity. }
  destruct (bool_decide (type = create)) eqn:Hty; cbn [andb negb].
  - assert ((bool_decide (type = modify) || bool_decide (type = delete)
             || bool_decide (type = append) || bool_decide (type = prepend))
            = false) as ->.
    { apply bool_decide_eq_true in Hty. by subst type. }
    cbn [andb].
    destruct (os_existed orig || cur) eqn:Hex;
      [destruct (existsb _ _) eqn:Hdel|]; cbn [negb andb].
    + exists w3. split; [auto|].
      do 2 (erewrite run_bind_ok by reflexivity). exact Etail.
    + exists w2. split; [auto|].
      by erewrite run_bind_err by reflexivity.
    + exists w3. split; [auto|].
      do 2 (erewrite run_bind_ok by reflexivity). exact Etail.
  - assert ((bool_decide (type = modify) || bool_decide (type = delete)
             || bool_decide (type = append) || bool_decide (type = prepend))
            = true) as ->.
    { apply bool_decide_eq_false in Hty. by destruct type. }
    erewrite run_bind_ok by reflexivity.
    destruct cur eqn:Hc; cbn [negb andb].
    + exists w3. split; [auto|].
      erewrite run_bind_ok by reflexivity. exact Etail.
    + exists w2. split; [auto|].
      by erewrite run_bind_err by reflexivity.
Qed.

(** The two outcomes of [_addOperation]: rejected by the validation, after
    the capture, or staged. *)
Lemma addOperation_cases path type content t w :
  let k := key path in
  ∃ r t' w',
    _addOperation resolve relative rootDir path type content t w = (r, t', w') ∧
    reads_only w w' ∧
    isCommitted t' = isCommitted t ∧
    originalStates t' =
      (if JsMap.has k (originalStates t) then originalStates t
       else JsMap.set k (disk_original (disk w) (abs path)) (originalStates t)) ∧
    ((∃ e, r = Err e ∧ (e = CannotCreate path ∨ e = CannotOperate type path) ∧
           operationQueue t' = operationQueue t ∧
           latestContent t' = latestContent t ∧
           operationCounter t' = operationCounter t)
     ∨ (r = Ok tt ∧
        operationQueue t' = operationQueue t ++ [staged_operation t k type content] ∧
        latestContent t' =
          JsMap.set k
            (apply_operation type content (current_state resolve rootDir t (disk w) k))
            (latestContent t) ∧
        operationCounter t' = S (operationCounter t))).
Proof.
  intros k.
  destruct (addOperation_run path type content t w) as (w' & orig & R & _ & E).
  fold k in E. rewrite E.
  destruct (_ && _ && _); [|destruct (_ && _)]; do 3 eexists;
    (split; [reflexivity|]); (split; [exact R|]); (split; [reflexivity|]);
    (split; [reflexivity|]); [left | left | right]; eauto 10.
Qed.

(** [createFile] is accepted as soon as the queue holds a delete of the
    path, whatever was staged for the path after it. *)
Lemma createFile_accepted_after_delete path content t w :
  has_delete (key path) (operationQueue t) = true →
  ∃ t' w', createFile resolve relative rootDir path content t w = (Ok tt, t', w').
Proof.
  intros Hdel. unfold createFile.
  destruct (addOperation_run path create (Some content) t w)
    as (w' & orig & _ & _ & ->).
  rewrite Hdel, andb_false_r. cbn. eauto.
Qed.

(** *** What no call of the staging phase touches *)

Lemma framed_trans t w t1 w1 t2 w2 :
  framed t w t1 w1 → framed t1 w1 t2 w2 → framed t w t2 w2.
Proof.
  intros (R1 & C1 & S1) (R2 & C2 & S2).
  split_and!; [eauto using reads_only_trans | congruence | auto].
Qed.

Lemma captured_get (os : JsMap.t OriginalFileState) k v k' :
  JsMap.get k' (if JsMap.has k os then os else JsMap.set k v os)
  = if decide (k = k')
    then Some (default v (JsMap.get k os))
    else JsMap.get k' os.
Proof.
  unfold JsMap.has. destruct (JsMap.get k os) as [o|] eqn:E.
  - destruct (decide (k = k')) as [<-|]; [by rewrite E | done].
  - apply JsMapFacts.get_set.
Qed.

Lemma addOperation_framed path type content t w r t' w' :
  _addOperation resolve relative rootDir path type content t w = (r, t', w') →
  framed t w t' w'.
Proof.
  intros E. destruct (addOperation_cases path type content t w)
    as (r0 & t0 & w0 & E0 & R & Hc & Hos & _).
  rewrite E in E0. injection E0 as <- <- <-. split_and!; [done | done |].
  intros k os Hk. rewrite Hos, captured_get.
  destruct (decide _) as [<-|]; [|done]. by rewrite Hk.
Qed.

Lemma readFile_framed path t w r t' w' :
  readFile resolve relative rootDir path t w = (r, t', w') → framed t w t' w'.
Proof.
  intros E. destruct (readFile_run path t w) as (w0 & E0 & R).
  rewrite E in E0. injection E0 as _ -> <-. split_and!; [done | |].
  - destruct (JsMap.get _ _); [done|]. by destruct (disk w !! _) as [[c|]|].
  - destruct (JsMap.get _ _); [done|]. by destruct (disk w !! _) as [[c|]|].
Qed.

Lemma fileExists_framed path t w r t' w' :
  fileExists resolve relative rootDir path t w = (r, t', w') → framed t w t' w'.
Proof.
  intros E. destruct (fileExists_run path t w) as (w0 & E0 & R).
  rewrite E in E0. injection E0 as _ <- <-. by split_and!.
Qed.

Lemma run_call_framed c t w r t' w' :
  run_call resolve relative rootDir c t w = (r, t', w') → framed t w t' w'.
Proof.
  intros E. destruct c; cbn [run_call] in E;
    try by (eapply addOperation_framed; eauto).
  - unfold transformFile, bind, try_catch in E.
    destruct (readFile _ _ _ path t w) as [[r1 t1] w1] eqn:E1.
    apply readFile_framed in E1.
    assert (∃ c, _addOperation resolve relative rootDir path modify (Some c) t1 w1
                 = (r, t', w')) as [c E2].
    { destruct r1; cbn -[_addOperation] in E; eauto. }
    eapply framed_trans; [exact E1 | eapply addOperation_framed; eauto].
  - unfold overwriteFile, bind in E.
    destruct (fileExists _ _ _ path t w) as [[r1 t1] w1] eqn:E1.
    pose proof (fileExists_framed _ _ _ _ _ _ E1) as F1.
    destruct (fileExists_run path t w) as (w0 & E0 & _).
    rewrite E1 in E0. injection E0 as -> _ _.
    eapply framed_trans; [exact F1 | eapply addOperation_framed; eauto].
  - unfold discard, bind in E.
    destruct (readFile _ _ _ path t w) as [[r1 t1] w1] eqn:E1.
    assert (t' = t1 ∧ w' = w1) as [-> ->].
    { destruct r1; cbn in E; by injection E as _ <- <-. }
    eapply readFile_framed; eauto.
  - unfold discard, bind in E.
    destruct (fileExists _ _ _ path t w) as [[r1 t1] w1] eqn:E1.
    assert (t' = t1 ∧ w' = w1) as [-> ->].
    { destruct r1; cbn in E; by injection E as _ <- <-. }
    eapply fileExists_framed; eauto.
Qed.

Lemma run_calls_framed cs t w t' w' :
  run_calls resolve relative rootDir cs t w = (t', w') → framed t w t' w'.
Proof.
  revert t w. induction cs as [|c cs IH]; intros t w E; cbn in E.
  - injection E as <- <-. split_and!; auto using reads_only_refl.
  - destruct (run_call _ _ _ c t w) as [[r1 t1] w1] eqn:E1.
    eapply framed_trans; [eapply run_call_framed; eauto | eauto].
Qed.

(** What [node:path] guarantees: [resolve(from, relative(from, to))] is
    [resolve(to)]. *)
Hypothesis resolve_relative :
  ∀ p, resolve rootDir (relative rootDir (resolve rootDir p)) = resolve rootDir p.

Lemma canonical_key path : canonical resolve relative rootDir (key path).
Proof. unfold canonical. by rewrite resolve_relative. Qed.

Lemma canonical_inj k1 k2 :
  canonical resolve relative rootDir k1 → canonical resolve relative rootDir k2 →
  resolve rootDir k1 = resolve rootDir k2 → k1 = k2.
Proof. unfold canonical. congruence. Qed.

Lemma wf_fresh : wf resolve relative rootDir fresh.
Proof.
  unfold wf, fresh; cbn. split_and!; try apply NoDup_nil_2;
    by intros k ?%elem_of_nil.
Qed.

Lemma wf_set_latestContent t k st :
  canonical resolve relative rootDir k →
  wf resolve relative rootDir t →
  wf resolve relative rootDir (set_latestContent (JsMap.set k st) t).
Proof.
  intros Hk (N1 & N2 & C1 & C2). unfold wf; cbn. split_and!; auto.
  - by apply JsMapFacts.NoDup_keys_set.
  - intros k' [->|?]%JsMapFacts.keys_set_elem; auto.
Qed.

Lemma wf_captured t k os :
  canonical resolve relative rootDir k →
  wf resolve relative rootDir t →
  NoDup (JsMap.keys (if JsMap.has k (originalStates t) then originalStates t
                     else JsMap.set k os (originalStates t))) ∧
  ∀ k', k' ∈ JsMap.keys (if JsMap.has k (originalStates t) then originalStates t
                         else JsMap.set k os (originalStates t)) →
        canonical resolve relative rootDir k'.
Proof.
  intros Hk (N1 & N2 & C1 & C2). destruct (JsMap.has _ _); [done|]. split.
  - by apply JsMapFacts.NoDup_keys_set.
  - intros k' [->|?]%JsMapFacts.keys_set_elem; auto.
Qed.

Lemma addOperation_wf path type content t w r t' w' :
  _addOperation resolve relative rootDir path type content t w = (r, t', w') →
  wf resolve relative rootDir t → wf resolve relative rootDir t'.
Proof.
  intros E Hwf.
  destruct (addOperation_cases path type content t w)
    as (r0 & t0 & w0 & E0 & _ & _ & Hos & Hcases).
  rewrite E in E0. injection E0 as <- <- <-.
  destruct (wf_captured t (key path) (disk_original (disk w) (abs path))
              (canonical_key path) Hwf) as [N2' C2'].
  destruct Hwf as (N1 & N2 & C1 & C2). unfold wf. rewrite Hos.
  destruct Hcases as [(e & _ & _ & _ & -> & _)|(_ & _ & -> & _)]; split_and!; auto.
  - by apply JsMapFacts.NoDup_keys_set.
  - intros k' [->|?]%JsMapFacts.keys_set_elem; auto using canonical_key.
Qed.

Lemma readFile_wf path t w r t' w' :
  readFile resolve relative rootDir path t w = (r, t', w') →
  wf resolve relative rootDir t → wf resolve relative rootDir t'.
Proof.
  intros E Hwf. destruct (readFile_run path t w) as (w0 & E0 & _).
  rewrite E in E0. injection E0 as _ -> _.
  destruct (JsMap.get _ _); [done|]. destruct (disk w !! _) as [[c|]|]; try done.
  apply wf_set_latestContent; auto using canonical_key.
Qed.

(** *** The fold and the queue *)

Lemma operations_on_snoc k q op :
  operations_on k (q ++ [op])
  = if decide (op_path op = k) then operations_on k q ++ [op] else operations_on k q.
Proof.
  unfold operations_on. rewrite filter_app, filter_cons, filter_nil.
  destruct (decide _); [done | by rewrite app_nil_r].
Qed.

Lemma spec_fold_snoc k q op init :
  spec_fold k (q ++ [op]) init
  = if decide (op_path op = k) then spec_apply (spec_fold k q init) op
    else spec_fold k q init.
Proof.
  unfold spec_fold. rewrite operations_on_snoc.
  destruct (decide _); [by rewrite foldl_app | done].
Qed.

Lemma apply_operation_spec t k type content st :
  apply_operation type content st = spec_apply st (staged_operation t k type content).
Proof. by destruct type. Qed.

Lemma staged_on_fresh w : staged_on resolve rootDir (disk w) fresh w.
Proof.
  unfold staged_on, fresh; cbn. split_and!; try done.
  by intros op ?%elem_of_nil.
Qed.

Lemma addOperation_staged d0 path type content t w r t' w' :
  _addOperation resolve relative rootDir path type content t w = (r, t', w') →
  staged_on resolve rootDir d0 t w → staged_on resolve rootDir d0 t' w'.
Proof.
  intros E (Hd & Hfold & Hgone & Horig & Hq).
  destruct (addOperation_cases path type content t w)
    as (r0 & t0 & w0 & E0 & [Hd' _] & _ & Hos & Hcases).
  rewrite E in E0. injection E0 as <- <- <-.
  assert (∀ k os, JsMap.get k (originalStates t') = Some os →
                  os = disk_original d0 (resolve rootDir k)) as Horig'.
  { intros k os. rewrite Hos, captured_get.
    destruct (decide _) as [<-|]; [|by apply Horig].
    destruct (JsMap.get _ (originalStates t)) as [o|] eqn:Eo; cbn.
    - intros [= <-]. by apply Horig.
    - intros [= <-]. by rewrite resolve_relative, Hd. }
  assert (∀ k, is_Some (JsMap.get k (originalStates t)) →
               is_Some (JsMap.get k (originalStates t'))) as Hmono.
  { intros k Hk. rewrite Hos, captured_get.
    destruct (decide _); [eauto | done]. }
  assert (is_Some (JsMap.get (key path) (originalStates t'))) as Hnew.
  { rewrite Hos, captured_get, decide_True by done. eauto. }
  unfold staged_on.
  destruct Hcases as [(e & _ & _ & -> & -> & _)|(_ & -> & -> & _)].
  - split_and!; auto; congruence.
  - split_and!; [congruence | | | done | ].
    + intros k. rewrite JsMapFacts.get_set, spec_fold_snoc, operations_on_snoc.
      cbn [op_path staged_operation].
      destruct (decide (key path = k)) as [<-|Hne]; [|apply Hfold].
      rewrite <- (apply_operation_spec t). f_equal.
      unfold current_state. specialize (Hfold (key path)).
      destruct (JsMap.get _ (latestContent t)); [done|].
      unfold spec_fold. rewrite Hfold. cbn. by rewrite Hd.
    + intros k st. rewrite JsMapFacts.get_set, operations_on_snoc.
      cbn [op_path staged_operation].
      destruct (decide (key path = k)) as [<-|Hne]; [|apply Hgone].
      intros _ _ Hnil. by apply app_nil in Hnil as [_ ?].
    + intros op [Hop| ->%list_elem_of_singleton]%elem_of_app; auto.
Qed.

Lemma readFile_staged d0 path t w r t' w' :
  readFile resolve relative rootDir path t w = (r, t', w') →
  staged_on resolve rootDir d0 t w → staged_on resolve rootDir d0 t' w'.
Proof.
  intros E (Hd & Hfold & Hgone & Horig & Hq).
  destruct (readFile_run path t w) as (w0 & E0 & [Hd' _]).
  rewrite E in E0. injection E0 as _ -> <-.
  destruct (JsMap.get (key path) (latestContent t)) eqn:Eget;
    [by unfold staged_on; split_and!; try congruence|].
  destruct (disk w !! abs path) as [[c|]|] eqn:Edisk;
    try by (unfold staged_on; split_and!; try congruence).
  unfold staged_on;
    cbn [latestContent operationQueue originalStates set_latestContent].
  split_and!; [congruence | | | done | done].
  - intros k. rewrite JsMapFacts.get_set.
    destruct (decide (key path = k)) as [<-|Hne]; [|apply Hfold].
    specialize (Hfold (key path)). rewrite Eget in Hfold.
    unfold spec_fold. rewrite Hfold. cbn. unfold disk_state.
    by rewrite resolve_relative, <- Hd, Edisk.
  - intros k st. rewrite JsMapFacts.get_set.
    destruct (decide (key path = k)) as [<-|Hne]; [|apply Hgone].
    by intros [= <-].
Qed.

(** *** Every call of the staging phase keeps the invariants *)

Lemma addOperation_kept d0 path type content t w r t' w' :
  _addOperation resolve relative rootDir path type content t w = (r, t', w') →
  wf resolve relative rootDir t → staged_on resolve rootDir d0 t w →
  kept resolve relative rootDir d0 t w t' w'.
Proof.
  intros E Hwf Hst. unfold kept. split_and!.
  - eapply addOperation_wf; eauto.
  - eapply addOperation_staged; eauto.
  - destruct (addOperation_cases path type content t w)
      as (r0 & t0 & w0 & E0 & R & _). congruence.
  - destruct (addOperation_cases path type content t w)
      as (r0 & t0 & w0 & E0 & _ & Hc & _). congruence.
Qed.

Lemma readFile_kept d0 path t w r t' w' :
  readFile resolve relative rootDir path t w = (r, t', w') →
  wf resolve relative rootDir t → staged_on resolve rootDir d0 t w →
  kept resolve relative rootDir d0 t w t' w'.
Proof.
  intros E Hwf Hst. unfold kept. split_and!.
  - eapply readFile_wf; eauto.
  - eapply readFile_staged; eauto.
  - destruct (readFile_run path t w) as (w0 & E0 & R). congruence.
  - destruct (readFile_run path t w) as (w0 & E0 & _).
    rewrite E in E0. injection E0 as _ -> _.
    destruct (JsMap.get _ _); [done|]. by destruct (disk w !! _) as [[c|]|].
Qed.

Lemma fileExists_kept d0 path t w r t' w' :
  fileExists resolve relative rootDir path t w = (r, t', w') →
  wf resolve relative rootDir t → staged_on resolve rootDir d0 t w →
  kept resolve relative rootDir d0 t w t' w'.
Proof.
  intros E Hwf (Hd & Hst). destruct (fileExists_run path t w) as (w0 & E0 & R).
  rewrite E in E0. injection E0 as _ <- <-. unfold kept.
  split_and!; [done | | done | done].
  split; [by rewrite (proj1 R) | exact Hst].
Qed.

Lemma kept_trans d0 t w t1 w1 t2 w2 :
  kept resolve relative rootDir d0 t w t1 w1 → kept resolve relative rootDir d0 t1 w1 t2 w2 → kept resolve relative rootDir d0 t w t2 w2.
Proof.
  intros (_ & _ & R1 & C1) (? & ? & R2 & C2). unfold kept.
  split_and!; eauto using reads_only_trans; congruence.
Qed.

Lemma run_call_kept d0 c t w r t' w' :
  run_call resolve relative rootDir c t w = (r, t', w') →
  wf resolve relative rootDir t → staged_on resolve rootDir d0 t w →
  kept resolve relative rootDir d0 t w t' w'.
Proof.
  intros E Hwf Hst. destruct c; cbn [run_call] in E;
    try by (eapply addOperation_kept; eauto).
  - (* transformFile *)
    unfold transformFile, bind, try_catch in E.
    destruct (readFile _ _ _ path t w) as [[r1 t1] w1] eqn:E1.
    pose proof (readFile_kept d0 _ _ _ _ _ _ E1 Hwf Hst) as K1.
    assert (∃ c, _addOperation resolve relative rootDir path modify (Some c) t1 w1
                 = (r, t', w')) as [c E2].
    { destruct r1; cbn -[_addOperation] in E; eauto. }
    eapply kept_trans; [exact K1|].
    destruct K1 as (? & ? & _). eapply addOperation_kept; eauto.
  - (* overwriteFile *)
    unfold overwriteFile, bind in E.
    destruct (fileExists_run path t w) as (w1 & E1 & R1). rewrite E1 in E.
    pose proof (fileExists_kept d0 _ _ _ _ _ _ E1 Hwf Hst) as K1.
    eapply kept_trans; [exact K1|].
    destruct K1 as (? & ? & _). eapply addOperation_kept; eauto.
  - (* readFile *)
    unfold discard, bind in E.
    destruct (readFile _ _ _ path t w) as [[r1 t1] w1] eqn:E1.
    assert (t' = t1 ∧ w' = w1) as [-> ->].
    { destruct r1; cbn in E; by injection E as _ <- <-. }
    eapply readFile_kept; eauto.
  - (* fileExists *)
    unfold discard, bind in E.
    destruct (fileExists _ _ _ path t w) as [[r1 t1] w1] eqn:E1.
    assert (t' = t1 ∧ w' = w1) as [-> ->].
    { destruct r1; cbn in E; by injection E as _ <- <-. }
    eapply fileExists_kept; eauto.
Qed.

Lemma run_calls_kept d0 cs t w t' w' :
  run_calls resolve relative rootDir cs t w = (t', w') →
  wf resolve relative rootDir t → staged_on resolve rootDir d0 t w →
  kept resolve relative rootDir d0 t w t' w'.
Proof.
  revert t w. induction cs as [|c cs IH]; intros t w E Hwf Hst; cbn in E.
  - injection E as <- <-. unfold kept. auto using reads_only_refl.
  - destruct (run_call _ _ _ c t w) as [[r1 t1] w1] eqn:E1.
    pose proof (run_call_kept d0 _ _ _ _ _ _ E1 Hwf Hst) as K1.
    eapply kept_trans; [exact K1|].
    destruct K1 as (? & ? & _). eauto.
Qed.

(** ** The projection is the fold of the queue *)


End StagingFacts.

(** ** The path library of the examples *)

Lemma Posix_drop_string_app (r s : string) :
  Posix.drop_string (String.length r) (r +:+ s) = s.
Proof. induction r as [|c r IH]; [done | exact IH]. Qed.

Lemma Posix_resolve_relative (p : string) :
  Posix.resolve Posix.rootDir
    (Posix.relative Posix.rootDir (Posix.resolve Posix.rootDir p))
  = Posix.resolve Posix.rootDir p.
Proof.
  unfold Posix.resolve at 2 3. destruct (decide (p = "")) as [->|Hne]; [done|].
  unfold Posix.relative.
  change (S (String.length Posix.rootDir)) with (String.length (Posix.rootDir +:+ "/")).
  replace (Posix.rootDir +:+ "/" +:+ p) with ((Posix.rootDir +:+ "/") +:+ p) by done.
  rewrite Posix_drop_string_app. unfold Posix.resolve. by rewrite decide_False.
Qed.


(** ** The loops of commit and rollback *)

Section LoopFacts.
Variable resolve : string → string → string.
Variable rootDir : string.
Context {V : Type}.
Variable target : V → option string.

Local Abbreviation s_entry := (settle_entry resolve rootDir target).
Local Abbreviation s_disk := (settle_disk resolve rootDir target).
Local Abbreviation s_calls := (settle_calls resolve rootDir target).
Local Abbreviation s_paths := (settle_paths (V:=V) resolve rootDir).

(** One entry: the outcome, the disk and the log. *)
Lemma settle_entry_run kv t w :
  s_entry kv t w
  = (if settle_fails (disk w) (resolve rootDir kv.1) (target kv.2)
     then Err (FsError EISDIR (resolve rootDir kv.1)) else Ok tt,
     t,
     {| disk := settle_path (disk w) (resolve rootDir kv.1) (target kv.2);
        calls := calls w ++ [settle_call (resolve rootDir kv.1) (target kv.2)] |}).
Proof.
  unfold settle_entry, settle_path, settle_call, settle_fails.
  unfold_M. unfold log, set_disk.
  by destruct (target kv.2) as [c|]; destruct (disk w !! _) as [[c'|]|] eqn:E.
Qed.

Lemma for_each_settle_ok l t w t' w' :
  for_each l s_entry t w = (Ok tt, t', w') →
  t' = t ∧ disk w' = s_disk (disk w) l ∧ calls w' = calls w ++ s_calls l.
Proof.
  revert w. induction l as [|kv l IH]; intros w E; cbn in E.
  - injection E as <- <-. by rewrite app_nil_r.
  - unfold bind in E. rewrite settle_entry_run in E.
    destruct (settle_fails _ _ _); [done|].
    apply IH in E as (-> & -> & ->). cbn. by rewrite <- app_assoc.
Qed.

Lemma settle_path_lookup d p tg q :
  settle_path d p tg !! q = if decide (p = q) then settled tg (d !! p) else d !! q.
Proof.
  unfold settle_path, settled.
  destruct (decide (p = q)) as [<-|Hne].
  - destruct tg as [c|]; destruct (d !! p) as [[c'|]|] eqn:E;
      by rewrite ?lookup_insert_eq, ?lookup_delete_eq.
  - destruct tg as [c|]; destruct (d !! p) as [[c'|]|] eqn:E;
      by rewrite ?lookup_insert_ne, ?lookup_delete_ne.
Qed.

Lemma settle_disk_notin d l p :
  p ∉ s_paths l → s_disk d l !! p = d !! p.
Proof.
  revert d. induction l as [|kv l IH]; intros d Hp; [done|].
  cbn in Hp. apply not_elem_of_cons in Hp as [Hne Hp].
  cbn. unfold s_disk in IH. rewrite IH by done.
  rewrite settle_path_lookup. by rewrite decide_False.
Qed.

Lemma settle_disk_in d l kv :
  NoDup (s_paths l) → kv ∈ l →
  s_disk d l !! resolve rootDir kv.1
  = settled (target kv.2) (d !! resolve rootDir kv.1).
Proof.
  revert d. induction l as [|kv0 l IH]; intros d Hnd Hin.
  - by apply elem_of_nil in Hin.
  - cbn in Hnd. apply NoDup_cons in Hnd as [Hnotin Hnd].
    apply elem_of_cons in Hin as [->|Hin].
    + cbn. fold (s_disk (settle_path d (resolve rootDir kv0.1) (target kv0.2)) l).
      rewrite settle_disk_notin by done.
      by rewrite settle_path_lookup, decide_True.
    + cbn. fold (s_disk (settle_path d (resolve rootDir kv0.1) (target kv0.2)) l).
      rewrite IH by done. rewrite settle_path_lookup, decide_False; [done|].
      intros Heq. apply Hnotin. rewrite Heq.
      apply list_elem_of_fmap. by exists kv.
Qed.

Lemma Promise_all_ok rs t w :
  Forall (λ r, r = Ok tt) rs → Promise_all rs t w = (Ok tt, t, w).
Proof. induction 1 as [|r rs -> _ IH]; [done | exact IH]. Qed.

Lemma settle_fails_step d p tg q tg' :
  p ≠ q → settle_fails (settle_path d p tg) q tg' = settle_fails d q tg'.
Proof.
  intros Hne. unfold settle_fails.
  by rewrite settle_path_lookup, decide_False.
Qed.

(** A loop that returns had no rejected step. *)
Lemma for_each_settle_ok_fails l t w t' w' :
  for_each l s_entry t w = (Ok tt, t', w') →
  NoDup (s_paths l) →
  ∀ kv, kv ∈ l → settle_fails (disk w) (resolve rootDir kv.1) (target kv.2) = false.
Proof.
  revert w. induction l as [|kv0 l IH]; intros w E Hnd kv Hin.
  - by apply elem_of_nil in Hin.
  - cbn in E. unfold bind in E. rewrite settle_entry_run in E.
    destruct (settle_fails _ _ _) eqn:Hf; [done|].
    apply NoDup_cons in Hnd as [Hnotin Hnd].
    apply elem_of_cons in Hin as [->|Hin]; [done|].
    specialize (IH _ E Hnd kv Hin). cbn [disk] in IH.
    rewrite settle_fails_step in IH; [done|].
    intros Heq. apply Hnotin. rewrite Heq. apply list_elem_of_fmap. by exists kv.
Qed.

Lemma start_all_settle l t w :
  ∃ rs, start_all l s_entry t w
        = (Ok rs, t,
           {| disk := s_disk (disk w) l; calls := calls w ++ s_calls l |})
        ∧ ((∀ kv, kv ∈ l →
              settle_fails (disk w) (resolve rootDir kv.1) (target kv.2) = false) →
           NoDup (s_paths l) →
           Forall (λ r, r = Ok tt) rs).
Proof.
  revert w. induction l as [|kv l IH]; intros w.
  - exists []. cbn. rewrite app_nil_r. split; [by destruct w | by constructor].
  - cbn [start_all]. unfold bind at 1, settle. rewrite settle_entry_run.
    destruct (IH {| disk := settle_path (disk w) (resolve rootDir kv.1) (target kv.2);
                    calls := calls w ++ [settle_call (resolve rootDir kv.1) (target kv.2)] |})
      as (rs & E & Hrs).
    eexists (_ :: rs). unfold bind. rewrite E. cbn. rewrite <- app_assoc.
    split; [done|]. intros Hdir Hnd.
    apply NoDup_cons in Hnd as [Hnotin Hnd]. constructor.
    + rewrite Hdir; [done | left].
    + apply Hrs; [|done]. intros kv' Hin. cbn [disk]. rewrite settle_fails_step.
      * apply Hdir. by right.
      * intros Heq. apply Hnotin. rewrite Heq.
        apply list_elem_of_fmap. by exists kv'.
Qed.


Lemma elem_of_settle_calls l c :
  c ∈ s_calls l → is_write c = true ∧ call_path c ∈ s_paths l.
Proof.
  unfold settle_calls, settle_paths. intros (kv & -> & Hin)%list_elem_of_fmap.
  split.
  - unfold settle_call. by destruct (target kv.2).
  - apply list_elem_of_fmap. exists kv. split; [|done].
    unfold settle_call. by destruct (target kv.2).
Qed.

End LoopFacts.

(** ** Commit and rollback, run *)

Lemma for_each_ext {A} (l : list A) (f g : A → M unit) t w :
  (∀ x t w, f x t w = g x t w) → for_each l f t w = for_each l g t w.
Proof.
  intros Hfg. revert t w. induction l as [|x l IH]; intros t w; [done|].
  cbn. unfold bind. rewrite Hfg. destruct (g x t w) as [[[[]|e] t1] w1]; auto.
Qed.

Lemma start_all_ext {A} (l : list A) (f g : A → M unit) t w :
  (∀ x t w, f x t w = g x t w) → start_all l f t w = start_all l g t w.
Proof.
  intros Hfg. revert t w. induction l as [|x l IH]; intros t w; [done|].
  cbn. unfold bind, settle. rewrite Hfg. destruct (g x t w) as [[r1 t1] w1].
  by rewrite IH.
Qed.

Lemma mkdir_only_refl d : mkdir_only d d.
Proof. intros p. by left. Qed.

Lemma mkdir_only_trans d1 d2 d3 :
  mkdir_only d1 d2 → mkdir_only d2 d3 → mkdir_only d1 d3.
Proof.
  intros H12 H23 p. destruct (H12 p) as [E12|[E1 E2]], (H23 p) as [E23|[E2' E3]].
  - left. congruence.
  - right. split; congruence.
  - right. split; congruence.
  - congruence.
Qed.

Lemma for_each_mkdir dirs t w :
  ∃ r w', for_each dirs fs_mkdir t w = (r, t, w') ∧
    mkdir_only (disk w) (disk w') ∧
    ∃ cs, calls w' = calls w ++ cs ∧ Forall (λ c, ∃ p, c = CallMkdir p) cs.
Proof.
  revert w. induction dirs as [|dir dirs IH]; intros w.
  - exists (Ok tt), w. split_and!; [done | apply mkdir_only_refl |].
    exists []. by rewrite app_nil_r.
  - cbn [for_each]. unfold bind, fs_mkdir at 1.
    destruct (disk w !! dir) as [[c|]|] eqn:E.
    + do 2 eexists. split_and!; [done | apply mkdir_only_refl |].
      exists [CallMkdir dir]. split; [done|]. constructor; eauto.
    + destruct (IH (log (CallMkdir dir) w)) as (r & w' & -> & Hm & cs & Hc & Hf).
      exists r, w'. split_and!; [done | exact Hm |].
      exists (CallMkdir dir :: cs). rewrite Hc. cbn. rewrite <- app_assoc.
      split; [done|]. constructor; eauto.
    + destruct (IH (set_disk (<[dir:=Dir]> (disk w)) (log (CallMkdir dir) w)))
        as (r & w' & -> & Hm & cs & Hc & Hf).
      exists r, w'. split_and!; [done | |].
      * eapply mkdir_only_trans; [|exact Hm]. intros p. cbn.
        destruct (decide (dir = p)) as [<-|Hne].
        -- right. by rewrite lookup_insert_eq.
        -- left. by rewrite lookup_insert_ne.
      * exists (CallMkdir dir :: cs). rewrite Hc. cbn. rewrite <- app_assoc.
        split; [done|]. constructor; eauto.
Qed.

Lemma calls_since_app w w' cs :
  calls w' = calls w ++ cs → calls_since w w' = cs.
Proof. unfold calls_since. intros ->. by rewrite drop_app_length. Qed.

Lemma calls_since_refl w : calls_since w w = [].
Proof. apply calls_since_app. by rewrite app_nil_r. Qed.

Section CommitFacts.
Variable resolve : string → string → string.
Variable relative : string → string → string.
Variable dirname : string → string.
Variable rootDir : string.

Lemma NoDup_settle_paths {V} (m : JsMap.t V) :
  NoDup (JsMap.keys m) →
  (∀ k, k ∈ JsMap.keys m → canonical resolve relative rootDir k) →
  NoDup (settle_paths resolve rootDir (JsMap.entries m)).
Proof.
  intros Hnd Hcan. unfold settle_paths, JsMap.entries.
  replace ((λ kv : string * V, resolve rootDir kv.1) <$> m)
    with (resolve rootDir <$> JsMap.keys m)
    by (unfold JsMap.keys; by rewrite <- list_fmap_compose).
  apply NoDup_fmap_2_strong; [|done].
  intros k1 k2 H1 H2. unfold canonical in Hcan.
  rewrite <- (Hcan k1 H1), <- (Hcan k2 H2) at 2. by intros ->.
Qed.

Lemma elem_of_settle_paths {V} (m : JsMap.t V) p :
  p ∈ settle_paths resolve rootDir (JsMap.entries m)
  ↔ ∃ k, k ∈ JsMap.keys m ∧ p = resolve rootDir k.
Proof.
  unfold settle_paths, JsMap.entries, JsMap.keys.
  rewrite list_elem_of_fmap. split.
  - intros ([k v] & -> & Hin). exists k. split; [|done].
    apply list_elem_of_fmap. by exists (k, v).
  - intros (k & ([k' v] & -> & Hin)%list_elem_of_fmap & ->). by exists (k', v).
Qed.

Lemma commit_committed t w :
  isCommitted t = true →
  commit resolve dirname rootDir t w = (Err AlreadyCommitted, t, w).
Proof. intros H. unfold commit, bind, this. by rewrite H. Qed.

(** A commit that returns: the directories, then the entries of the
    projection one after the other. *)
Lemma commit_ok t w t' w' :
  commit resolve dirname rootDir t w = (Ok tt, t', w') →
  isCommitted t = false ∧ t' = set_isCommitted true t ∧
  ∃ w1, mkdir_only (disk w) (disk w1) ∧
    (∃ cs, calls w1 = calls w ++ cs ∧ Forall (λ c, ∃ p, c = CallMkdir p) cs) ∧
    disk w' = settle_disk resolve rootDir commit_target (disk w1)
                (JsMap.entries (latestContent t)) ∧
    calls w' = calls w1 ++ settle_calls resolve rootDir commit_target
                (JsMap.entries (latestContent t)) ∧
    (NoDup (settle_paths resolve rootDir (JsMap.entries (latestContent t))) →
     ∀ kv, kv ∈ JsMap.entries (latestContent t) →
       settle_fails (disk w1) (resolve rootDir kv.1) (commit_target kv.2) = false).
Proof.
  unfold commit. unfold bind at 1, this at 1.
  destruct (isCommitted t) eqn:Hc; [done|]. intros E. split; [done|].
  unfold try_catch in E. unfold bind at 1 in E.
  destruct (for_each_mkdir (JsSet.of_list (map dirname (JsSet.of_list
              (map (λ op, resolve rootDir (op_path op)) (operationQueue t))))) t w)
    as (r & w1 & E1 & Hm & Hcs).
  rewrite E1 in E. destruct r as [[]|e]; [|done].
  unfold bind at 1 in E.
  erewrite for_each_ext in E; cycle 1.
  { intros [k st] t0 w0.
    instantiate (1 := settle_entry resolve rootDir commit_target).
    unfold settle_entry, commit_target. cbn. by destruct (cs_exists st). }
  destruct (for_each _ _ t w1) as [[[[]|e] t2] w2] eqn:E2; [|done].
  pose proof (for_each_settle_ok_fails _ _ _ _ _ _ _ _ E2) as Hfails.
  apply for_each_settle_ok in E2 as (-> & Hd & Hcalls).
  unfold update in E. injection E as <- <-. split; [done|].
  exists w1. done.
Qed.

Lemma rollback_uncommitted t w :
  isCommitted t = false →
  rollback resolve rootDir t w
  = (Ok tt, set_latestContent (λ _, JsMap.empty) (set_operationQueue (λ _, []) t), w).
Proof. intros H. unfold rollback, bind, this. by rewrite H. Qed.

(** A rollback after a commit: every promise is started, in the order of
    the store; the state is reset when none was rejected. *)
Lemma rollback_committed t w :
  isCommitted t = true →
  let w' := {| disk := settle_disk resolve rootDir restore_target (disk w)
                         (JsMap.entries (originalStates t));
               calls := calls w ++ settle_calls resolve rootDir restore_target
                         (JsMap.entries (originalStates t)) |} in
  (rollback resolve rootDir t w = (Ok tt, fresh, w')
   ∨ ∃ e, rollback resolve rootDir t w = (Err e, t, w')) ∧
  ((∀ kv, kv ∈ JsMap.entries (originalStates t) →
          settle_fails (disk w) (resolve rootDir kv.1) (restore_target kv.2) = false) →
   NoDup (settle_paths resolve rootDir (JsMap.entries (originalStates t))) →
   rollback resolve rootDir t w = (Ok tt, fresh, w')).
Proof.
  intros Hc w'.
  assert (∀ t0 w0,
    start_all (JsMap.entries (originalStates t))
      (λ '(relativePath, originalState),
         let absolutePath := resolve rootDir relativePath in
         if os_existed originalState
         then fs_writeFile absolutePath (or_empty (os_content originalState))
         else try_catch (fs_unlink absolutePath) (λ _, ret tt)) t0 w0
    = start_all (JsMap.entries (originalStates t))
        (settle_entry resolve rootDir restore_target) t0 w0) as Hext.
  { intros t0 w0. apply start_all_ext. intros [k os] t1 w1.
    unfold settle_entry, restore_target. cbn. by destruct (os_existed os). }
  destruct (start_all_settle resolve rootDir restore_target
              (JsMap.entries (originalStates t)) t w) as (rs & Estart & Hrs).
  fold w' in Estart. rewrite <- Hext in Estart.
  assert (rollback resolve rootDir t w
          = (Promise_all rs;;
             update (set_operationQueue (λ _, []));;
             update (set_latestContent (λ _, JsMap.empty));;
             update (set_originalStates (λ _, JsMap.empty));;
             update (set_isCommitted false);;
             update (set_operationCounter 0)) t w') as ->.
  { unfold rollback. erewrite run_bind_ok by reflexivity. rewrite Hc.
    unfold _restoreOriginalState. erewrite run_bind_ok by reflexivity.
    erewrite run_bind_ok by exact Estart. reflexivity. }
  split.
  - assert (∀ rs, Promise_all rs t w' = (Ok tt, t, w')
                  ∨ ∃ e, Promise_all rs t w' = (Err e, t, w')) as Hp.
    { clear. induction rs as [|[[]|e] rs IH]; cbn; eauto. }
    destruct (Hp rs) as [E|[e E]]; [left | right; exists e].
    + by erewrite run_bind_ok by exact E.
    + by erewrite run_bind_err by exact E.
  - intros Hdir Hnd.
    erewrite run_bind_ok by (apply Promise_all_ok; auto). reflexivity.
Qed.

(** What a commit that returned left at the path of an entry: [n] is what
    the path held when the directories had been created. *)
Lemma commit_ok_entry t w t' w' k st :
  wf resolve relative rootDir t →
  commit resolve dirname rootDir t w = (Ok tt, t', w') →
  JsMap.get k (latestContent t) = Some st →
  ∃ n, (n = disk w !! resolve rootDir k
        ∨ (disk w !! resolve rootDir k = None ∧ n = Some Dir))
       ∧ (cs_exists st = true → n ≠ Some Dir)
       ∧ disk w' !! resolve rootDir k = settled (commit_target st) n.
Proof.
  intros (N1 & _ & C1 & _) E Hget.
  apply commit_ok in E as (_ & _ & w1 & Hm & _ & Hd & _ & Hfails).
  pose proof (NoDup_settle_paths _ N1 C1) as Hnd.
  apply JsMapFacts.get_Some_elem in Hget.
  specialize (Hfails Hnd _ Hget). cbn [fst snd] in Hfails.
  exists (disk w1 !! resolve rootDir k). split_and!.
  - destruct (Hm (resolve rootDir k)) as [->|[-> ->]]; auto.
  - intros Hex Hdir. unfold settle_fails, commit_target in Hfails.
    by rewrite Hex, Hdir in Hfails.
  - rewrite Hd. by rewrite (settle_disk_in resolve rootDir commit_target _ _ (k, st)).
Qed.

(** A commit that returned has made the call of every entry. *)
Lemma commit_ok_call t w t' w' k st :
  commit resolve dirname rootDir t w = (Ok tt, t', w') →
  JsMap.get k (latestContent t) = Some st →
  settle_call (resolve rootDir k) (commit_target st) ∈ calls_since w w'.
Proof.
  intros E Hget.
  apply commit_ok in E as (_ & _ & w1 & _ & (cs' & Hcs' & _) & _ & Hcalls & _).
  erewrite calls_since_app; cycle 1.
  { rewrite Hcalls, Hcs', <- app_assoc. reflexivity. }
  apply elem_of_app. right. apply JsMapFacts.get_Some_elem in Hget.
  unfold settle_calls. apply list_elem_of_fmap. by exists (k, st).
Qed.

(** ** Commit *)


(** C5.  Commit runs at most once.  After a commit that returned, a second
    call of [commit] throws "Transaction has already been committed" and
    makes no call of the file system at all: the disk and the log are
    those that the first commit left.  The same holds when calls of the
    staging phase are made in between: they make no write, and the next
    [commit] throws in the same way. *)
Theorem commit_once t w t1 w1 :
  commit resolve dirname rootDir t w = (Ok tt, t1, w1) →
  commit resolve dirname rootDir t1 w1 = (Err AlreadyCommitted, t1, w1) ∧
  ∀ cs t2 w2,
    run_calls resolve relative rootDir cs t1 w1 = (t2, w2) →
    disk w2 = disk w1 ∧
    commit resolve dirname rootDir t2 w2 = (Err AlreadyCommitted, t2, w2).
Proof.
  intros E. apply commit_ok in E as (_ & -> & _). split.
  - by apply commit_committed.
  - intros cs t2 w2 E2. apply run_calls_framed in E2 as ([Hd _] & Hc & _).
    split; [done|]. apply commit_committed. by rewrite Hc.
Qed.

(** What [node:path] guarantees: [resolve(from, relative(from, to))] is
    [resolve(to)]. *)
Hypothesis resolve_relative :
  ∀ p, resolve rootDir (relative rootDir (resolve rootDir p)) = resolve rootDir p.

(** A transaction that was staged on a fresh object. *)
Lemma staged_from_fresh w0 cs t w :
  run_calls resolve relative rootDir cs fresh w0 = (t, w) →
  wf resolve relative rootDir t ∧ staged_on resolve rootDir (disk w0) t w ∧
  isCommitted t = false.
Proof.
  intros E.
  destruct (run_calls_kept resolve relative rootDir resolve_relative
              (disk w0) cs fresh w0 t w E (wf_fresh resolve relative rootDir)
              (staged_on_fresh resolve rootDir w0)) as (? & ? & _ & ?).
  done.
Qed.

(** ** Rollback before the commit *)

(** C7.  Pre-commit rollback is pure discard.  On a transaction that is
    not committed, [rollback] returns (it does not throw), leaves an empty
    queue and an empty projection, keeps the other fields, and makes no
    call of the file system: the disk and the log of calls are unchanged.
    On a transaction whose queue and projection are empty it changes
    nothing at all; and on a transaction with zero staged operations
    (whatever was read or rejected before) every [readFile] and every
    [fileExists] answers after the rollback what it answered before. *)
Theorem rollback_before_commit t w :
  isCommitted t = false →
  ∃ t', rollback resolve rootDir t w = (Ok tt, t', w) ∧
    operationQueue t' = [] ∧ latestContent t' = JsMap.empty ∧
    originalStates t' = originalStates t ∧
    operationCounter t' = operationCounter t ∧ isCommitted t' = false ∧
    (operationQueue t = [] → latestContent t = JsMap.empty → t' = t) ∧
    (∀ w0 cs,
       run_calls resolve relative rootDir cs fresh w0 = (t, w) →
       operationQueue t = [] →
       ∀ path,
         (readFile resolve relative rootDir path t' w).1.1
         = (readFile resolve relative rootDir path t w).1.1 ∧
         (fileExists resolve relative rootDir path t' w).1.1
         = (fileExists resolve relative rootDir path t w).1.1).
Proof.
  intros Hc. eexists. split; [by apply rollback_uncommitted|].
  split_and!; try done.
  - intros Hq Hl. destruct t; cbn in *. by subst.
  - intros w0 cs E Hq path.
    apply staged_from_fresh in E as (_ & (Hd & Hfold & Hgone & _) & _).
    specialize (Hfold (relative rootDir (resolve rootDir path))).
    specialize (Hgone (relative rootDir (resolve rootDir path))).
    rewrite resolve_relative, Hq in Hfold. rewrite Hq in Hgone.
    split.
    + destruct (readFile_run resolve relative rootDir path t w) as (w1 & -> & _).
      destruct (readFile_run resolve relative rootDir path
                  (set_latestContent (λ _, JsMap.empty)
                     (set_operationQueue (λ _, []) t)) w) as (w2 & -> & _).
      cbn. destruct (JsMap.get _ _) as [st|]; [|done].
      rewrite Hfold. unfold spec_fold. cbn. by rewrite Hd.
    + destruct (fileExists_run resolve relative rootDir path t w) as (w1 & -> & _).
      destruct (fileExists_run resolve relative rootDir path
                  (set_latestContent (λ _, JsMap.empty)
                     (set_operationQueue (λ _, []) t)) w) as (w2 & -> & _).
      cbn. unfold current_exists. cbn.
      destruct (JsMap.get _ _) as [st|]; [|done].
      specialize (Hgone st eq_refl). destruct (cs_exists st) eqn:Hex.
      * rewrite Hfold in Hex. unfold spec_fold in Hex. cbn in Hex.
        unfold disk_state in Hex. unfold disk_exists. rewrite Hd.
        by destruct (disk w0 !! _) as [[c|]|].
      * by destruct Hgone.
Qed.

(** ** Reading and the commit *)

(** C9.  Reading pollutes the commit set.  In a transaction staged on a
    fresh object, take a path for which no operation was staged and which
    is a regular file on the disk.  [readFile] returns the content of the
    file and the path is then in the projection, with that content and no
    queued operation; and a commit that returns after that has called
    [writeFile] on the path with the content that was read, which the disk
    holds afterwards. *)
Theorem read_file_is_committed w0 cs t w path c :
  run_calls resolve relative rootDir cs fresh w0 = (t, w) →
  operations_on (relative rootDir (resolve rootDir path)) (operationQueue t) = [] →
  disk w0 !! resolve rootDir path = Some (File c) →
  ∃ t1 w1,
    readFile resolve relative rootDir path t w = (Ok c, t1, w1) ∧
    JsMap.get (relative rootDir (resolve rootDir path)) (latestContent t1)
    = Some {| cs_content := c; cs_exists := true |} ∧
    (JsMap.get (relative rootDir (resolve rootDir path)) (latestContent t) = None →
     latestContent t1
     = JsMap.set (relative rootDir (resolve rootDir path))
         {| cs_content := c; cs_exists := true |} (latestContent t)) ∧
    operationQueue t1 = operationQueue t ∧
    ∀ t2 w2,
      commit resolve dirname rootDir t1 w1 = (Ok tt, t2, w2) →
      (∀ k st, JsMap.get k (latestContent t1) = Some st → cs_exists st = true →
         CallWriteFile (resolve rootDir k) (cs_content st) ∈ calls_since w1 w2) ∧
      CallWriteFile (resolve rootDir path) c ∈ calls_since w1 w2 ∧
      disk w2 !! resolve rootDir path = Some (File c).
Proof.
  intros E Hops Hfile.
  apply staged_from_fresh in E as (Hwf & (Hd & Hfold & _) & _).
  destruct (readFile resolve relative rootDir path t w) as [[r t1] w1] eqn:Eread.
  pose proof (readFile_wf resolve relative rootDir resolve_relative _ _ _ _ _ _
                Eread Hwf) as Hwf1.
  destruct (readFile_run resolve relative rootDir path t w) as (w1' & E1 & _).
  rewrite Eread in E1. injection E1 as Er Et Ew.
  specialize (Hfold (relative rootDir (resolve rootDir path))).
  unfold spec_fold in Hfold. rewrite Hops, resolve_relative in Hfold. cbn in Hfold.
  unfold disk_state in Hfold, Er. rewrite <- Hd in Hfile.
  rewrite <- Hd, Hfile in Hfold. rewrite Hfile in Er, Et.
  set (k := relative rootDir (resolve rootDir path)) in *.
  assert (r = Ok c ∧
          JsMap.get k (latestContent t1) = Some {| cs_content := c; cs_exists := true |} ∧
          (JsMap.get k (latestContent t) = None →
           latestContent t1
           = JsMap.set k {| cs_content := c; cs_exists := true |} (latestContent t)) ∧
          operationQueue t1 = operationQueue t) as (-> & Hget & Hnone & Hq).
  { destruct (JsMap.get k (latestContent t)) as [st|] eqn:Eget; subst r t1.
    - subst st. by rewrite Eget.
    - cbn. by rewrite JsMapFacts.get_set_eq. }
  clear Er Et. exists t1, w1. split_and!; try done.
  intros t2 w2 Ecommit. split_and!.
  - intros k' st Hk' Hex.
    pose proof (commit_ok_call _ _ _ _ _ _ Ecommit Hk') as Hcall.
    unfold commit_target in Hcall. by rewrite Hex in Hcall.
  - pose proof (commit_ok_call _ _ _ _ _ _ Ecommit Hget) as Hcall.
    subst k. by rewrite resolve_relative in Hcall.
  - destruct (commit_ok_entry _ _ _ _ _ _ Hwf1 Ecommit Hget) as (n & _ & Hf & Hn).
    subst k. rewrite resolve_relative in Hn. rewrite Hn.
    specialize (Hf eq_refl). unfold commit_target. cbn.
    by destruct n as [[c'|]|].
Qed.

(** ** Rollback after the commit *)


(** ** The capture and the validation *)

(** A staging method that throws is [_addOperation] that throws, run on
    the same queue, projection, store and disk. *)
Lemma run_call_rejected c path t w e t' w' :
  staged_path c = Some path →
  run_call resolve relative rootDir c t w = (Err e, t', w') →
  ∃ type content t0 w0,
    _addOperation resolve relative rootDir path type content t0 w0 = (Err e, t', w') ∧
    latestContent t0 = latestContent t ∧ operationQueue t0 = operationQueue t ∧
    originalStates t0 = originalStates t ∧ disk w0 = disk w.
Proof.
  intros Hp E. destruct c; cbn in Hp; try discriminate; injection Hp as ->;
    cbn [run_call] in E;
    unfold createFile, modifyFile, appendToFile, prependToFile, deleteFile in E;
    try by (do 4 eexists; split; [exact E | done]).
  - (* transformFile *)
    unfold transformFile, bind, try_catch in E.
    destruct (readFile_run resolve relative rootDir path t w) as (w1 & E1 & [Hd _]).
    rewrite E1 in E.
    set (k := relative rootDir (resolve rootDir path)) in *.
    set (t1 := match JsMap.get k (latestContent t), disk w !! resolve rootDir path with
               | None, Some (File c) =>
                   set_latestContent
                     (JsMap.set k {| cs_content := c; cs_exists := true |}) t
               | _, _ => t
               end) in *.
    assert (∃ c, _addOperation resolve relative rootDir path modify (Some c) t1 w1
                 = (Err e, t', w')) as [c E2].
    { destruct (match JsMap.get k (latestContent t) with
                | Some cached => spec_read path cached
                | None => spec_read path (disk_state (disk w) (resolve rootDir path))
                end); cbn -[_addOperation] in E; eauto. }
    exists modify, (Some c), t1, w1. split; [exact E2|]. split_and!; try done.
    + subst t1. destruct (JsMap.get k (latestContent t)) as [st|] eqn:Eget; [done|].
      destruct (disk w !! resolve rootDir path) as [[c0|]|] eqn:Edisk; try done.
      exfalso.
      destruct (addOperation_run resolve relative rootDir path modify (Some c)
                  (set_latestContent
                     (JsMap.set k {| cs_content := c0; cs_exists := true |}) t) w1)
        as (w2 & orig & _ & _ & E3).
      rewrite E2 in E3. unfold current_exists in E3.
      cbn [latestContent set_latestContent] in E3.
      fold k in E3. rewrite JsMapFacts.get_set_eq in E3. cbn in E3. discriminate.
    + subst t1. destruct (JsMap.get k (latestContent t)); [done|].
      by destruct (disk w !! resolve rootDir path) as [[c0|]|].
    + subst t1. destruct (JsMap.get k (latestContent t)); [done|].
      by destruct (disk w !! resolve rootDir path) as [[c0|]|].
  - (* overwriteFile *)
    unfold overwriteFile, bind in E.
    destruct (fileExists_run resolve relative rootDir path t w) as (w1 & E1 & [Hd _]).
    rewrite E1 in E. do 4 eexists. split; [exact E | done].
Qed.

(** C10, as amended.  A staging method captures the original state of the
    path before it validates.  When the call is rejected (the file already
    exists, or it does not exist), the queue, the projection and the disk
    are as before and the store of original states has an entry for the
    path: the entry it had, or else what the disk holds.  From then on,
    whatever is staged, the path is reported by [getTrackedFiles()], and a
    rollback after a commit restores it: [writeFile] is called on it with
    the captured content when it existed, [unlink] when it did not. *)
Theorem capture_precedes_validation c path t w e t' w' :
  staged_path c = Some path →
  run_call resolve relative rootDir c t w = (Err e, t', w') →
  let k := relative rootDir (resolve rootDir path) in
  let captured :=
    default (disk_original (disk w) (resolve rootDir path))
      (JsMap.get k (originalStates t)) in
  (e = CannotCreate path ∨ ∃ type, e = CannotOperate type path) ∧
  operationQueue t' = operationQueue t ∧ latestContent t' = latestContent t ∧
  disk w' = disk w ∧
  JsMap.get k (originalStates t') = Some captured ∧
  k ∈ getTrackedFiles t' ∧
  ∀ cs t2 w2,
    run_calls resolve relative rootDir cs t' w' = (t2, w2) →
    k ∈ getTrackedFiles t2 ∧
    ∀ t3 w3,
      commit resolve dirname rootDir t2 w2 = (Ok tt, t3, w3) →
      let w4 := (rollback resolve rootDir t3 w3).2 in
      (os_existed captured = true →
         CallWriteFile (resolve rootDir path) (or_empty (os_content captured))
           ∈ calls_since w3 w4) ∧
      (os_existed captured = false →
         CallUnlink (resolve rootDir path) ∈ calls_since w3 w4).
Proof.
  intros Hp E k captured.
  destruct (run_call_rejected _ _ _ _ _ _ _ Hp E)
    as (type & content & t0 & w0 & E0 & Hl0 & Hq0 & Ho0 & Hd0).
  destruct (addOperation_cases resolve relative rootDir path type content t0 w0)
    as (r1 & t1 & w1 & E1 & [Hd1 _] & _ & Hos & Hcases).
  rewrite E0 in E1. injection E1 as <- <- <-. fold k in Hos.
  destruct Hcases as [(e' & [= <-] & He & Hq & Hl & _)|[? _]]; [|done].
  assert (JsMap.get k (originalStates t') = Some captured) as Hget.
  { rewrite Hos, captured_get, decide_True by done. subst captured.
    by rewrite Ho0, Hd0. }
  split_and!; try congruence.
  - destruct He; eauto.
  - apply JsMapFacts.get_is_Some_keys. eauto.
  - intros cs t2 w2 E2. apply run_calls_framed in E2 as (_ & _ & Hmono).
    apply Hmono in Hget. split; [apply JsMapFacts.get_is_Some_keys; eauto|].
    intros t3 w3 Ecommit w4.
    apply commit_ok in Ecommit as (_ & -> & _).
    assert (calls_since w3 w4
            = settle_calls resolve rootDir restore_target
                (JsMap.entries (originalStates t2))) as ->.
    { apply calls_since_app. subst w4.
      by destruct (rollback_committed (set_isCommitted true t2) w3 eq_refl)
        as ([->|[e0 ->]] & _). }
    assert (settle_call (resolve rootDir path) (restore_target captured)
              ∈ settle_calls resolve rootDir restore_target
                  (JsMap.entries (originalStates t2))) as Hcall.
    { apply JsMapFacts.get_Some_elem in Hget. unfold settle_calls.
      apply list_elem_of_fmap. exists (k, captured). split; [|done].
      cbn. subst k. by rewrite resolve_relative. }
    unfold restore_target in Hcall. by destruct (os_existed captured).
Qed.

End CommitFacts.

(** ** Checkpoints *)

(** C6.  Checkpoint round trip.  [createCheckpoint] changes nothing and
    returns the snapshot of the queue, the store, the projection and the
    counter.  Restored at once, it leaves [preview()] as it was (and every
    field but [isCommitted], which is false).  Restored later, on whatever
    the live transaction has become, it puts the queue, the projection, the
    counter and the store of the snapshot in place and sets [isCommitted]
    to false, without a call of the file system. *)
Theorem checkpoint_round_trip t w :
  ∃ cp, createCheckpoint t w = (Ok cp, t, w) ∧
    savedOperations cp = operationQueue t ∧
    savedLatestContent cp = latestContent t ∧
    savedOriginalStates cp = originalStates t ∧
    savedCounter cp = operationCounter t ∧
    (∃ t', restore cp t w = (Ok tt, t', w) ∧
           (preview t' w).1.1 = (preview t w).1.1 ∧
           t' = set_isCommitted false t) ∧
    (∀ live w',
       restore cp live w'
       = (Ok tt,
          {| operationQueue := savedOperations cp;
             originalStates := savedOriginalStates cp;
             latestContent := savedLatestContent cp;
             isCommitted := false;
             operationCounter := savedCounter cp |}, w')).
Proof.
  exists (new_VirtualFileTreeCheckpoint t). split_and!; try reflexivity.
  exists (set_isCommitted false t). split_and!; reflexivity.
Qed.

(** ** The export *)

Section ExportFacts.
Variable resolve : string → string → string.
Variable relative : string → string → string.
Variable rootDir : string.

(** C8, as amended.  [toFsUpdates()] has an entry for every path of the
    projection that exists, and for no other: the entry of a path that
    exists holds the resolved path, the bytes of the projected content and
    the kind [modify], whatever operation was staged; a path of the
    projection that does not exist has no entry; every entry comes from a
    path of the projection that exists; no path has two entries. *)
Theorem toFsUpdates_exports_existing t :
  wf resolve relative rootDir t →
  (∀ k st, JsMap.get k (latestContent t) = Some st → cs_exists st = true →
     {| fu_path := resolve rootDir k;
        fu_content := String.list_byte_of_string (cs_content st);
        fu_type := update_modify |} ∈ toFsUpdates resolve rootDir t) ∧
  (∀ k st, JsMap.get k (latestContent t) = Some st → cs_exists st = false →
     ∀ u, u ∈ toFsUpdates resolve rootDir t → fu_path u ≠ resolve rootDir k) ∧
  (∀ u, u ∈ toFsUpdates resolve rootDir t →
     fu_type u = update_modify ∧
     ∃ k st, JsMap.get k (latestContent t) = Some st ∧ cs_exists st = true ∧
             fu_path u = resolve rootDir k ∧
             fu_content u = String.list_byte_of_string (cs_content st)) ∧
  NoDup (fu_path <$> toFsUpdates resolve rootDir t).
Proof.
  intros (N1 & _ & C1 & _).
  assert (∀ u, u ∈ toFsUpdates resolve rootDir t →
     fu_type u = update_modify ∧
     ∃ k st, JsMap.get k (latestContent t) = Some st ∧ cs_exists st = true ∧
             fu_path u = resolve rootDir k ∧
             fu_content u = String.list_byte_of_string (cs_content st)) as Hfrom.
  { intros u. unfold toFsUpdates.
    intros ([k st] & -> & [Hex Hin]%list_elem_of_filter)%list_elem_of_fmap.
    split; [done|]. exists k, st. split_and!; try done.
    by apply JsMapFacts.elem_get. }
  split_and!; [| | exact Hfrom |].
  - intros k st Hget Hex. unfold toFsUpdates. apply list_elem_of_fmap.
    exists (k, st). split; [done|]. apply list_elem_of_filter. split; [done|].
    by apply JsMapFacts.get_Some_elem.
  - intros k st Hget Hex u Hu Hpath.
    destruct (Hfrom u Hu) as (_ & k' & st' & Hget' & Hex' & Hp' & _).
    assert (k' = k) as ->.
    { apply (canonical_inj resolve relative rootDir).
      - apply C1, JsMapFacts.get_is_Some_keys. eauto.
      - apply C1, JsMapFacts.get_is_Some_keys. eauto.
      - congruence. }
    congruence.
  - unfold toFsUpdates. rewrite <- list_fmap_compose.
    pose proof (NoDup_settle_paths resolve relative rootDir _ N1 C1) as Hnd.
    unfold settle_paths, JsMap.entries in *.
    revert Hnd. generalize (latestContent t). clear. intros l.
    induction l as [|[k st] l IH]; [constructor|].
    rewrite fmap_cons, filter_cons. intros [Hnotin Hnd]%NoDup_cons.
    destruct (decide _); [|auto].
    rewrite fmap_cons. apply NoDup_cons. split; [|auto].
    cbn. intros ([k' st'] & Heq & [_ Hin]%list_elem_of_filter)%list_elem_of_fmap.
    apply Hnotin. apply list_elem_of_fmap. exists (k', st'). by split.
Qed.

End ExportFacts.

(** ** Examples on the path library *)

Lemma Posix_staging_wf cs w0 :
  wf Posix.resolve Posix.relative Posix.rootDir (Posix.run_calls cs fresh w0).1.
Proof.
  destruct (Posix.run_calls cs fresh w0) as [t w] eqn:E.
  apply (run_calls_kept Posix.resolve Posix.relative Posix.rootDir
           Posix_resolve_relative (disk w0) cs fresh w0 t w E).
  - apply wf_fresh.
  - apply staged_on_fresh.
Qed.



(** A test of the repository: a file is created, the transaction is
    committed, and the second commit throws. *)
Lemma commit_once_witness :
  let s := Posix.run_calls [CreateFile "test.txt" "content"] fresh (Posix.start ∅) in
  let c := Posix.commit s.1 s.2 in
  Posix.commit s.1 s.2 = (Ok tt, c.1.2, c.2)
  ∧ Posix.commit c.1.2 c.2 = (Err AlreadyCommitted, c.1.2, c.2).
Proof.
  intros s c.
  assert (Posix.commit s.1 s.2 = (Ok tt, c.1.2, c.2)) as E
    by (vm_compute; reflexivity).
  split; [exact E|].
  exact (proj1 (commit_once Posix.resolve Posix.relative Posix.dirname
                  Posix.rootDir s.1 s.2 c.1.2 c.2 E)).
Defined.



(** C4, the failing input.  The file [p] exists; [deleteFile('p')] and
    [createFile('p', 'a')] are staged.  The path now exists in the
    projection and its most recent queued operation is a create, yet
    [createFile('p', 'b')] is accepted, an earlier delete being in the
    queue: it is staged, and [readFile('p')] returns ['b']. *)
Lemma create_twice_after_delete_accepted :
  let w0 := Posix.start {["/r/p" := File "o"]} in
  let s := Posix.run_calls [DeleteFile "p"; CreateFile "p" "a"] fresh w0 in
  let r := Posix.createFile "p" "b" s.1 s.2 in
  (Posix.fileExists "p" s.1 s.2).1.1 = Ok true
  ∧ op_type <$> last (operations_on "p" (operationQueue s.1)) = Some create
  ∧ r.1.1 = Ok tt
  ∧ op_type <$> operationQueue r.1.2 = [delete; create; create]
  ∧ (Posix.readFile "p" r.1.2 r.2).1.1 = Ok "b".
Proof. vm_compute. by split_and!. Qed.

(** A test of the repository: two files are staged and the transaction is
    rolled back before any commit. *)
Lemma rollback_before_commit_witness :
  let s := Posix.run_calls
             [CreateFile "test1.txt" "content1"; CreateFile "test2.txt" "content2"]
             fresh (Posix.start ∅) in
  isCommitted s.1 = false
  ∧ ∃ t', Posix.rollback s.1 s.2 = (Ok tt, t', s.2)
      ∧ operationQueue t' = [] ∧ latestContent t' = JsMap.empty.
Proof.
  intros s. split; [reflexivity|].
  destruct (rollback_before_commit Posix.resolve Posix.relative Posix.rootDir
              Posix_resolve_relative s.1 s.2 eq_refl)
    as (t' & Hr & Hq & Hl & _).
  exists t'. by split_and!.
Defined.

(** C8, the counterexample.  A file is deleted and another is created.
    The deleted path is in the projection and has no entry in the export;
    the entry of the created path has the kind [modify], not [create]. *)
Lemma toFsUpdates_drops_and_relabels :
  let w0 := Posix.start {["/r/old.txt" := File "content"]} in
  let s := Posix.run_calls [DeleteFile "old.txt"; CreateFile "new.txt" "content1"]
             fresh w0 in
  JsMap.get "old.txt" (latestContent s.1)
  = Some {| cs_content := ""; cs_exists := false |}
  ∧ op_type <$> operations_on "new.txt" (operationQueue s.1) = [create]
  ∧ Posix.toFsUpdates s.1
    = [{| fu_path := "/r/new.txt";
          fu_content := String.list_byte_of_string "content1";
          fu_type := update_modify |}].
Proof. vm_compute. by split_and!. Qed.

(** A test of the repository: the export of one created file. *)
Lemma toFsUpdates_exports_existing_witness :
  let s := Posix.run_calls [CreateFile "test.txt" "content1"] fresh (Posix.start ∅) in
  wf Posix.resolve Posix.relative Posix.rootDir s.1
  ∧ {| fu_path := "/r/test.txt";
       fu_content := String.list_byte_of_string "content1";
       fu_type := update_modify |} ∈ Posix.toFsUpdates s.1.
Proof.
  intros s. split; [apply Posix_staging_wf|].
  exact (proj1 (toFsUpdates_exports_existing Posix.resolve Posix.relative
                  Posix.rootDir s.1 (Posix_staging_wf _ _))
           "test.txt" {| cs_content := "content1"; cs_exists := true |}
           eq_refl eq_refl).
Defined.

(** A file is read and nothing is staged: the commit returns and has
    written the file back. *)
Lemma read_file_is_committed_witness :
  let w0 := Posix.start {["/r/pkg.json" := File "{}"]} in
  let r := Posix.readFile "pkg.json" fresh w0 in
  let c := Posix.commit r.1.2 r.2 in
  (Posix.run_calls [] fresh w0 = (fresh, w0)
   ∧ operations_on "pkg.json" (operationQueue fresh) = []
   ∧ disk w0 !! "/r/pkg.json" = Some (File "{}"))
  ∧ r.1.1 = Ok "{}"
  ∧ JsMap.get "pkg.json" (latestContent r.1.2)
    = Some {| cs_content := "{}"; cs_exists := true |}
  ∧ operationQueue r.1.2 = []
  ∧ c.1.1 = Ok tt
  ∧ CallWriteFile "/r/pkg.json" "{}" ∈ calls_since r.2 c.2.
Proof.
  intros w0 r c. split; [by split_and!|].
  destruct (read_file_is_committed Posix.resolve Posix.relative Posix.dirname
              Posix.rootDir Posix_resolve_relative w0 [] fresh w0 "pkg.json" "{}"
              eq_refl eq_refl eq_refl)
    as (t1 & w1 & Hr & Hg & _ & Hq & Hc).
  assert ((Ok "{}", r.1.2, r.2) = (Ok "{}", t1, w1)) as Hr'.
  { rewrite <- Hr. vm_compute. reflexivity. }
  injection Hr' as <- <-.
  assert (Posix.commit r.1.2 r.2 = (Ok tt, c.1.2, c.2)) as Ec
    by (vm_compute; reflexivity).
  split_and!; [vm_compute; reflexivity | exact Hg | exact Hq
              | vm_compute; reflexivity | exact (proj1 (proj2 (Hc _ _ Ec)))].
Defined.

(** [createFile] on a file that exists is rejected; the file is tracked. *)
Lemma capture_precedes_validation_witness :
  let w0 := Posix.start {["/r/existing.txt" := File "existing content"]} in
  let c := CreateFile "existing.txt" "new content" in
  let r := run_call Posix.resolve Posix.relative Posix.rootDir c fresh w0 in
  (staged_path c = Some "existing.txt"
   ∧ run_call Posix.resolve Posix.relative Posix.rootDir c fresh w0
     = (Err (CannotCreate "existing.txt"), r.1.2, r.2))
  ∧ operationQueue r.1.2 = [] ∧ latestContent r.1.2 = JsMap.empty
  ∧ "existing.txt" ∈ getTrackedFiles r.1.2.
Proof.
  intros w0 c r.
  assert (run_call Posix.resolve Posix.relative Posix.rootDir c fresh w0
          = (Err (CannotCreate "existing.txt"), r.1.2, r.2)) as E
    by (vm_compute; reflexivity).
  split; [by split|].
  destruct (capture_precedes_validation Posix.resolve Posix.relative Posix.dirname
              Posix.rootDir Posix_resolve_relative c "existing.txt" fresh w0 _
              r.1.2 r.2 eq_refl E)
    as (_ & Hq & Hl & _ & _ & Ht & _).
  by split_and!.
Defined.

(** C10, the counterexample.  [deleteFile('missing')] is rejected and
    captures the path; a file is created and the transaction is committed.
    The rollback calls [unlink] on the missing path and [writeFile] on no
    path: the path is not rewritten. *)
Lemma rejected_missing_path_is_unlinked :
  let w0 := Posix.start ∅ in
  let s := Posix.run_calls [DeleteFile "missing"; CreateFile "a.txt" "x"] fresh w0 in
  let c := Posix.commit s.1 s.2 in
  let r := Posix.rollback c.1.2 c.2 in
  (Posix.deleteFile "missing" fresh w0).1.1 = Err (CannotOperate delete "missing")
  ∧ c.1.1 = Ok tt ∧ r.1.1 = Ok tt
  ∧ "missing" ∈ getTrackedFiles c.1.2
  ∧ calls_since c.2 r.2 = [CallUnlink "/r/missing"; CallUnlink "/r/a.txt"].
Proof.
  split_and!; try (vm_compute; reflexivity); vm_compute; repeat constructor.
Qed.

(** * The staging methods, composed *)

Section ComposedFacts.
Variable resolve : string → string → string.
Variable relative : string → string → string.
Variable rootDir : string.

Local Notation "'key' path" := (relative rootDir (resolve rootDir path))
  (at level 10, path at level 9, only parsing).
Local Notation "'abs' path" := (resolve rootDir path)
  (at level 10, path at level 9, only parsing).

(** A cached path is answered from the cache: no call, no change. *)
Lemma readFile_cached path t w st :
  JsMap.get (key path) (latestContent t) = Some st →
  readFile resolve relative rootDir path t w = (spec_read path st, t, w).
Proof.
  intros Hget. unfold readFile, spec_read. unfold_M. rewrite Hget.
  by destruct (cs_exists st).
Qed.

Lemma fileExists_cached path t w st :
  JsMap.get (key path) (latestContent t) = Some st →
  fileExists resolve relative rootDir path t w = (Ok (cs_exists st), t, w).
Proof. intros Hget. unfold fileExists. unfold_M. by rewrite Hget. Qed.

(** What a read that returned leaves in the cache. *)
Lemma readFile_ok path t w c t1 w1 :
  readFile resolve relative rootDir path t w = (Ok c, t1, w1) →
  JsMap.get (key path) (latestContent t1)
  = Some {| cs_content := c; cs_exists := true |} ∧
  operationQueue t1 = operationQueue t ∧ originalStates t1 = originalStates t ∧
  isCommitted t1 = isCommitted t ∧ operationCounter t1 = operationCounter t ∧
  reads_only w w1.
Proof.
  intros E. destruct (readFile_run resolve relative rootDir path t w) as (w' & E' & R).
  rewrite E in E'. injection E' as Er -> ->. unfold spec_read, disk_state in Er.
  destruct (JsMap.get (key path) (latestContent t)) as [[c0 e0]|] eqn:Eget.
  - cbn in Er. destruct e0; [|done]. injection Er as ->. by rewrite Eget.
  - destruct (disk w !! abs path) as [[c0|]|]; try done.
    injection Er as ->. cbn. by rewrite JsMapFacts.get_set_eq.
Qed.

(** A read that threw: the message, and nothing was cached. *)
Lemma readFile_err path t w e t1 w1 :
  readFile resolve relative rootDir path t w = (Err e, t1, w1) →
  e = FileDoesNotExist path ∧ t1 = t ∧ reads_only w w1.
Proof.
  intros E. destruct (readFile_run resolve relative rootDir path t w) as (w' & E' & R).
  rewrite E in E'. injection E' as Er -> ->. unfold spec_read, disk_state in Er.
  destruct (JsMap.get (key path) (latestContent t)) as [[c0 e0]|] eqn:Eget.
  - cbn in Er. destruct e0; [done|]. by injection Er as ->.
  - destruct (disk w !! abs path) as [[c0|]|]; try done; by injection Er as ->.
Qed.

(** [_addOperation] on a cached path: the validation looks at the cache. *)
Lemma addOperation_on_cached path type content t w st :
  JsMap.get (key path) (latestContent t) = Some st →
  ∃ r t' w',
    _addOperation resolve relative rootDir path type content t w = (r, t', w') ∧
    reads_only w w' ∧ isCommitted t' = isCommitted t ∧
    ((∃ e, r = Err e ∧ operationQueue t' = operationQueue t ∧
           latestContent t' = latestContent t ∧
           ((type = create ∧ e = CannotCreate path ∧
             has_delete (key path) (operationQueue t) = false)
            ∨ (type ≠ create ∧ e = CannotOperate type path ∧ cs_exists st = false)))
     ∨ (r = Ok tt ∧
        (type = create ∨ cs_exists st = true) ∧
        operationQueue t' =
          operationQueue t ++ [staged_operation t (key path) type content] ∧
        latestContent t' =
          JsMap.set (key path) (apply_operation type content st) (latestContent t))).
Proof.
  intros Hget.
  destruct (addOperation_run resolve relative rootDir path type content t w)
    as (w' & orig & R & _ & E).
  unfold current_exists, current_state in E. rewrite Hget in E. rewrite E.
  destruct (bool_decide (type = create)) eqn:Hty.
  - apply bool_decide_eq_true in Hty.
    destruct (has_delete _ _) eqn:Hdel; cbn [negb andb];
      [rewrite andb_false_r | rewrite andb_true_r].
    + do 3 eexists. split_and!; try done. right. split_and!; auto.
    + destruct (os_existed orig || cs_exists st); cbn [negb andb].
      * do 3 eexists. split_and!; try done. left. eexists. split_and!; eauto.
      * do 3 eexists. split_and!; try done. right. split_and!; auto.
  - apply bool_decide_eq_false in Hty. cbn [negb andb].
    destruct (cs_exists st) eqn:Hex; cbn [negb andb].
    + do 3 eexists. split_and!; try done. right. split_and!; auto.
    + do 3 eexists. split_and!; try done. left. eexists. split_and!; eauto.
Qed.

Lemma stage_on_existing path type content t w st :
  type ≠ create →
  JsMap.get (key path) (latestContent t) = Some st → cs_exists st = true →
  ∃ t' w',
    _addOperation resolve relative rootDir path type content t w = (Ok tt, t', w') ∧
    reads_only w w' ∧
    JsMap.get (key path) (latestContent t') = Some (apply_operation type content st).
Proof.
  intros Hty Hget Hex.
  destruct (addOperation_on_cached path type content t w st Hget)
    as (r & t' & w' & E & R & _ & [(e & _ & _ & _ & [(? & _)|(_ & _ & ?)])
                                  |(-> & _ & _ & Hl)]); try congruence.
  exists t', w'. split_and!; [done | done |].
  by rewrite Hl, JsMapFacts.get_set_eq.
Qed.

Lemma stage_on_missing path type content t w st :
  type ≠ create →
  JsMap.get (key path) (latestContent t) = Some st → cs_exists st = false →
  ∃ t' w',
    _addOperation resolve relative rootDir path type content t w
    = (Err (CannotOperate type path), t', w') ∧
    reads_only w w' ∧ operationQueue t' = operationQueue t ∧
    latestContent t' = latestContent t.
Proof.
  intros Hty Hget Hex.
  destruct (addOperation_on_cached path type content t w st Hget)
    as (r & t' & w' & E & R & _ & [(e & -> & Hq & Hl & [(? & _)|(_ & -> & _)])
                                  |(_ & [?|?] & _)]); try congruence.
  by exists t', w'.
Qed.

Lemma has_delete_snoc k q op :
  has_delete k (q ++ [op])
  = has_delete k q || (bool_decide (op_path op = k) && bool_decide (op_type op = delete)).
Proof.
  unfold has_delete. fold (operations_on k (q ++ [op])) (operations_on k q).
  rewrite operations_on_snoc. destruct (decide (op_path op = k)) as [Hk|Hk].
  - rewrite existsb_app. cbn. by rewrite (bool_decide_eq_true_2 _ Hk), orb_false_r.
  - by rewrite (bool_decide_eq_false_2 _ Hk), orb_false_r.
Qed.

(** ** Reading what was staged *)

(** X1.  Read, stage, read.  When [readFile] has returned the content of a
    path, [modifyFile], [appendToFile] and [prependToFile] on the path are
    accepted, they make no write, and the next [readFile], whatever the
    disk holds by then, returns the new content, the old content followed
    by the appended one, and the prepended content followed by the old
    one. *)
Theorem read_then_stage path old c t w t1 w1 :
  readFile resolve relative rootDir path t w = (Ok old, t1, w1) →
  (∃ t2 w2,
     modifyFile resolve relative rootDir path c t1 w1 = (Ok tt, t2, w2) ∧
     disk w2 = disk w ∧
     ∀ w3, readFile resolve relative rootDir path t2 w3 = (Ok c, t2, w3)) ∧
  (∃ t2 w2,
     appendToFile resolve relative rootDir path c t1 w1 = (Ok tt, t2, w2) ∧
     disk w2 = disk w ∧
     ∀ w3, readFile resolve relative rootDir path t2 w3 = (Ok (old +:+ c), t2, w3)) ∧
  (∃ t2 w2,
     prependToFile resolve relative rootDir path c t1 w1 = (Ok tt, t2, w2) ∧
     disk w2 = disk w ∧
     ∀ w3, readFile resolve relative rootDir path t2 w3 = (Ok (c +:+ old), t2, w3)).
Proof.
  intros E. apply readFile_ok in E as (Hget & _ & _ & _ & _ & [Hd _]).
  unfold modifyFile, appendToFile, prependToFile.
  split_and!.
  - destruct (stage_on_existing path modify (Some c) t1 w1 _ ltac:(done) Hget eq_refl)
      as (t2 & w2 & E2 & [Hd2 _] & Hget2).
    exists t2, w2. split_and!; [done | congruence |].
    intros w3. by rewrite (readFile_cached _ _ _ _ Hget2).
  - destruct (stage_on_existing path append (Some c) t1 w1 _ ltac:(done) Hget eq_refl)
      as (t2 & w2 & E2 & [Hd2 _] & Hget2).
    exists t2, w2. split_and!; [done | congruence |].
    intros w3. by rewrite (readFile_cached _ _ _ _ Hget2).
  - destruct (stage_on_existing path prepend (Some c) t1 w1 _ ltac:(done) Hget eq_refl)
      as (t2 & w2 & E2 & [Hd2 _] & Hget2).
    exists t2, w2. split_and!; [done | congruence |].
    intros w3. by rewrite (readFile_cached _ _ _ _ Hget2).
Qed.

(** X2.  After a delete.  When [deleteFile] has returned, the path does not
    exist for the transaction, whatever the disk holds: [fileExists]
    answers false and [readFile] throws, both without a call of the file
    system; [modifyFile], [appendToFile], [prependToFile] and a second
    [deleteFile] are rejected and stage nothing; [createFile] is accepted,
    and the content it stages is what [readFile] returns then. *)
Theorem delete_then path t w t1 w1 :
  deleteFile resolve relative rootDir path t w = (Ok tt, t1, w1) →
  (∀ w2, fileExists resolve relative rootDir path t1 w2 = (Ok false, t1, w2)) ∧
  (∀ w2, readFile resolve relative rootDir path t1 w2
         = (Err (FileDoesNotExist path), t1, w2)) ∧
  (∀ type content w2, type ≠ create →
     ∃ t3 w3,
       _addOperation resolve relative rootDir path type content t1 w2
       = (Err (CannotOperate type path), t3, w3) ∧
       operationQueue t3 = operationQueue t1 ∧ latestContent t3 = latestContent t1 ∧
       disk w3 = disk w2) ∧
  (∀ c w2,
     ∃ t3 w3,
       createFile resolve relative rootDir path c t1 w2 = (Ok tt, t3, w3) ∧
       ∀ w4, readFile resolve relative rootDir path t3 w4 = (Ok c, t3, w4)).
Proof.
  unfold deleteFile. intros E.
  destruct (addOperation_cases resolve relative rootDir path delete None t w)
    as (r & t' & w' & E' & _ & _ & _ & [(e & ? & _)|(_ & Hq & Hl & _)]);
    rewrite E in E'; injection E' as <- <- <-; [done|].
  assert (JsMap.get (key path) (latestContent t1)
          = Some {| cs_content := ""; cs_exists := false |}) as Hget
    by (by rewrite Hl, JsMapFacts.get_set_eq).
  split_and!.
  - intros w2. by rewrite (fileExists_cached _ _ _ _ Hget).
  - intros w2. by rewrite (readFile_cached _ _ _ _ Hget).
  - intros type content w2 Hty.
    destruct (stage_on_missing path type content t1 w2 _ Hty Hget eq_refl)
      as (t3 & w3 & E3 & [Hd _] & ? & ?).
    by exists t3, w3.
  - intros c w2. unfold createFile.
    destruct (addOperation_on_cached path create (Some c) t1 w2 _ Hget)
      as (r & t3 & w3 & E3 & _ & _ & [(e & _ & _ & _ & [(_ & _ & Hdel)|(? & _)])
                                     |(-> & _ & _ & Hl3)]); try done.
    + rewrite Hq, has_delete_snoc in Hdel. cbn in Hdel.
      rewrite bool_decide_eq_true_2, orb_true_r in Hdel; done.
    + exists t3, w3. split; [done|]. intros w4.
      assert (JsMap.get (key path) (latestContent t3)
              = Some {| cs_content := c; cs_exists := true |}) as Hget3
        by (by rewrite Hl3, JsMapFacts.get_set_eq).
      by rewrite (readFile_cached _ _ _ _ Hget3).
Qed.

(** X3.  After a create.  When [createFile] has returned, [fileExists]
    answers true and [readFile] returns the staged content, both without a
    call of the file system; and unless a delete of the path was queued
    before, a second [createFile] on the path throws "file already exists"
    and stages nothing. *)
Theorem create_then path c t w t1 w1 :
  createFile resolve relative rootDir path c t w = (Ok tt, t1, w1) →
  (∀ w2, fileExists resolve relative rootDir path t1 w2 = (Ok true, t1, w2)) ∧
  (∀ w2, readFile resolve relative rootDir path t1 w2 = (Ok c, t1, w2)) ∧
  (has_delete (key path) (operationQueue t) = false →
   ∀ c' w2,
     ∃ t3 w3,
       createFile resolve relative rootDir path c' t1 w2
       = (Err (CannotCreate path), t3, w3) ∧
       operationQueue t3 = operationQueue t1 ∧ latestContent t3 = latestContent t1 ∧
       disk w3 = disk w2).
Proof.
  unfold createFile. intros E.
  destruct (addOperation_cases resolve relative rootDir path create (Some c) t w)
    as (r & t' & w' & E' & _ & _ & _ & [(e & ? & _)|(_ & Hq & Hl & _)]);
    rewrite E in E'; injection E' as <- <- <-; [done|].
  assert (JsMap.get (key path) (latestContent t1)
          = Some {| cs_content := c; cs_exists := true |}) as Hget
    by (by rewrite Hl, JsMapFacts.get_set_eq).
  split_and!.
  - intros w2. by rewrite (fileExists_cached _ _ _ _ Hget).
  - intros w2. by rewrite (readFile_cached _ _ _ _ Hget).
  - intros Hdel c' w2.
    destruct (addOperation_run resolve relative rootDir path create (Some c') t1 w2)
      as (w3 & orig & [Hd _] & _ & E3).
    unfold current_exists in E3. rewrite Hget in E3. cbn [cs_exists] in E3.
    rewrite Hq, has_delete_snoc, Hdel, orb_true_r in E3.
    cbn [staged_operation op_type] in E3.
    rewrite (bool_decide_eq_false_2 (create = delete)) in E3 by done.
    rewrite andb_false_r in E3. cbn in E3.
    do 2 eexists. split; [exact E3|]. done.
Qed.


(** X5.  A read is cached, a failed read is not.  [readFile] makes no
    write.  When it has returned, every later [readFile] of the path
    returns the same content without a call of the file system, whatever
    the disk holds by then.  When it throws, the error is "File does not
    exist", whatever the file system reported, and the object is as
    before, so that the next [readFile] asks the file system again. *)
Theorem read_is_cached path t w r t1 w1 :
  readFile resolve relative rootDir path t w = (r, t1, w1) →
  disk w1 = disk w ∧
  match r with
  | Ok c => ∀ w2, readFile resolve relative rootDir path t1 w2 = (Ok c, t1, w2)
  | Err e => e = FileDoesNotExist path ∧ t1 = t
  end.
Proof.
  intros E. destruct r as [c|e].
  - apply readFile_ok in E as (Hget & _ & _ & _ & _ & [Hd _]).
    split; [done|]. intros w2. by rewrite (readFile_cached _ _ _ _ Hget).
  - apply readFile_err in E as (-> & -> & [Hd _]). done.
Qed.

End ComposedFacts.

(** * Transactions staged on a fresh object *)

Lemma fold_gone_has_delete k q init :
  cs_exists init = true → cs_exists (spec_fold k q init) = false →
  has_delete k q = true.
Proof.
  unfold spec_fold, has_delete, operations_on.
  generalize (filter (λ op, op_path op = k) q). intros l. revert init.
  induction l as [|op l IH]; intros init Hinit Hgone; cbn in *; [congruence|].
  destruct (op_type op) eqn:Hty; cbn;
    try (apply (IH (spec_apply init op)); [unfold spec_apply; by rewrite Hty | done]).
  done.
Qed.

Section FreshFacts.
Variable resolve : string → string → string.
Variable relative : string → string → string.
Variable rootDir : string.

Local Notation "'key' path" := (relative rootDir (resolve rootDir path))
  (at level 10, path at level 9, only parsing).
Local Notation "'abs' path" := (resolve rootDir path)
  (at level 10, path at level 9, only parsing).

(** A call of the staging phase leaves the queue and the counter, or
    pushes one operation with the next id. *)
Lemma run_call_queue c t w r t' w' :
  run_call resolve relative rootDir c t w = (r, t', w') →
  (operationQueue t' = operationQueue t ∧ operationCounter t' = operationCounter t)
  ∨ (∃ k type content,
       operationQueue t' = operationQueue t ++ [staged_operation t k type content] ∧
       operationCounter t' = S (operationCounter t)).
Proof.
  assert (∀ path type content t w r t' w',
    _addOperation resolve relative rootDir path type content t w = (r, t', w') →
    (operationQueue t' = operationQueue t ∧ operationCounter t' = operationCounter t)
    ∨ (∃ k type content,
         operationQueue t' = operationQueue t ++ [staged_operation t k type content] ∧
         operationCounter t' = S (operationCounter t))) as Hadd.
  { clear. intros path type content t w r t' w' E.
    destruct (addOperation_cases resolve relative rootDir path type content t w)
      as (r0 & t0 & w0 & E0 & _ & _ & _ & [(e & _ & _ & ? & _ & ?)|(_ & ? & _ & ?)]);
      rewrite E in E0; injection E0 as <- <- <-; [by left | right; eauto]. }
  assert (∀ path t w r t' w',
    readFile resolve relative rootDir path t w = (r, t', w') →
    operationQueue t' = operationQueue t ∧ operationCounter t' = operationCounter t)
    as Hread.
  { clear. intros path t w r t' w' E.
    destruct (readFile_run resolve relative rootDir path t w) as (w0 & E0 & _).
    rewrite E in E0. injection E0 as _ -> _.
    destruct (JsMap.get _ _); [done|]. by destruct (disk w !! _) as [[c|]|]. }
  intros E. destruct c; cbn [run_call] in E; try by (eapply Hadd; eauto).
  - unfold transformFile, bind, try_catch in E.
    destruct (readFile _ _ _ path t w) as [[r1 t1] w1] eqn:E1.
    apply Hread in E1 as [Hq Hc].
    assert (∃ c, _addOperation resolve relative rootDir path modify (Some c) t1 w1
                 = (r, t', w')) as [c E2].
    { destruct r1; cbn -[_addOperation] in E; eauto. }
    apply Hadd in E2 as [[? ?]|(k & ty & ct & ? & ?)]; [left; split; congruence|].
    right. exists k, ty, ct. unfold staged_operation in *. rewrite <- Hq, <- Hc. done.
  - unfold overwriteFile, bind in E.
    destruct (fileExists_run resolve relative rootDir path t w) as (w1 & E1 & _).
    rewrite E1 in E. eapply Hadd; eauto.
  - unfold discard, bind in E.
    destruct (readFile _ _ _ path t w) as [[r1 t1] w1] eqn:E1.
    apply Hread in E1. left.
    destruct r1; cbn in E; by injection E as _ <- _.
  - unfold discard, bind in E.
    destruct (fileExists_run resolve relative rootDir path t w) as (w1 & E1 & _).
    rewrite E1 in E. cbn in E. injection E as _ <- _. by left.
Qed.

Lemma op_name_inj : Inj (=) (=) op_name.
Proof.
  intros n m H. unfold op_name in H. cbn in H. injection H as H.
  change ("" +:+ pretty n) with (pretty n) in H.
  change ("" +:+ pretty m) with (pretty m) in H. by apply (inj pretty) in H.
Qed.

(** X6.  Operation ids.  In a transaction staged on a fresh object,
    whatever calls were made and whichever of them were rejected, the
    counter is the length of the queue, which is what [pendingOperations]
    returns; the ids of the queued operations are [op_1], [op_2], ... in
    queue order; and no two queued operations share an id. *)
Theorem operation_ids_count w0 cs t w :
  run_calls resolve relative rootDir cs fresh w0 = (t, w) →
  operationCounter t = pendingOperations t ∧
  op_id <$> operationQueue t = op_name <$> seq 1 (pendingOperations t) ∧
  NoDup (op_id <$> operationQueue t).
Proof.
  unfold pendingOperations.
  enough (∀ cs t0 w0 t w,
    run_calls resolve relative rootDir cs t0 w0 = (t, w) →
    operationCounter t0 = length (operationQueue t0) ∧
    op_id <$> operationQueue t0 = op_name <$> seq 1 (length (operationQueue t0)) →
    operationCounter t = length (operationQueue t) ∧
    op_id <$> operationQueue t = op_name <$> seq 1 (length (operationQueue t))) as H.
  { intros E. destruct (H cs fresh w0 t w E) as [Hc Hids]; [done|].
    split_and!; [done | done |]. rewrite Hids.
    apply (NoDup_fmap_2 _). apply NoDup_seq. }
  clear. intros cs. induction cs as [|c cs IH]; intros t0 w0 t w E [Hc Hids]; cbn in E.
  - by injection E as <- <-.
  - destruct (run_call _ _ _ c t0 w0) as [[r1 t1] w1] eqn:E1.
    apply (IH _ _ _ _ E).
    apply run_call_queue in E1 as [[-> ->]|(k & ty & ct & -> & ->)]; [done|].
    rewrite length_app, Nat.add_1_r. split; [congruence|].
    rewrite seq_S, !fmap_app, Hids. cbn. by rewrite Hc.
Qed.

(** What [node:path] guarantees: [resolve(from, relative(from, to))] is
    [resolve(to)]. *)
Hypothesis resolve_relative :
  ∀ p, resolve rootDir (relative rootDir (resolve rootDir p)) = resolve rootDir p.

(** [overwriteFile] on a transaction staged on [d0]. *)
Lemma overwriteFile_staged d0 path c t w :
  wf resolve relative rootDir t → staged_on resolve rootDir d0 t w →
  ∃ t1 w1,
    overwriteFile resolve relative rootDir path c t w = (Ok tt, t1, w1) ∧
    reads_only w w1 ∧
    (d0 !! abs path ≠ Some Dir →
     JsMap.get (key path) (latestContent t1)
     = Some {| cs_content := c; cs_exists := true |}).
Proof.
  intros Hwf (Hd & Hfold & _ & Horig & _).
  destruct (fileExists_run resolve relative rootDir path t w) as (w0 & E0 & R0).
  unfold overwriteFile. erewrite run_bind_ok by exact E0.
  set (cur := current_exists resolve relative rootDir t (disk w) path) in *.
  destruct (addOperation_run resolve relative rootDir path
              (if cur then modify else create) (Some c) t w0)
    as (w1 & orig & R1 & Horig1 & E1).
  assert (current_exists resolve relative rootDir t (disk w0) path = cur) as Hcur
    by (subst cur; unfold current_exists; by rewrite (proj1 R0)).
  rewrite Hcur in E1.
  assert (orig = disk_original d0 (abs path)) as Horig2.
  { rewrite captured_get, decide_True in Horig1 by done.
    destruct (JsMap.get _ (originalStates t)) as [o|] eqn:Eo; cbn in Horig1;
      injection Horig1 as <-.
    - rewrite (Horig _ _ Eo). by rewrite resolve_relative.
    - by rewrite (proj1 R0), Hd. }
  assert (current_state resolve rootDir t (disk w0) (key path)
          = match JsMap.get (key path) (latestContent t) with
            | Some st => st
            | None => disk_state d0 (abs path)
            end) as Hstate.
  { unfold current_state. destruct (JsMap.get _ (latestContent t)); [done|].
    by rewrite resolve_relative, (proj1 R0), Hd. }
  rewrite Hstate in E1.
  assert (reads_only w w1) as R by eauto using reads_only_trans.
  destruct cur eqn:Ecur.
  - (* the path exists: modify *)
    cbn in E1. do 2 eexists. split; [exact E1|]. split; [done|].
    intros Hdir. cbn [latestContent]. rewrite JsMapFacts.get_set_eq.
    f_equal. unfold apply_operation. cbn. f_equal.
    subst cur. unfold current_exists, disk_exists, disk_state in *.
    destruct (JsMap.get _ (latestContent t)) as [st|]; [done|].
    rewrite Hd in Ecur. by destruct (d0 !! abs path) as [[c0|]|].
  - (* the path does not exist: create *)
    assert ((os_existed orig || false) && negb (has_delete (key path) (operationQueue t))
            = false) as Hacc.
    { rewrite orb_false_r. destruct (os_existed orig) eqn:Hex; [|done].
      cbn. apply negb_false_iff. subst orig cur.
      unfold disk_original in Hex. unfold current_exists, disk_exists in Ecur.
      specialize (Hfold (key path)). rewrite resolve_relative in Hfold.
      destruct (JsMap.get _ (latestContent t)) as [st|].
      - apply (fold_gone_has_delete _ _ (disk_state d0 (abs path))).
        + unfold disk_state. by destruct (d0 !! abs path) as [[c0|]|].
        + by rewrite <- Hfold.
      - rewrite Hd in Ecur. by destruct (d0 !! abs path) as [[c0|]|]. }
    rewrite (bool_decide_eq_true_2 (create = create)) in E1 by done.
    cbn [andb] in E1. rewrite Hacc in E1. cbn in E1.
    do 2 eexists. split; [exact E1|]. split; [done|].
    intros _. cbn [latestContent]. by rewrite JsMapFacts.get_set_eq.
Qed.

(** X7.  [overwriteFile] is never rejected.  In a transaction staged on a
    fresh object, [overwriteFile] returns on every path, whatever was
    staged, read or rejected before, and makes no write; unless the path
    was a directory before the transaction, the next [readFile] returns
    the content. *)
Theorem overwrite_is_accepted w0 cs t w path c :
  run_calls resolve relative rootDir cs fresh w0 = (t, w) →
  ∃ t1 w1,
    overwriteFile resolve relative rootDir path c t w = (Ok tt, t1, w1) ∧
    disk w1 = disk w0 ∧
    (disk w0 !! abs path ≠ Some Dir →
     ∀ w2, readFile resolve relative rootDir path t1 w2 = (Ok c, t1, w2)).
Proof.
  intros E.
  destruct (run_calls_kept resolve relative rootDir resolve_relative
              (disk w0) cs fresh w0 t w E (wf_fresh resolve relative rootDir)
              (staged_on_fresh resolve rootDir w0)) as (Hwf & Hst & _ & _).
  destruct (overwriteFile_staged (disk w0) path c t w Hwf Hst)
    as (t1 & w1 & E1 & [Hd1 _] & Hget).
  exists t1, w1. split_and!; [done | |].
  - destruct Hst as [Hd _]. congruence.
  - intros Hdir w2. by rewrite (readFile_cached _ _ _ _ _ _ _ (Hget Hdir)).
Qed.

End FreshFacts.

(** * Commit, whatever its outcome *)

Lemma JsSet_fold_elem {A} (g : A → string) (l : list A) (acc : JsSet.t) x :
  x ∈ foldl (λ s a, JsSet.add (g a) s) acc l ↔ x ∈ acc ∨ ∃ a, a ∈ l ∧ x = g a.
Proof.
  revert acc. induction l as [|a l IH]; intros acc; cbn.
  - split; [by left | intros [Hx|(a & Ha%elem_of_nil & _)]; done].
  - rewrite IH. unfold JsSet.add. split.
    + intros [Hx|(a' & Ha' & ->)].
      * destruct (decide (g a ∈ acc)); [by left|].
        apply elem_of_app in Hx as [Hx | ->%list_elem_of_singleton]; [by left|].
        right. exists a. split; [left | done].
      * right. exists a'. split; [by right | done].
    + intros [Hx|(a' & [-> | Ha']%elem_of_cons & ->)].
      * left. destruct (decide (g a ∈ acc)); [done|]. apply elem_of_app. by left.
      * left. destruct (decide (g a ∈ acc)); [done|].
        apply elem_of_app. right. by apply list_elem_of_singleton.
      * right. by exists a'.
Qed.

Lemma JsSet_fold_NoDup {A} (g : A → string) (l : list A) (acc : JsSet.t) :
  NoDup acc → NoDup (foldl (λ s a, JsSet.add (g a) s) acc l).
Proof.
  revert acc. induction l as [|a l IH]; intros acc Hnd; cbn; [done|].
  apply IH. unfold JsSet.add. destruct (decide (g a ∈ acc)) as [|Hnin]; [done|].
  apply NoDup_app. split_and!; [done | | apply NoDup_singleton].
  by intros x Hx ->%list_elem_of_singleton.
Qed.

Lemma JsSet_of_list_elem l x : x ∈ JsSet.of_list l ↔ x ∈ l.
Proof.
  unfold JsSet.of_list. rewrite (JsSet_fold_elem (λ x, x)). split.
  - intros [Hx%elem_of_nil|(a & Ha & ->)]; done.
  - intros Hx. right. by exists x.
Qed.

Section LoopOutcomes.
Variable resolve : string → string → string.
Variable rootDir : string.
Context {V : Type}.
Variable target : V → option string.

(** The loop over the entries, whatever its outcome: it went through a
    prefix of the list, up to the first step that was rejected. *)
Lemma for_each_settle_run (l : list (string * V)) t w :
  ∃ r l1,
    for_each l (settle_entry resolve rootDir target) t w
    = (r, t, {| disk := settle_disk resolve rootDir target (disk w) l1;
                calls := calls w ++ settle_calls resolve rootDir target l1 |}) ∧
    l1 `prefix_of` l ∧
    (r = Ok tt
     ∨ ∃ kv c, kv ∈ l ∧ target kv.2 = Some c ∧
               r = Err (FsError EISDIR (resolve rootDir kv.1))).
Proof.
  revert w. induction l as [|kv l IH]; intros w.
  - exists (Ok tt), []. cbn. rewrite app_nil_r. split_and!; [by destruct w | done | by left].
  - cbn [for_each]. unfold bind. rewrite settle_entry_run.
    destruct (settle_fails _ _ _) eqn:Hf.
    + exists (Err (FsError EISDIR (resolve rootDir kv.1))), [kv].
      split_and!; [done | by apply prefix_cons, prefix_nil |].
      right. unfold settle_fails in Hf.
      destruct (target kv.2) as [c|] eqn:Htg; [|done].
      exists kv, c. split_and!; [left | done | done].
    + destruct (IH {| disk := settle_path (disk w) (resolve rootDir kv.1) (target kv.2);
                      calls := calls w ++ [settle_call (resolve rootDir kv.1) (target kv.2)] |})
        as (r & l1 & E & Hpre & Hr).
      exists r, (kv :: l1). rewrite E. cbn. rewrite <- app_assoc.
      split_and!; [done | by apply prefix_cons |].
      destruct Hr as [->|(kv' & c & ? & ? & ->)]; [by left|].
      right. exists kv', c. split_and!; [by right | done | done].
Qed.

End LoopOutcomes.

(** The loop over the directories, whatever its outcome. *)
Lemma for_each_mkdir_run dirs t w :
  ∃ r w',
    for_each dirs fs_mkdir t w = (r, t, w') ∧
    (∀ p, p ∉ dirs → disk w' !! p = disk w !! p) ∧
    (∃ cs, calls w' = calls w ++ cs ∧ Forall (λ c, ∃ p, p ∈ dirs ∧ c = CallMkdir p) cs) ∧
    (r = Ok tt ∨ ∃ p, p ∈ dirs ∧ r = Err (FsError EEXIST p)).
Proof.
  revert w. induction dirs as [|dir dirs IH]; intros w.
  - exists (Ok tt), w. split_and!; [done | done | | by left].
    exists []. by rewrite app_nil_r.
  - assert (∀ cs, Forall (λ c, ∃ p, p ∈ dirs ∧ c = CallMkdir p) cs →
                  Forall (λ c, ∃ p, p ∈ dir :: dirs ∧ c = CallMkdir p)
                    (CallMkdir dir :: cs)) as Hcons.
    { intros cs Hcs. constructor; [exists dir; split; [left | done]|].
      eapply Forall_impl; [exact Hcs|]. intros c (p & ? & ->).
      exists p. split; [by right | done]. }
    cbn [for_each]. unfold bind, fs_mkdir at 1.
    destruct (disk w !! dir) as [[c|]|] eqn:E.
    + do 2 eexists. split_and!; [done | done | |].
      * exists [CallMkdir dir]. split; [done|]. apply Hcons. constructor.
      * right. exists dir. split; [left | done].
    + destruct (IH (log (CallMkdir dir) w)) as (r & w' & -> & Hd & (cs & Hc & Hf) & Hr).
      exists r, w'. split_and!; [done | | |].
      * intros p [_ Hp]%not_elem_of_cons. by rewrite Hd.
      * exists (CallMkdir dir :: cs). rewrite Hc. cbn. rewrite <- app_assoc. auto.
      * destruct Hr as [->|(p & ? & ->)]; [by left|].
        right. exists p. split; [by right | done].
    + destruct (IH (set_disk (<[dir:=Dir]> (disk w)) (log (CallMkdir dir) w)))
        as (r & w' & -> & Hd & (cs & Hc & Hf) & Hr).
      exists r, w'. split_and!; [done | | |].
      * intros p [Hne Hp]%not_elem_of_cons. rewrite Hd by done. cbn.
        by rewrite lookup_insert_ne.
      * exists (CallMkdir dir :: cs). rewrite Hc. cbn. rewrite <- app_assoc. auto.
      * destruct Hr as [->|(p & ? & ->)]; [by left|].
        right. exists p. split; [by right | done].
Qed.

Section CommitOutcomes.
Variable resolve : string → string → string.
Variable relative : string → string → string.
Variable dirname : string → string.
Variable rootDir : string.

(** The directories that [commit] creates. *)
Lemma commit_directories_elem (q : list FileOperation) p :
  p ∈ JsSet.of_list (map dirname (JsSet.of_list
        (map (λ op, resolve rootDir (op_path op)) q)))
  ↔ ∃ op, op ∈ q ∧ p = dirname (resolve rootDir (op_path op)).
Proof.
  rewrite JsSet_of_list_elem, list_elem_of_In, in_map_iff. split.
  - intros (a & <- & Ha).
    rewrite <- list_elem_of_In, JsSet_of_list_elem, list_elem_of_In, in_map_iff in Ha.
    destruct Ha as (op & <- & Hop). exists op. by rewrite list_elem_of_In.
  - intros (op & Hop & ->). exists (resolve rootDir (op_path op)). split; [done|].
    rewrite <- list_elem_of_In, JsSet_of_list_elem, list_elem_of_In, in_map_iff.
    exists op. by rewrite <- list_elem_of_In.
Qed.

(** A commit on a transaction that is not committed, whatever its outcome:
    the directories, then a prefix of the entries of the projection. *)
Lemma commit_outcome t w r t' w' :
  isCommitted t = false →
  commit resolve dirname rootDir t w = (r, t', w') →
  ∃ w1 l1,
    (∀ p, (∀ op, op ∈ operationQueue t → p ≠ dirname (resolve rootDir (op_path op))) →
          disk w1 !! p = disk w !! p) ∧
    (∃ cs, calls w1 = calls w ++ cs ∧
           Forall (λ c, ∃ op, op ∈ operationQueue t ∧
                              c = CallMkdir (dirname (resolve rootDir (op_path op)))) cs) ∧
    l1 `prefix_of` JsMap.entries (latestContent t) ∧
    disk w' = settle_disk resolve rootDir commit_target (disk w1) l1 ∧
    calls w' = calls w1 ++ settle_calls resolve rootDir commit_target l1 ∧
    ((r = Ok tt ∧ t' = set_isCommitted true t)
     ∨ (t' = t ∧
        ((∃ op, op ∈ operationQueue t ∧
                r = Err (FailedToCommit
                           (FsError EEXIST (dirname (resolve rootDir (op_path op))))))
         ∨ (∃ k st, (k, st) ∈ JsMap.entries (latestContent t) ∧ cs_exists st = true ∧
                    r = Err (FailedToCommit (FsError EISDIR (resolve rootDir k))))))).
Proof.
  intros Hc E. unfold commit in E. unfold bind at 1, this at 1 in E.
  rewrite Hc in E. unfold try_catch in E. unfold bind at 1 in E.
  destruct (for_each_mkdir_run (JsSet.of_list (map dirname (JsSet.of_list
              (map (λ op, resolve rootDir (op_path op)) (operationQueue t))))) t w)
    as (r1 & w1 & E1 & Hd1 & (cs & Hcs & Hf) & Hr1).
  rewrite E1 in E.
  assert (∀ p, (∀ op, op ∈ operationQueue t →
                      p ≠ dirname (resolve rootDir (op_path op))) →
               disk w1 !! p = disk w !! p) as Hd1'.
  { intros p Hp. apply Hd1. intros (op & Hop & ->)%commit_directories_elem.
    by apply (Hp op). }
  assert (Forall (λ c, ∃ op, op ∈ operationQueue t ∧
                   c = CallMkdir (dirname (resolve rootDir (op_path op)))) cs) as Hf'.
  { eapply Forall_impl; [exact Hf|]. intros c (p & Hp & ->).
    apply commit_directories_elem in Hp as (op & Hop & ->). eauto. }
  destruct Hr1 as [->|(p & Hp & ->)].
  - unfold bind at 1 in E.
    erewrite for_each_ext in E; cycle 1.
    { intros [k st] t0 w0.
      instantiate (1 := settle_entry resolve rootDir commit_target).
      unfold settle_entry, commit_target. cbn. by destruct (cs_exists st). }
    destruct (for_each_settle_run resolve rootDir commit_target
                (JsMap.entries (latestContent t)) t w1) as (r2 & l1 & E2 & Hpre & Hr2).
    rewrite E2 in E. exists w1, l1.
    destruct Hr2 as [->|([k st] & c & Hin & Htg & ->)].
    + unfold update in E. injection E as <- <- <-.
      split_and!; [done | by exists cs | done | done | done | by left].
    + unfold throw in E. injection E as <- <- <-.
      split_and!; [done | by exists cs | done | done | done |].
      right. split; [done|]. right.
      exists k, st. split_and!; [done | | done].
      unfold commit_target in Htg. cbn in Htg. by destruct (cs_exists st).
  - unfold throw in E. injection E as <- <- <-. exists w1, [].
    split_and!; [done | by exists cs | apply prefix_nil | done
                | cbn; by rewrite app_nil_r |].
    right. split; [done|]. left.
    apply commit_directories_elem in Hp as (op & Hop & ->). eauto.
Qed.

Lemma settle_paths_prefix {V} (l1 l : list (string * V)) p :
  l1 `prefix_of` l → p ∈ settle_paths resolve rootDir l1 →
  p ∈ settle_paths resolve rootDir l.
Proof.
  intros [l2 ->]. unfold settle_paths. rewrite fmap_app, elem_of_app. by left.
Qed.

(** X8.  What a commit touches.  Whatever the outcome of [commit] (it
    returns, it throws after a part of the writes, or it rejects a
    committed transaction), every call that it makes is [mkdir],
    [writeFile] or [unlink], on the directory of the path of a queued
    operation or on a path of the projection.  A path that is no path of
    the projection, and neither the directory of the path of a queued
    operation nor a directory above it (those that are missing are
    created by [mkdir] with [recursive: true]), is on the disk what it was
    before. *)
Theorem commit_touches_only t w r t' w' :
  commit resolve dirname rootDir t w = (r, t', w') →
  (∀ c, c ∈ calls_since w w' →
     is_write c = true ∧
     ((∃ op, op ∈ operationQueue t ∧
             call_path c = dirname (resolve rootDir (op_path op)))
      ∨ (∃ k, k ∈ JsMap.keys (latestContent t) ∧ call_path c = resolve rootDir k))) ∧
  (∀ p,
     (∀ op, op ∈ operationQueue t →
            ¬ above dirname p (resolve rootDir (op_path op))) →
     (∀ k, k ∈ JsMap.keys (latestContent t) → p ≠ resolve rootDir k) →
     disk w' !! p = disk w !! p).
Proof.
  intros E. destruct (isCommitted t) eqn:Hc.
  - rewrite commit_committed in E by done. injection E as <- <- <-.
    rewrite calls_since_refl. split; [by intros c ?%elem_of_nil | done].
  - destruct (commit_outcome _ _ _ _ _ Hc E)
      as (w1 & l1 & Hd1 & (cs & Hcs & Hf) & Hpre & Hd & Hcalls & _).
    split.
    + erewrite calls_since_app; cycle 1.
      { rewrite Hcalls, Hcs, <- app_assoc. reflexivity. }
      intros c [Hin|Hin]%elem_of_app.
      * rewrite Forall_forall in Hf. destruct (Hf c Hin) as (op & Hop & ->).
        split; [done|]. left. eauto.
      * apply elem_of_settle_calls in Hin as [Hw Hp]. split; [done|]. right.
        apply (settle_paths_prefix _ _ _ Hpre), elem_of_settle_paths in Hp. done.
    + intros p Hp1 Hp2. rewrite Hd, settle_disk_notin.
      { apply Hd1. intros op Hop ->. apply (Hp1 op Hop). by exists 0. }
      intros Hin. apply (settle_paths_prefix _ _ _ Hpre), elem_of_settle_paths in Hin
        as (k & Hk & ->). by apply (Hp2 k).
Qed.

(** X9.  A commit that fails is not undone.  When [commit] throws on a
    transaction that is not committed, the error is "Failed to commit
    changes" around the error that the file system raised, whatever it
    is, and the object is as before: it is not committed.  So the
    [rollback] that follows clears the queue and the projection and makes
    no call of the file system: whatever the commit wrote before it failed
    stays on the disk. *)
Theorem failed_commit_is_not_undone t w e t' w' :
  isCommitted t = false →
  commit resolve dirname rootDir t w = (Err e, t', w') →
  t' = t ∧
  (∃ cause, e = FailedToCommit cause) ∧
  ∃ t2, rollback resolve rootDir t' w' = (Ok tt, t2, w') ∧
        operationQueue t2 = [] ∧ latestContent t2 = JsMap.empty ∧
        isCommitted t2 = false.
Proof.
  intros Hc E.
  destruct (commit_outcome _ _ _ _ _ Hc E)
    as (_ & _ & _ & _ & _ & _ & _ & [[? _]|[-> Herr]]); [done|].
  split; [done|]. split.
  - destruct Herr as [(op & Hop & [= ->])|(k & st & Hin & Hex & [= ->])]; eauto.
  - eexists. split; [by apply rollback_uncommitted|]. done.
Qed.

End CommitOutcomes.

(** * The list of changed files *)

Section ListingFacts.
Variable resolve : string → string → string.
Variable relative : string → string → string.
Variable rootDir : string.
Variable Array_sort : list string → list string.

Hypothesis resolve_relative :
  ∀ p, resolve rootDir (relative rootDir (resolve rootDir p)) = resolve rootDir p.

(** What a sort guarantees: the result is a permutation of the array. *)
Hypothesis sort_permutation : ∀ l, Array_sort l ≡ₚ l.

(** X10.  The changed files.  [getChangedFiles()] lists the paths that
    have a queued operation, and no other, each once.  In a transaction
    staged on a fresh object, every changed file is a tracked file and has
    an entry in the projection. *)
Theorem changed_files_are_tracked w0 cs t w :
  run_calls resolve relative rootDir cs fresh w0 = (t, w) →
  NoDup (getChangedFiles Array_sort t) ∧
  ∀ p,
    (p ∈ getChangedFiles Array_sort t ↔ ∃ op, op ∈ operationQueue t ∧ op_path op = p) ∧
    (p ∈ getChangedFiles Array_sort t →
     p ∈ getTrackedFiles t ∧ p ∈ JsMap.keys (latestContent t)).
Proof.
  intros E.
  destruct (run_calls_kept resolve relative rootDir resolve_relative
              (disk w0) cs fresh w0 t w E (wf_fresh resolve relative rootDir)
              (staged_on_fresh resolve rootDir w0))
    as (_ & (_ & Hfold & _ & _ & Hq) & _ & _).
  unfold getChangedFiles, getTrackedFiles.
  assert (∀ p, p ∈ Array_sort (foldl (λ s op, JsSet.add (op_path op) s) []
                                 (operationQueue t))
               ↔ ∃ op, op ∈ operationQueue t ∧ op_path op = p) as Hin.
  { intros p. rewrite sort_permutation, (JsSet_fold_elem op_path). split.
    - intros [Hp%elem_of_nil|(op & Hop & ->)]; [done | eauto].
    - intros (op & Hop & <-). right. eauto. }
  split.
  - rewrite sort_permutation. apply JsSet_fold_NoDup. constructor.
  - intros p. split; [apply Hin|].
    intros (op & Hop & <-)%Hin. split.
    + apply JsMapFacts.get_is_Some_keys. by apply Hq.
    + apply JsMapFacts.get_is_Some_keys. specialize (Hfold (op_path op)).
      destruct (JsMap.get _ _); [done|]. exfalso.
      assert (op ∈ operations_on (op_path op) (operationQueue t)) as Hop'
        by (by apply list_elem_of_filter).
      rewrite Hfold in Hop'. by apply elem_of_nil in Hop'.
Qed.

End ListingFacts.

(** * The plugin context *)

Lemma lift_ok {A} (m : M A) t w a t' w' :
  m t w = (Ok a, t', w') → lift m t w = (Returned a, t', w').
Proof. unfold lift. by intros ->. Qed.

Lemma lift_err {A} (m : M A) t w e t' w' :
  m t w = (Err e, t', w') → lift m t w = (Threw (TreeError e), t', w').
Proof. unfold lift. by intros ->. Qed.

Lemma p_bind_ok {A B} (m : P A) (f : A → P B) t w a t' w' :
  m t w = (Returned a, t', w') → p_bind m f t w = f a t' w'.
Proof. unfold p_bind. by intros ->. Qed.

Lemma p_bind_threw {A B} (m : P A) (f : A → P B) t w e t' w' :
  m t w = (Threw e, t', w') → p_bind m f t w = (Threw e, t', w').
Proof. unfold p_bind. by intros ->. Qed.

Section ContextFacts.
Variable resolve : string → string → string.
Variable relative : string → string → string.
Variable dirname : string → string.
Variable rootDir : string.
Variable json_with_dependency :
  string → string → DependencyType → string → exn + string.
Variable import_matches : string → list (nat * string).
Variable plugins_match : string → option (nat * string).

Local Notation "'key' path" := (relative rootDir (resolve rootDir path))
  (at level 10, path at level 9, only parsing).
Local Notation "'abs' path" := (resolve rootDir path)
  (at level 10, path at level 9, only parsing).

(** The loop of [_findViteConfig]: the first name for which [fileExists]
    answers true. *)
Lemma first_existing_run configs t w :
  ∃ w', first_existing resolve relative rootDir configs t w
        = (Ok (find (current_exists resolve relative rootDir t (disk w)) configs), t, w')
        ∧ reads_only w w'.
Proof.
  revert w. induction configs as [|config configs IH]; intros w.
  - exists w. split; [done | apply reads_only_refl].
  - cbn [first_existing find].
    destruct (fileExists_run resolve relative rootDir config t w) as (w1 & E1 & R1).
    erewrite run_bind_ok by exact E1.
    destruct (current_exists _ _ _ _ _ config); [by exists w1|].
    destruct (IH w1) as (w2 & E2 & R2). exists w2. rewrite E2, (proj1 R1).
    split; [done | by eapply reads_only_trans].
Qed.

(** ** The text staged by [addVitePlugin] *)

Lemma includes_unfold s sub :
  includes s sub
  = if String.prefix sub s then true
    else match s with
         | EmptyString => false
         | String _ s' => includes s' sub
         end.
Proof. by destruct s. Qed.

Lemma includes_prefix s sub : String.prefix sub s = true → includes s sub = true.
Proof. intros H. by rewrite includes_unfold, H. Qed.

Lemma prefix_app s1 s2 : String.prefix s1 (s1 +:+ s2) = true.
Proof.
  induction s1 as [|c s1 IH]; [by destruct s2|].
  simpl. destruct (ascii_dec c c); [exact IH | done].
Qed.

Lemma includes_app_r s1 s2 sub : includes s2 sub = true → includes (s1 +:+ s2) sub = true.
Proof.
  intros H. induction s1 as [|c s1 IH]; [done|].
  rewrite includes_unfold. destruct (String.prefix sub _); [done | exact IH].
Qed.

Lemma includes_middle s1 s2 sub : includes (s1 +:+ sub +:+ s2) sub = true.
Proof. apply includes_app_r, includes_prefix, prefix_app. Qed.

Lemma string_app_assoc (s1 s2 s3 : string) : (s1 +:+ s2) +:+ s3 = s1 +:+ s2 +:+ s3.
Proof. induction s1 as [|c s1 IH]; [done | exact (f_equal (String c) IH)]. Qed.

Lemma with_import_same config s :
  includes s (importPath config) = true → with_import import_matches config s = s.
Proof. unfold with_import. by intros ->. Qed.

Lemma with_plugin_call_run config s t w :
  (∃ new, with_plugin_call plugins_match config s t w = (Returned new, t, w) ∧
          includes new (pluginCall config) = true ∧
          (includes s (pluginCall config) = true → new = s))
  ∨ with_plugin_call plugins_match config s t w
    = (Threw (PluginError
         "Could not find plugins array in vite config. Manual modification needed."),
       t, w).
Proof.
  unfold with_plugin_call. destruct (includes s (pluginCall config)) eqn:Hinc; cbn [negb].
  - left. by exists s.
  - destruct (plugins_match s) as [match_|]; [left | by right].
    eexists. split; [reflexivity|]. split; [|done].
    rewrite !string_app_assoc. do 3 apply includes_app_r.
    apply includes_prefix, prefix_app.
Qed.

(** [modifyFile] after a [readFile] that returned is accepted. *)
Lemma modify_after_read path old new t w t1 w1 :
  readFile resolve relative rootDir path t w = (Ok old, t1, w1) →
  ∃ t2 w2,
    modifyFile resolve relative rootDir path new t1 w1 = (Ok tt, t2, w2) ∧
    disk w2 = disk w ∧
    operationQueue t2 =
      operationQueue t ++ [staged_operation t (key path) modify (Some new)] ∧
    ∀ w3, readFile resolve relative rootDir path t2 w3 = (Ok new, t2, w3).
Proof.
  intros E. apply readFile_ok in E as (Hget & Hq & _ & _ & Hc & [Hd _]).
  unfold modifyFile.
  destruct (addOperation_on_cached resolve relative rootDir path modify (Some new)
              t1 w1 _ Hget)
    as (r & t2 & w2 & E2 & [Hd2 _] & _ & [(e & _ & _ & _ & [(? & _)|(_ & _ & ?)])
                                         |(-> & _ & Hq2 & Hl2)]); try done.
  exists t2, w2. split_and!; [done | congruence | |].
  - rewrite Hq2, Hq. unfold staged_operation. by rewrite Hc.
  - intros w3.
    assert (JsMap.get (key path) (latestContent t2)
            = Some {| cs_content := new; cs_exists := true |}) as Hget2
      by (by rewrite Hl2, JsMapFacts.get_set_eq).
    by rewrite (readFile_cached _ _ _ _ _ _ _ Hget2).
Qed.

(** ** The two helpers of the context *)

(** X11.  [addVitePlugin].  It makes no write.  When it returns, it has
    staged one modify of the first of [vite.config.ts], [vite.config.js],
    [vite.config.mjs] for which [fileExists] answers true; the staged text,
    which [readFile] returns from then on, includes the plugin call; and a
    text that included the import path and the plugin call already is
    staged unchanged.  When it throws, nothing is staged, and the error is
    "No vite.config file found", or "File does not exist" for the config
    that was found (it is not a regular file), or "Could not find plugins
    array". *)
Theorem addVitePlugin_outcome config t w :
  let '(r, t', w') :=
    addVitePlugin resolve relative rootDir import_matches plugins_match config t w in
  disk w' = disk w ∧
  match r with
  | Returned _ =>
      ∃ path old new,
        find (current_exists resolve relative rootDir t (disk w)) possibleConfigs
        = Some path ∧
        (readFile resolve relative rootDir path t w).1.1 = Ok old ∧
        includes new (pluginCall config) = true ∧
        (includes old (importPath config) = true →
         includes old (pluginCall config) = true → new = old) ∧
        operationQueue t' =
          operationQueue t ++ [staged_operation t (key path) modify (Some new)] ∧
        ∀ w2, readFile resolve relative rootDir path t' w2 = (Ok new, t', w2)
  | Threw e =>
      operationQueue t' = operationQueue t ∧
      ((e = PluginError "No vite.config file found. Cannot add plugin." ∧
        find (current_exists resolve relative rootDir t (disk w)) possibleConfigs = None)
       ∨ (∃ path, path ∈ possibleConfigs ∧ e = TreeError (FileDoesNotExist path))
       ∨ e = PluginError
               "Could not find plugins array in vite config. Manual modification needed.")
  end.
Proof.
  destruct (addVitePlugin _ _ _ _ _ config t w) as [[r t'] w'] eqn:E.
  unfold addVitePlugin, _findViteConfig in E.
  destruct (first_existing_run possibleConfigs t w) as (w0 & E0 & [Hd0 _]).
  erewrite p_bind_ok in E by (apply lift_ok; exact E0).
  destruct (find _ possibleConfigs) as [path|] eqn:Hfind.
  - assert (path ∈ possibleConfigs) as Hpath.
    { apply find_some in Hfind as [Hin _]. by apply list_elem_of_In. }
    destruct (readFile resolve relative rootDir path t w0) as [[[old|e] t1] w1] eqn:E1.
    + erewrite p_bind_ok in E by (apply lift_ok; exact E1).
      assert ((readFile resolve relative rootDir path t w).1.1 = Ok old) as Hread.
      { destruct (readFile_run resolve relative rootDir path t w) as (? & -> & _).
        destruct (readFile_run resolve relative rootDir path t w0) as (? & E1' & _).
        rewrite E1 in E1'. injection E1' as -> _ _. cbn. by rewrite Hd0. }
      destruct (with_plugin_call_run config (with_import import_matches config old) t1 w1)
        as [(new & Ew & Hinc & Hsame)|Ew].
      * erewrite p_bind_ok in E by exact Ew.
        destruct (modify_after_read path old new t w0 t1 w1 E1)
          as (t2 & w2 & E2 & Hd2 & Hq2 & Hread2).
        rewrite (lift_ok _ _ _ _ _ _ E2) in E. injection E as <- <- <-.
        split; [congruence|]. exists path, old, new. split_and!; try done.
        intros Hi1 Hi2. rewrite (with_import_same _ _ Hi1) in Hsame. auto.
      * erewrite p_bind_threw in E by exact Ew. injection E as <- <- <-.
        apply readFile_ok in E1 as (_ & Hq & _ & _ & _ & [Hd1 _]).
        split; [congruence|]. split; [done|]. right. by right.
    + erewrite p_bind_threw in E by (apply lift_err; exact E1).
      injection E as <- <- <-.
      apply readFile_err in E1 as (-> & -> & [Hd1 _]).
      split; [congruence|]. split; [done|]. right. left. eauto.
  - unfold p_throw in E. injection E as <- <- <-. split; [done|]. split; [done|].
    by left.
Qed.

(** X12.  [addDependency].  It makes no write and never creates
    [package.json].  When [readFile] throws on [package.json], the error
    is passed on and the object is as before.  When the computation on
    the JSON text throws, its error is passed on and nothing is staged.
    Otherwise one modify of [package.json] is staged: it is never
    rejected, and [readFile] returns the new text from then on. *)
Theorem addDependency_outcome name version type t w :
  let '(r, t', w') :=
    addDependency resolve relative rootDir json_with_dependency name version type t w in
  disk w' = disk w ∧
  match (readFile resolve relative rootDir "package.json" t w).1.1 with
  | Err e => r = Threw (TreeError (FileDoesNotExist "package.json")) ∧ t' = t
  | Ok old =>
      match json_with_dependency name version type old with
      | inl e => r = Threw e ∧ operationQueue t' = operationQueue t
      | inr new =>
          r = Returned tt ∧
          operationQueue t' =
            operationQueue t
              ++ [staged_operation t (key "package.json") modify (Some new)] ∧
          ∀ w2, readFile resolve relative rootDir "package.json" t' w2
                = (Ok new, t', w2)
      end
  end.
Proof.
  destruct (addDependency _ _ _ _ name version type t w) as [[r t'] w'] eqn:E.
  unfold addDependency in E.
  destruct (readFile resolve relative rootDir "package.json" t w)
    as [[[old|e] t1] w1] eqn:E1; cbn [fst].
  - erewrite p_bind_ok in E by (apply lift_ok; exact E1).
    destruct (json_with_dependency name version type old) as [e|new].
    + unfold p_throw in E. injection E as <- <- <-.
      apply readFile_ok in E1 as (_ & Hq & _ & _ & _ & [Hd1 _]). done.
    + destruct (modify_after_read _ old new t w t1 w1 E1)
        as (t2 & w2 & E2 & Hd2 & Hq2 & Hread2).
      rewrite (lift_ok _ _ _ _ _ _ E2) in E. by injection E as <- <- <-.
  - erewrite p_bind_threw in E by (apply lift_err; exact E1).
    injection E as <- <- <-.
    by apply readFile_err in E1 as (-> & -> & [Hd1 _]).
Qed.

End ContextFacts.

(** * Plugins that stage *)

Section StagesFacts.
Variable resolve : string → string → string.
Variable relative : string → string → string.
Variable dirname : string → string.
Variable rootDir : string.
Variable json_with_dependency :
  string → string → DependencyType → string → exn + string.
Variable import_matches : string → list (nat * string).
Variable plugins_match : string → option (nat * string).

Hypothesis resolve_relative :
  ∀ p, resolve rootDir (relative rootDir (resolve rootDir p)) = resolve rootDir p.

Local Abbreviation stages := (stages resolve relative rootDir).
Local Abbreviation kept := (kept resolve relative rootDir).

Lemma kept_refl d0 t w :
  wf resolve relative rootDir t → staged_on resolve rootDir d0 t w → kept d0 t w t w.
Proof. intros. split_and!; auto using reads_only_refl. Qed.

Lemma stages_ret {A} (a : A) : stages (p_ret a).
Proof. intros d0 t w Hwf Hst. by apply kept_refl. Qed.

Lemma stages_throw {A} e : stages (p_throw (A:=A) e).
Proof. intros d0 t w Hwf Hst. by apply kept_refl. Qed.

Lemma stages_bind {A B} (m : P A) (f : A → P B) :
  stages m → (∀ a, stages (f a)) → stages (p_bind m f).
Proof.
  intros Hm Hf d0 t w Hwf Hst. specialize (Hm d0 t w Hwf Hst). unfold p_bind.
  destruct (m t w) as [[[a|e] t1] w1]; cbn in Hm; [|done].
  eapply kept_trans; [exact Hm|]. destruct Hm as (? & ? & _). by apply Hf.
Qed.

Lemma stages_try {A} (m : P A) (h : exn → P A) :
  stages m → (∀ e, stages (h e)) → stages (p_try m h).
Proof.
  intros Hm Hh d0 t w Hwf Hst. specialize (Hm d0 t w Hwf Hst). unfold p_try.
  destruct (m t w) as [[[a|e] t1] w1]; cbn in Hm; [done|].
  eapply kept_trans; [exact Hm|]. destruct Hm as (? & ? & _). by apply Hh.
Qed.

Lemma stages_lift {A} (m : M A) :
  (∀ d0 t w r t' w', m t w = (r, t', w') →
     wf resolve relative rootDir t → staged_on resolve rootDir d0 t w →
     kept d0 t w t' w') →
  stages (lift m).
Proof.
  intros Hm d0 t w Hwf Hst. unfold lift.
  destruct (m t w) as [[r t1] w1] eqn:E. specialize (Hm _ _ _ _ _ _ E Hwf Hst).
  by destruct r.
Qed.

(** The staging methods, called through the context. *)
Lemma stages_call c : stages (lift (run_call resolve relative rootDir c)).
Proof. apply stages_lift. intros. by eapply run_call_kept. Qed.

Lemma stages_readFile path : stages (lift (readFile resolve relative rootDir path)).
Proof. apply stages_lift. intros. by eapply readFile_kept. Qed.

Lemma stages_fileExists path : stages (lift (fileExists resolve relative rootDir path)).
Proof. apply stages_lift. intros. by eapply fileExists_kept. Qed.

Lemma stages_createFile path content :
  stages (lift (createFile resolve relative rootDir path content)).
Proof. exact (stages_call (CreateFile path content)). Qed.

Lemma stages_modifyFile path content :
  stages (lift (modifyFile resolve relative rootDir path content)).
Proof. exact (stages_call (ModifyFile path content)). Qed.

Lemma stages_findViteConfig : stages (lift (_findViteConfig resolve relative rootDir)).
Proof.
  apply stages_lift. intros d0 t w r t' w' E Hwf Hst.
  destruct (first_existing_run resolve relative rootDir possibleConfigs t w)
    as (w0 & E0 & R0).
  unfold _findViteConfig in E. rewrite E0 in E. injection E as _ <- <-.
  destruct Hst as [Hd Hst]. split_and!; [done | | done | done].
  split; [by rewrite (proj1 R0) | done].
Qed.

Lemma stages_addDependency name version type :
  stages (addDependency resolve relative rootDir json_with_dependency name version type).
Proof.
  unfold addDependency. apply stages_bind; [apply stages_readFile|].
  intros content. destruct (json_with_dependency _ _ _ _).
  - apply stages_throw.
  - apply stages_modifyFile.
Qed.

Lemma stages_addVitePlugin config :
  stages (addVitePlugin resolve relative rootDir import_matches plugins_match config).
Proof.
  unfold addVitePlugin. apply stages_bind; [apply stages_findViteConfig|].
  intros [path|]; [|apply stages_throw].
  apply stages_bind; [apply stages_readFile|]. intros content.
  apply stages_bind; [|intros; apply stages_modifyFile].
  unfold with_plugin_call. destruct (negb _); [|apply stages_ret].
  destruct (plugins_match _); [apply stages_ret | apply stages_throw].
Qed.

End StagesFacts.

(** * Commit, then rollback *)

Section RoundTripFacts.
Variable resolve : string → string → string.
Variable relative : string → string → string.
Variable dirname : string → string.
Variable rootDir : string.

Hypothesis resolve_relative :
  ∀ p, resolve rootDir (relative rootDir (resolve rootDir p)) = resolve rootDir p.




End RoundTripFacts.

(** * [runPlugin] *)

Section RunPluginFacts.
Variable resolve : string → string → string.
Variable relative : string → string → string.
Variable dirname : string → string.
Variable rootDir : string.

Hypothesis resolve_relative :
  ∀ p, resolve rootDir (relative rootDir (resolve rootDir p)) = resolve rootDir p.

Local Abbreviation stages := (stages resolve relative rootDir).
Local Abbreviation runPlugin := (runPlugin resolve dirname rootDir).

(** What a plugin that stages leaves of a fresh object. *)
Lemma stages_from_fresh (pluginFn : PluginFunction) w r t1 w1 :
  stages pluginFn → pluginFn fresh w = (r, t1, w1) →
  wf resolve relative rootDir t1 ∧ staged_on resolve rootDir (disk w) t1 w1 ∧
  reads_only w w1 ∧ isCommitted t1 = false.
Proof.
  intros Hs E.
  pose proof (Hs (disk w) fresh w (wf_fresh resolve relative rootDir)
                (staged_on_fresh resolve rootDir w)) as H.
  by rewrite E in H.
Qed.

Lemma runPlugin_unfold (pluginFn : PluginFunction) w :
  runPlugin pluginFn w
  = p_try (p_bind pluginFn (λ _, lift (commit resolve dirname rootDir)))
      (λ error, p_bind (lift (rollback resolve rootDir)) (λ _, p_throw error))
      fresh w.
Proof. reflexivity. Qed.

(** X14.  A plugin that throws changes nothing.  The plugin stages (it
    makes no write and does not commit) and throws.  Then [runPlugin]
    throws the same error, the rollback makes no call of the file system,
    and the disk is what it was before [runPlugin]: no call of
    [runPlugin] was a write. *)
Theorem runPlugin_failure_is_atomic (pluginFn : PluginFunction) w e t1 w1 :
  stages pluginFn →
  pluginFn fresh w = (Threw e, t1, w1) →
  ∃ t2, runPlugin pluginFn w = (Threw e, t2, w1) ∧
        operationQueue t2 = [] ∧ latestContent t2 = JsMap.empty ∧
        disk w1 = disk w ∧
        Forall (λ c, is_write c = false) (calls_since w w1).
Proof.
  intros Hs E. destruct (stages_from_fresh _ _ _ _ _ Hs E)
    as (_ & _ & [Hd (cs & Hcs & Hf)] & Hc).
  rewrite runPlugin_unfold. unfold p_try.
  erewrite p_bind_threw by exact E.
  erewrite p_bind_ok by (apply lift_ok, rollback_uncommitted, Hc).
  eexists. split; [reflexivity|]. split_and!; try done.
  by rewrite (calls_since_app _ _ _ Hcs).
Qed.


(** X16.  A commit that fails inside [runPlugin].  The plugin stages and
    returns, and the commit throws.  Then [runPlugin] throws the error of
    the commit, "Failed to commit changes"; the object not being
    committed, the rollback of [runPlugin] makes no call of the file
    system, and the disk is what the failed commit left: its writes are
    not undone. *)
Theorem runPlugin_failed_commit (pluginFn : PluginFunction) w t1 w1 e t2 w2 :
  stages pluginFn →
  pluginFn fresh w = (Returned tt, t1, w1) →
  commit resolve dirname rootDir t1 w1 = (Err e, t2, w2) →
  (∃ cause, e = FailedToCommit cause) ∧
  ∃ t3, runPlugin pluginFn w = (Threw (TreeError e), t3, w2) ∧
        operationQueue t3 = [] ∧ isCommitted t3 = false.
Proof.
  intros Hs E Ecommit. destruct (stages_from_fresh _ _ _ _ _ Hs E) as (_ & _ & _ & Hc).
  destruct (commit_outcome resolve dirname rootDir _ _ _ _ _ Hc Ecommit)
    as (_ & _ & _ & _ & _ & _ & _ & [[? _]|[-> Herr]]); [done|].
  split.
  - destruct Herr as [(op & _ & [= ->])|(k & st & _ & _ & [= ->])]; eauto.
  - rewrite runPlugin_unfold. unfold p_try.
    erewrite p_bind_ok by exact E. rewrite (lift_err _ _ _ _ _ _ Ecommit).
    erewrite p_bind_ok by (apply lift_ok, rollback_uncommitted, Hc).
    eexists. split; [reflexivity|]. done.
Qed.


End RunPluginFacts.

(** * Examples of the properties of the staging methods *)

(** A file of the disk is read and content is appended to it. *)
Lemma read_then_stage_witness :
  let w0 := Posix.start {["/r/a.txt" := File "x"]} in
  let r := Posix.readFile "a.txt" fresh w0 in
  Posix.readFile "a.txt" fresh w0 = (Ok "x", r.1.2, r.2)
  ∧ ∃ t2 w2,
      Example.appendToFile "a.txt" "!" r.1.2 r.2 = (Ok tt, t2, w2)
      ∧ disk w2 = disk w0
      ∧ ∀ w3, Posix.readFile "a.txt" t2 w3 = (Ok "x!", t2, w3).
Proof.
  intros w0 r.
  assert (Posix.readFile "a.txt" fresh w0 = (Ok "x", r.1.2, r.2)) as E
    by (vm_compute; reflexivity).
  split; [exact E|].
  exact (proj1 (proj2 (read_then_stage Posix.resolve Posix.relative Posix.rootDir
                         "a.txt" "x" "!" fresh w0 r.1.2 r.2 E))).
Defined.

(** A scenario of the tests: a file of the disk is deleted and created
    again. *)
Lemma delete_then_witness :
  let w0 := Posix.start {["/r/existing.txt" := File "existing content"]} in
  let d := Posix.deleteFile "existing.txt" fresh w0 in
  Posix.deleteFile "existing.txt" fresh w0 = (Ok tt, d.1.2, d.2)
  ∧ (∀ w2, Posix.fileExists "existing.txt" d.1.2 w2 = (Ok false, d.1.2, w2))
  ∧ ∃ t3 w3,
      Posix.createFile "existing.txt" "new content" d.1.2 d.2 = (Ok tt, t3, w3)
      ∧ ∀ w4, Posix.readFile "existing.txt" t3 w4 = (Ok "new content", t3, w4).
Proof.
  intros w0 d.
  assert (Posix.deleteFile "existing.txt" fresh w0 = (Ok tt, d.1.2, d.2)) as E
    by (vm_compute; reflexivity).
  split; [exact E|].
  pose proof (delete_then Posix.resolve Posix.relative Posix.rootDir
                "existing.txt" fresh w0 d.1.2 d.2 E) as H.
  split; [exact (proj1 H)|].
  exact (proj2 (proj2 (proj2 H)) "new content" d.2).
Defined.

(** A test of the repository: a file is created twice. *)
Lemma create_then_witness :
  let c := Posix.createFile "test.txt" "content" fresh (Posix.start ∅) in
  (Posix.createFile "test.txt" "content" fresh (Posix.start ∅) = (Ok tt, c.1.2, c.2)
   ∧ has_delete "test.txt" (operationQueue fresh) = false)
  ∧ (∀ w2, Posix.readFile "test.txt" c.1.2 w2 = (Ok "content", c.1.2, w2))
  ∧ ∃ t3 w3,
      Posix.createFile "test.txt" "other" c.1.2 c.2
      = (Err (CannotCreate "test.txt"), t3, w3)
      ∧ operationQueue t3 = operationQueue c.1.2.
Proof.
  intros c.
  assert (Posix.createFile "test.txt" "content" fresh (Posix.start ∅)
          = (Ok tt, c.1.2, c.2)) as E by (vm_compute; reflexivity).
  split; [by split|].
  pose proof (create_then Posix.resolve Posix.relative Posix.rootDir
                "test.txt" "content" fresh (Posix.start ∅) c.1.2 c.2 E) as H.
  split; [exact (proj1 (proj2 H))|].
  destruct (proj2 (proj2 H) eq_refl "other" c.2) as (t3 & w3 & E3 & Hq & _).
  by exists t3, w3.
Defined.


(** A file is read; a directory is not, and the error is the one of a
    missing file. *)
Lemma read_is_cached_witness :
  let w0 := Posix.start {["/r/a.txt" := File "x"; "/r/d" := Dir]} in
  let r := Posix.readFile "a.txt" fresh w0 in
  let r' := Posix.readFile "d" fresh w0 in
  (Posix.readFile "a.txt" fresh w0 = (Ok "x", r.1.2, r.2)
   ∧ Posix.readFile "d" fresh w0 = (r'.1.1, r'.1.2, r'.2))
  ∧ (∀ w2, Posix.readFile "a.txt" r.1.2 w2 = (Ok "x", r.1.2, w2))
  ∧ r'.1.1 = Err (FileDoesNotExist "d") ∧ r'.1.2 = fresh.
Proof.
  intros w0 r r'.
  assert (Posix.readFile "a.txt" fresh w0 = (Ok "x", r.1.2, r.2)) as E
    by (vm_compute; reflexivity).
  assert (Posix.readFile "d" fresh w0 = (Err (FileDoesNotExist "d"), r'.1.2, r'.2)) as E'
    by (vm_compute; reflexivity).
  split; [split; [exact E | vm_compute; reflexivity]|].
  split.
  - exact (proj2 (read_is_cached Posix.resolve Posix.relative Posix.rootDir
                    "a.txt" fresh w0 _ r.1.2 r.2 E)).
  - split; [reflexivity|].
    exact (proj2 (proj2 (read_is_cached Posix.resolve Posix.relative Posix.rootDir
                           "d" fresh w0 _ r'.1.2 r'.2 E'))).
Defined.

(** Two files are created, around a call that is rejected. *)
Lemma operation_ids_count_witness :
  let cs := [CreateFile "a.txt" "x"; ModifyFile "missing" "y"; CreateFile "b.txt" "z"] in
  let s := Posix.run_calls cs fresh (Posix.start ∅) in
  Posix.run_calls cs fresh (Posix.start ∅) = (s.1, s.2)
  ∧ operationCounter s.1 = 2
  ∧ op_id <$> operationQueue s.1 = ["op_1"; "op_2"].
Proof.
  intros cs s. split; [apply surjective_pairing|].
  pose proof (operation_ids_count Posix.resolve Posix.relative Posix.rootDir
                (Posix.start ∅) cs s.1 s.2 (surjective_pairing s)) as H.
  split; [exact (proj1 H) | exact (proj1 (proj2 H))].
Defined.

(** A file of the disk is deleted and then overwritten. *)
Lemma overwrite_is_accepted_witness :
  let w0 := Posix.start {["/r/existing.txt" := File "existing content"]} in
  let cs := [DeleteFile "existing.txt"] in
  let s := Posix.run_calls cs fresh w0 in
  Posix.run_calls cs fresh w0 = (s.1, s.2)
  ∧ ∃ t1 w1,
      Example.overwriteFile "existing.txt" "new content" s.1 s.2 = (Ok tt, t1, w1)
      ∧ ∀ w2, Posix.readFile "existing.txt" t1 w2 = (Ok "new content", t1, w2).
Proof.
  intros w0 cs s. split; [apply surjective_pairing|].
  destruct (overwrite_is_accepted Posix.resolve Posix.relative Posix.rootDir
              Posix_resolve_relative w0 cs s.1 s.2 "existing.txt" "new content"
              (surjective_pairing s)) as (t1 & w1 & E & _ & Hr).
  exists t1, w1. split; [exact E|]. by apply Hr.
Defined.

(** * Examples of the properties of commit and rollback *)

(** The directories above [/r/sub/a.txt]. *)
Lemma Posix_above_sub_a_txt p :
  above Posix.dirname p "/r/sub/a.txt" → p = "/r/sub" ∨ p = "/r" ∨ p = "/".
Proof.
  intros [n ->]. induction n as [|n IH]; [by left|].
  change (Nat.iter (S (S n)) Posix.dirname "/r/sub/a.txt")
    with (Posix.dirname (Nat.iter (S n) Posix.dirname "/r/sub/a.txt")).
  destruct IH as [-> | [-> | ->]]; right; [by left | by right | by right].
Qed.

(** A file is created in a directory and committed: another path is not
    touched. *)
Lemma commit_touches_only_witness :
  let w0 := Posix.start {["/r/other.txt" := File "o"]} in
  let s := Posix.run_calls [CreateFile "sub/a.txt" "x"] fresh w0 in
  let c := Posix.commit s.1 s.2 in
  Posix.commit s.1 s.2 = (Ok tt, c.1.2, c.2)
  ∧ calls_since s.2 c.2 = [CallMkdir "/r/sub"; CallWriteFile "/r/sub/a.txt" "x"]
  ∧ disk c.2 !! "/r/other.txt" = disk s.2 !! "/r/other.txt".
Proof.
  intros w0 s c.
  assert (Posix.commit s.1 s.2 = (Ok tt, c.1.2, c.2)) as E
    by (vm_compute; reflexivity).
  split; [exact E|]. split; [vm_compute; reflexivity|].
  apply (proj2 (commit_touches_only Posix.resolve Posix.dirname Posix.rootDir
                  s.1 s.2 _ c.1.2 c.2 E) "/r/other.txt").
  - intros op Hop. vm_compute in Hop.
    apply list_elem_of_singleton in Hop as ->.
    intros Habove. apply Posix_above_sub_a_txt in Habove.
    by destruct Habove as [? | [? | ?]].
  - intros k Hk. vm_compute in Hk.
    apply list_elem_of_singleton in Hk as ->. by vm_compute.
Defined.

(** A file, and a file and a directory of one name, are created.  The
    commit creates the directory, writes the first file and fails on the
    second; the rollback makes no call, and the first file stays. *)
Lemma failed_commit_is_not_undone_witness :
  let w0 := Posix.start ∅ in
  let cs := [CreateFile "a.txt" "x"; CreateFile "sub" "y"; CreateFile "sub/f" "z"] in
  let s := Posix.run_calls cs fresh w0 in
  let c := Posix.commit s.1 s.2 in
  (isCommitted s.1 = false
   ∧ Posix.commit s.1 s.2
     = (Err (FailedToCommit (FsError EISDIR "/r/sub")), c.1.2, c.2))
  ∧ (∃ t2, Posix.rollback c.1.2 c.2 = (Ok tt, t2, c.2) ∧ operationQueue t2 = [])
  ∧ disk w0 !! "/r/a.txt" = None
  ∧ disk c.2 !! "/r/a.txt" = Some (File "x").
Proof.
  intros w0 cs s c.
  assert (Posix.commit s.1 s.2
          = (Err (FailedToCommit (FsError EISDIR "/r/sub")), c.1.2, c.2)) as E
    by (vm_compute; reflexivity).
  split; [by split|].
  destruct (failed_commit_is_not_undone Posix.resolve Posix.dirname Posix.rootDir
              s.1 s.2 _ c.1.2 c.2 eq_refl E) as (_ & _ & t2 & Hr & Hq & _).
  split; [by exists t2|]. split; vm_compute; reflexivity.
Defined.

Lemma Example_insert_sorted_permutation x l : Example.insert_sorted x l ≡ₚ x :: l.
Proof.
  induction l as [|y l IH]; [done|]. cbn. destruct (String.leb x y); [done|].
  rewrite IH. apply Permutation_swap.
Qed.

Lemma Example_sort_permutation l : Example.Array_sort l ≡ₚ l.
Proof.
  induction l as [|x l IH]; [done|]. cbn.
  by rewrite Example_insert_sorted_permutation, IH.
Qed.

(** Two files are created, around a call that is rejected. *)
Lemma changed_files_are_tracked_witness :
  let cs := [CreateFile "b.txt" "x"; ModifyFile "missing" "y"; CreateFile "a.txt" "z"] in
  let s := Posix.run_calls cs fresh (Posix.start ∅) in
  Posix.run_calls cs fresh (Posix.start ∅) = (s.1, s.2)
  ∧ Example.getChangedFiles s.1 = ["a.txt"; "b.txt"]
  ∧ getTrackedFiles s.1 = ["b.txt"; "missing"; "a.txt"]
  ∧ NoDup (Example.getChangedFiles s.1)
  ∧ "a.txt" ∈ getTrackedFiles s.1.
Proof.
  intros cs s. split; [apply surjective_pairing|].
  split; [vm_compute; reflexivity|]. split; [vm_compute; reflexivity|].
  pose proof (changed_files_are_tracked Posix.resolve Posix.relative Posix.rootDir
                Example.Array_sort Posix_resolve_relative Example_sort_permutation
                (Posix.start ∅) cs s.1 s.2 (surjective_pairing s)) as [Hnd H].
  split; [exact Hnd|].
  apply (proj2 (H "a.txt")). vm_compute. repeat constructor.
Defined.


(** * Examples of [runPlugin] *)

Lemma Example_call_stages c : Example.stages (Example.call c).
Proof. apply stages_call, Posix_resolve_relative. Qed.

Lemma Example_throwing_plugin_stages : Example.stages Example.throwing_plugin.
Proof.
  apply stages_bind; [apply Example_call_stages | intros _; apply stages_throw].
Qed.


Lemma Example_clashing_plugin_stages : Example.stages Example.clashing_plugin.
Proof.
  apply stages_bind; [apply Example_call_stages | intros _].
  apply stages_bind; [|intros _]; apply Example_call_stages.
Qed.

(** A plugin stages a file and throws: the file is not on the disk. *)
Lemma runPlugin_failure_is_atomic_witness :
  let w0 := Posix.start {["/r/package.json" := File "{}"]} in
  let p := Example.throwing_plugin fresh w0 in
  (Example.stages Example.throwing_plugin
   ∧ Example.throwing_plugin fresh w0 = (Threw (PluginError "Plugin error"), p.1.2, p.2))
  ∧ ∃ t2, Example.runPlugin Example.throwing_plugin w0
          = (Threw (PluginError "Plugin error"), t2, p.2)
      ∧ operationQueue t2 = []
      ∧ disk p.2 = disk w0.
Proof.
  intros w0 p.
  assert (Example.throwing_plugin fresh w0
          = (Threw (PluginError "Plugin error"), p.1.2, p.2)) as E
    by (vm_compute; reflexivity).
  split; [split; [apply Example_throwing_plugin_stages | exact E]|].
  destruct (runPlugin_failure_is_atomic Posix.resolve Posix.relative Posix.dirname
              Posix.rootDir Example.throwing_plugin w0 _ p.1.2 p.2
              Example_throwing_plugin_stages E) as (t2 & Hr & Hq & _ & Hd & _).
  by exists t2.
Defined.


(** A plugin stages a file, and a file and a directory of one name: the
    commit of [runPlugin] fails after it wrote the first file, which
    stays on the disk. *)
Lemma runPlugin_failed_commit_witness :
  let w0 := Posix.start ∅ in
  let p := Example.clashing_plugin fresh w0 in
  let c := Posix.commit p.1.2 p.2 in
  (Example.stages Example.clashing_plugin
   ∧ Example.clashing_plugin fresh w0 = (Returned tt, p.1.2, p.2)
   ∧ Posix.commit p.1.2 p.2
     = (Err (FailedToCommit (FsError EISDIR "/r/sub")), c.1.2, c.2))
  ∧ (∃ t3, Example.runPlugin Example.clashing_plugin w0
           = (Threw (TreeError (FailedToCommit (FsError EISDIR "/r/sub"))), t3, c.2))
  ∧ disk w0 !! "/r/a.txt" = None
  ∧ disk c.2 !! "/r/a.txt" = Some (File "x").
Proof.
  intros w0 p c.
  assert (Example.clashing_plugin fresh w0 = (Returned tt, p.1.2, p.2)) as E
    by (vm_compute; reflexivity).
  assert (Posix.commit p.1.2 p.2
          = (Err (FailedToCommit (FsError EISDIR "/r/sub")), c.1.2, c.2)) as Ec
    by (vm_compute; reflexivity).
  split; [split_and!; [apply Example_clashing_plugin_stages | exact E | exact Ec]|].
  destruct (runPlugin_failed_commit Posix.resolve Posix.relative Posix.dirname
              Posix.rootDir Example.clashing_plugin w0 p.1.2 p.2 _ c.1.2 c.2
              Example_clashing_plugin_stages E Ec) as (_ & t3 & Hr & _).
  split; [by exists t3|]. split; vm_compute; reflexivity.
Defined.


(** * Where an external plugin is fetched from *)

Lemma prefix_app_r (p s1 s2 : string) :
  String.prefix p s1 = true → String.prefix p (s1 +:+ s2) = true.
Proof.
  revert s1. induction p as [|c p IH]; intros s1.
  { intros _. by destruct (s1 +:+ s2). }
  destruct s1 as [|c1 s1]; [done|]. simpl.
  destruct (ascii_dec c c1); [apply IH | done].
Qed.

Lemma prefix_split (p s : string) :
  String.prefix p s = true → s = p +:+ slice_from (String.length p) s.
Proof.
  revert s. induction p as [|c p IH]; intros s; [by destruct s|].
  destruct s as [|c1 s]; [done|]. simpl.
  destruct (ascii_dec c c1) as [->|]; [|done].
  intros H. apply IH in H. exact (f_equal (String c1) H).
Qed.

Lemma prefix_empty (s : string) : String.prefix "" s = true.
Proof. by destruct s. Qed.

Lemma prefix_String c (p s : string) :
  String.prefix (String c p) (String c s) = String.prefix p s.
Proof. simpl. by destruct (ascii_dec c c). Qed.

(** Replacing the first [/blob/] keeps a leading [/]. *)
Lemma replace_blob_slash s :
  String.prefix "/" (replace (String "/" s) "/blob/" "/") = true.
Proof.
  cbn [replace]. destruct (String.prefix "/blob/" (String "/" s)).
  - change ("/" +:+ ?x) with (String "/" x). by rewrite prefix_String, prefix_empty.
  - by rewrite prefix_String, prefix_empty.
Qed.

Lemma prefix_app_app (a p s : string) :
  String.prefix (a +:+ p) (a +:+ s) = String.prefix p s.
Proof.
  induction a as [|c a IH]; [done|].
  change (String.prefix (String c (a +:+ p)) (String c (a +:+ s)) = String.prefix p s).
  by rewrite prefix_String.
Qed.

(** X18.  Where an external plugin is fetched from.  For every path that
    [isGitHubUrl] accepts, which are the paths that [loadPlugin] loads as
    external plugins, the URL that [convertToRawGitHubUrl] returns, which
    is the one that is fetched, starts with
    [https://raw.githubusercontent.com/]. *)
Theorem external_plugin_is_fetched_from_raw url :
  isGitHubUrl url = true →
  startsWith (convertToRawGitHubUrl url) "https://raw.githubusercontent.com/" = true.
Proof.
  unfold isGitHubUrl, startsWith, convertToRawGitHubUrl.
  destruct (String.prefix "github:" url) eqn:Hshort.
  - intros _. unfold startsWith. rewrite Hshort. apply prefix_app.
  - rewrite orb_false_r. intros Hlong. unfold startsWith. rewrite Hshort.
    apply prefix_split in Hlong. set (rest := slice_from _ url) in Hlong.
    clearbody rest. subst url.
    assert (replace ("https://github.com/" +:+ rest) "github.com"
              "raw.githubusercontent.com"
            = "https://raw.githubusercontent.com/" +:+ rest) as -> by reflexivity.
    destruct (_ && _).
    + assert (replace ("https://raw.githubusercontent.com/" +:+ rest) "/blob/" "/"
              = "https://raw.githubusercontent.com"
                  +:+ replace (String "/" rest) "/blob/" "/") as -> by reflexivity.
      change "https://raw.githubusercontent.com/"
        with ("https://raw.githubusercontent.com" +:+ "/").
      rewrite prefix_app_app. apply replace_blob_slash.
    + apply prefix_app_r, prefix_app.
Qed.

(** The two forms of the registry: the shorthand and the page of a file. *)
Lemma external_plugin_is_fetched_from_raw_witness :
  isGitHubUrl "github:qwik-community/awesome-plugin/plugin.ts" = true
  ∧ startsWith (convertToRawGitHubUrl "github:qwik-community/awesome-plugin/plugin.ts")
      "https://raw.githubusercontent.com/" = true
  ∧ convertToRawGitHubUrl "github:qwik-community/awesome-plugin/plugin.ts"
    = "https://raw.githubusercontent.com/qwik-community/awesome-plugin/main/plugin.ts"
  ∧ convertToRawGitHubUrl
      "https://github.com/user/qwik-theme-plugin/blob/main/src/plugin.ts"
    = "https://raw.githubusercontent.com/user/qwik-theme-plugin/main/src/plugin.ts"
  ∧ convertToRawGitHubUrl "github:owner"
    = "https://raw.githubusercontent.com/owner/undefined/main/plugin.ts".
Proof.
  split; [reflexivity|]. split.
  - exact (external_plugin_is_fetched_from_raw
             "github:qwik-community/awesome-plugin/plugin.ts" eq_refl).
  - split_and!; vm_compute; reflexivity.
Defined.

(** * The Tailwind plugin *)

Section TailwindFacts.
Variable resolve : string → string → string.
Variable relative : string → string → string.
Variable dirname : string → string.
Variable rootDir : string.
Variable json_with_dependency :
  string → string → DependencyType → string → exn + string.
Variable import_matches : string → list (nat * string).
Variable plugins_match : string → option (nat * string).

Hypothesis resolve_relative :
  ∀ p, resolve rootDir (relative rootDir (resolve rootDir p)) = resolve rootDir p.

Local Notation "'key' path" := (relative rootDir (resolve rootDir path))
  (at level 10, path at level 9, only parsing).
Local Abbreviation add_dependency :=
  (addDependency resolve relative rootDir json_with_dependency).
Local Abbreviation add_vite_plugin :=
  (addVitePlugin resolve relative rootDir import_matches plugins_match).
Local Abbreviation tailwind :=
  (tailwindPlugin resolve relative rootDir json_with_dependency import_matches
     plugins_match).

(** [addDependency] caches and stages [package.json] alone. *)
Lemma addDependency_run name version type t w :
  ∃ r t' w',
    add_dependency name version type t w = (r, t', w') ∧
    disk w' = disk w ∧
    (∀ k, k ≠ key "package.json" →
          JsMap.get k (latestContent t') = JsMap.get k (latestContent t)) ∧
    (∀ e, r = Threw e →
          e = TreeError (FileDoesNotExist "package.json")
          ∨ ∃ content, json_with_dependency name version type content = inl e).
Proof.
  unfold addDependency.
  destruct (readFile resolve relative rootDir "package.json" t w)
    as [[[old|e] t1] w1] eqn:E1.
  - assert (∀ k, k ≠ key "package.json" →
                 JsMap.get k (latestContent t1) = JsMap.get k (latestContent t)) as F1.
    { intros k Hk.
      destruct (readFile_run resolve relative rootDir "package.json" t w)
        as (w0 & E0 & _).
      rewrite E1 in E0. injection E0 as _ -> _.
      destruct (JsMap.get (key "package.json") (latestContent t)); [done|].
      destruct (disk w !! _) as [[c|]|]; try done.
      cbn. by rewrite JsMapFacts.get_set_ne. }
    pose proof (readFile_ok _ _ _ _ _ _ _ _ _ E1) as (_ & _ & _ & _ & _ & [Hd1 _]).
    erewrite p_bind_ok by (apply lift_ok; exact E1).
    destruct (json_with_dependency name version type old) as [e|new] eqn:Ejson.
    + exists (Threw e), t1, w1. split_and!; [done | done | done |].
      intros e' [= <-]. right. eauto.
    + unfold modifyFile.
      destruct (addOperation_cases resolve relative rootDir "package.json" modify
                  (Some new) t1 w1)
        as (r2 & t2 & w2 & E2 & [Hd2 _] & _ & _ & Hcases).
      unfold lift. rewrite E2.
      assert (∀ k, k ≠ key "package.json" →
                   JsMap.get k (latestContent t2) = JsMap.get k (latestContent t)) as F2.
      { intros k Hk. rewrite <- (F1 k Hk).
        destruct Hcases as [(e & _ & _ & _ & -> & _)|(_ & _ & -> & _)]; [done|].
        by rewrite JsMapFacts.get_set_ne. }
      destruct r2 as [[]|e].
      * do 3 eexists. split_and!; [done | congruence | done | done].
      * exfalso. destruct (modify_after_read resolve relative rootDir
                             "package.json" old new t w t1 w1 E1)
          as (? & ? & E3 & _). unfold modifyFile in E3. congruence.
  - erewrite p_bind_threw by (apply lift_err; exact E1).
    apply readFile_err in E1 as (-> & -> & [Hd1 _]).
    do 3 eexists. split_and!; [done | done | done |].
    intros e' [= <-]. by left.
Qed.

Lemma addVitePlugin_no_config config t w :
  find (current_exists resolve relative rootDir t (disk w)) possibleConfigs = None →
  ∃ w', add_vite_plugin config t w
        = (Threw (PluginError "No vite.config file found. Cannot add plugin."), t, w')
        ∧ disk w' = disk w.
Proof.
  intros Hfind. unfold addVitePlugin, _findViteConfig.
  destruct (first_existing_run resolve relative rootDir possibleConfigs t w)
    as (w0 & E0 & [Hd0 _]).
  rewrite Hfind in E0. erewrite p_bind_ok by (apply lift_ok; exact E0).
  by exists w0.
Qed.

Lemma stages_tailwindPlugin : stages resolve relative rootDir tailwind.
Proof.
  unfold tailwindPlugin.
  repeat (apply stages_bind; [by apply stages_addDependency|]; intros _).
  apply stages_bind; [by apply stages_addVitePlugin | intros _].
  apply stages_bind; [by apply stages_createFile | intros _].
  by apply stages_createFile.
Qed.

(** X19.  The Tailwind plugin needs a vite config.  On a project root
    where none of [vite.config.ts], [vite.config.js], [vite.config.mjs]
    exists (and none of them is [package.json]), [runPlugin] on
    [tailwindPlugin] throws: "No vite.config file found", or else what
    [addDependency] threw before, "File package.json does not exist" or an
    error of the computation on the JSON text.  The dependencies that
    were staged are discarded: no call of [runPlugin] is a write, and the
    disk is as before. *)
Theorem tailwind_needs_vite_config w :
  (∀ config, config ∈ possibleConfigs →
     resolve rootDir config ≠ resolve rootDir "package.json" ∧
     disk w !! resolve rootDir config = None) →
  ∃ e t' w',
    runPlugin resolve dirname rootDir tailwind w = (Threw e, t', w') ∧
    operationQueue t' = [] ∧ disk w' = disk w ∧
    Forall (λ c, is_write c = false) (calls_since w w') ∧
    (e = PluginError "No vite.config file found. Cannot add plugin."
     ∨ e = TreeError (FileDoesNotExist "package.json")
     ∨ ∃ name version content,
         json_with_dependency name version devDependencies content = inl e).
Proof.
  intros Hconfigs.
  (* the plugin throws *)
  assert (∃ e t1 w1, tailwind fresh w = (Threw e, t1, w1) ∧
            (e = PluginError "No vite.config file found. Cannot add plugin."
             ∨ e = TreeError (FileDoesNotExist "package.json")
             ∨ ∃ name version content,
                 json_with_dependency name version devDependencies content = inl e))
    as (e & t1 & w1 & E & He).
  { assert (∀ t0 w0, disk w0 = disk w →
              (∀ k, k ≠ key "package.json" → JsMap.get k (latestContent t0) = None) →
              find (current_exists resolve relative rootDir t0 (disk w0)) possibleConfigs
              = None) as Hnone.
    { intros t0 w0 Hd0 Hl0.
      assert (∀ config, config ∈ possibleConfigs →
                current_exists resolve relative rootDir t0 (disk w0) config = false)
        as Hex.
      { intros config Hin. destruct (Hconfigs config Hin) as [Hne Hdisk].
        unfold current_exists, disk_exists. rewrite Hl0, Hd0, Hdisk; [done|].
        intros Heq. apply Hne. by rewrite <- resolve_relative, Heq, resolve_relative. }
      unfold possibleConfigs in *. cbn [find].
      rewrite !Hex; [done | | |]; repeat constructor. }
    unfold tailwindPlugin.
    destruct (addDependency_run "tailwindcss" "^4.0.0" devDependencies fresh w)
      as (r1 & t1 & w1 & E1 & Hd1 & Hl1 & Hr1).
    destruct r1 as [[]|e]; cycle 1.
    { exists e, t1, w1. split; [by erewrite p_bind_threw by exact E1|].
      destruct (Hr1 e eq_refl) as [->|(? & ?)]; eauto 8. }
    erewrite p_bind_ok by exact E1.
    destruct (addDependency_run "@tailwindcss/vite" "^4.0.0" devDependencies t1 w1)
      as (r2 & t2 & w2 & E2 & Hd2 & Hl2 & Hr2).
    destruct r2 as [[]|e]; cycle 1.
    { exists e, t2, w2. split; [by erewrite p_bind_threw by exact E2|].
      destruct (Hr2 e eq_refl) as [->|(? & ?)]; eauto 8. }
    erewrite p_bind_ok by exact E2.
    destruct (addDependency_run "prettier-plugin-tailwindcss" "^0.6.11"
                devDependencies t2 w2)
      as (r3 & t3 & w3 & E3 & Hd3 & Hl3 & Hr3).
    destruct r3 as [[]|e]; cycle 1.
    { exists e, t3, w3. split; [by erewrite p_bind_threw by exact E3|].
      destruct (Hr3 e eq_refl) as [->|(? & ?)]; eauto 8. }
    erewrite p_bind_ok by exact E3.
    destruct (addVitePlugin_no_config
                {| importPath := "@tailwindcss/vite"; defaultImport := "tailwindcss";
                   pluginCall := "tailwindcss()" |} t3 w3) as (w4 & E4 & Hd4).
    { apply Hnone; [congruence|]. intros k Hk. by rewrite Hl3, Hl2, Hl1. }
    do 3 eexists. split; [by erewrite p_bind_threw by exact E4|]. by left. }
  (* and [runPlugin] discards what it staged *)
  destruct (stages_from_fresh resolve relative rootDir _ _ _ _ _ stages_tailwindPlugin E)
    as (_ & _ & [Hd (cs & Hcs & Hf)] & Hc).
  exists e. do 2 eexists. split_and!; [| | exact Hd | | exact He].
  - rewrite runPlugin_unfold. unfold p_try.
    erewrite p_bind_threw by exact E.
    erewrite p_bind_ok by (apply lift_ok, rollback_uncommitted, Hc). reflexivity.
  - done.
  - by rewrite (calls_since_app _ _ _ Hcs).
Qed.

End TailwindFacts.

(** The test of the repository: the project has a [package.json] and no
    vite config.  [runPlugin] throws and the disk is as before. *)
Lemma tailwind_needs_vite_config_witness :
  let w0 := Posix.start {["/r/package.json" := File (Example.package_json [])]} in
  (∀ config, config ∈ possibleConfigs →
     Posix.resolve Posix.rootDir config ≠ Posix.resolve Posix.rootDir "package.json" ∧
     disk w0 !! Posix.resolve Posix.rootDir config = None)
  ∧ ∃ t' w',
      Example.runPlugin Example.tailwindPlugin w0
      = (Threw (PluginError "No vite.config file found. Cannot add plugin."), t', w')
      ∧ disk w' = disk w0.
Proof.
  intros w0.
  assert (∀ config, config ∈ possibleConfigs →
            Posix.resolve Posix.rootDir config
            ≠ Posix.resolve Posix.rootDir "package.json" ∧
            disk w0 !! Posix.resolve Posix.rootDir config = None) as H.
  { intros config Hin. apply list_elem_of_In in Hin.
    destruct Hin as [<-|[<-|[<-|[]]]]; by split. }
  split; [exact H|].
  destruct (tailwind_needs_vite_config Posix.resolve Posix.relative Posix.dirname
              Posix.rootDir Example.json_with_dependency Example.import_matches
              Example.plugins_match Posix_resolve_relative w0 H)
    as (e & t' & w' & Hr & _ & Hd & _).
  exists t', w'. split; [|exact Hd].
  assert (PluginError "No vite.config file found. Cannot add plugin." = e) as <-.
  { assert ((Example.runPlugin Example.tailwindPlugin w0).1.1 = Threw e) as He
      by exact (f_equal (λ r, r.1.1) Hr).
    vm_compute in He. by injection He. }
  exact Hr.
Defined.

(** * Checkpoints and the getters *)

Section LifecycleFacts.
Variable resolve : string → string → string.
Variable relative : string → string → string.
Variable dirname : string → string.
Variable rootDir : string.

Hypothesis resolve_relative :
  ∀ p, resolve rootDir (relative rootDir (resolve rootDir p)) = resolve rootDir p.

(** What [readFile] and [fileExists] answer depends on the object and on
    the disk, not on the log. *)
Lemma answers_of_disk path t w w' :
  disk w' = disk w →
  (readFile resolve relative rootDir path t w').1.1
  = (readFile resolve relative rootDir path t w).1.1 ∧
  (fileExists resolve relative rootDir path t w').1.1
  = (fileExists resolve relative rootDir path t w).1.1.
Proof.
  intros Hd. split.
  - destruct (readFile_run resolve relative rootDir path t w) as (? & -> & _).
    destruct (readFile_run resolve relative rootDir path t w') as (? & -> & _).
    cbn. by rewrite Hd.
  - destruct (fileExists_run resolve relative rootDir path t w) as (? & -> & _).
    destruct (fileExists_run resolve relative rootDir path t w') as (? & -> & _).
    cbn. by rewrite Hd.
Qed.

(** X20.  A checkpoint undoes what was staged after it.  A checkpoint is
    created in a transaction staged on a fresh object, and whatever calls
    of the staging phase follow (staged, rejected, reads).  Restoring the
    checkpoint puts the object back into the very state of the
    checkpoint, the disk is what it was before the transaction, and every
    [readFile] and [fileExists] answers what it answered when the
    checkpoint was created. *)
Theorem restore_undoes_staging w0 cs t w cp cs' t' w' :
  run_calls resolve relative rootDir cs fresh w0 = (t, w) →
  (createCheckpoint t w).1.1 = Ok cp →
  run_calls resolve relative rootDir cs' t w = (t', w') →
  restore cp t' w' = (Ok tt, t, w') ∧ disk w' = disk w0 ∧
  ∀ path,
    (readFile resolve relative rootDir path t w').1.1
    = (readFile resolve relative rootDir path t w).1.1 ∧
    (fileExists resolve relative rootDir path t w').1.1
    = (fileExists resolve relative rootDir path t w).1.1.
Proof.
  intros E Hcp E'.
  destruct (run_calls_kept resolve relative rootDir resolve_relative
              (disk w0) cs fresh w0 t w E (wf_fresh resolve relative rootDir)
              (staged_on_fresh resolve rootDir w0)) as (_ & [Hd _] & _ & Hc).
  apply run_calls_framed in E' as ([Hd' _] & _ & _).
  injection Hcp as <-. split_and!.
  - destruct t. cbn in Hc. subst. reflexivity.
  - congruence.
  - intros path. by apply answers_of_disk.
Qed.

(** X21.  The getters after a commit.  A commit that returned leaves the
    queue as it was: [preview()] and [pendingOperations] still report the
    committed operations, and [getTrackedFiles()] the same files, while
    [hasPendingChanges] is false and [isTransactionCommitted] is true.
    When the rollback that follows returns, the three are empty, and
    [isTransactionCommitted] is false. *)
Theorem getters_after_commit t w t1 w1 :
  commit resolve dirname rootDir t w = (Ok tt, t1, w1) →
  ((preview t1 w1).1.1 = (preview t w).1.1 ∧
   pendingOperations t1 = pendingOperations t ∧
   getTrackedFiles t1 = getTrackedFiles t ∧
   hasPendingChanges t1 = false ∧ isTransactionCommitted t1 = true) ∧
  ∀ t2 w2,
    rollback resolve rootDir t1 w1 = (Ok tt, t2, w2) →
    (preview t2 w2).1.1 = Ok [] ∧ pendingOperations t2 = 0 ∧
    getTrackedFiles t2 = [] ∧
    hasPendingChanges t2 = false ∧ isTransactionCommitted t2 = false.
Proof.
  intros E. apply commit_ok in E as (_ & -> & _). split.
  - unfold hasPendingChanges. cbn. by rewrite andb_false_r.
  - intros t2 w2 Er.
    destruct (rollback_committed resolve rootDir (set_isCommitted true t) w1 eq_refl)
      as ([Er'|[e Er']] & _); rewrite Er in Er'; [|done].
    by injection Er' as -> _.
Qed.

End LifecycleFacts.

(** A file is created, a checkpoint is taken, more is staged and read,
    and the checkpoint is restored. *)
Lemma restore_undoes_staging_witness :
  let w0 := Posix.start {["/r/existing.txt" := File "existing content"]} in
  let cs := [CreateFile "a.txt" "x"] in
  let cs' := [DeleteFile "existing.txt"; ModifyFile "a.txt" "y"; ReadFile "a.txt"] in
  let s := Posix.run_calls cs fresh w0 in
  let s' := Posix.run_calls cs' s.1 s.2 in
  (Posix.run_calls cs fresh w0 = (s.1, s.2)
   ∧ (createCheckpoint s.1 s.2).1.1 = Ok (new_VirtualFileTreeCheckpoint s.1)
   ∧ Posix.run_calls cs' s.1 s.2 = (s'.1, s'.2))
  ∧ (Posix.readFile "a.txt" s'.1 s'.2).1.1 = Ok "y"
  ∧ (Posix.fileExists "existing.txt" s'.1 s'.2).1.1 = Ok false
  ∧ restore (new_VirtualFileTreeCheckpoint s.1) s'.1 s'.2 = (Ok tt, s.1, s'.2)
  ∧ (Posix.readFile "a.txt" s.1 s'.2).1.1 = Ok "x"
  ∧ (Posix.fileExists "existing.txt" s.1 s'.2).1.1 = Ok true.
Proof.
  intros w0 cs cs' s s'.
  split; [split_and!; [apply surjective_pairing | reflexivity
                      | apply surjective_pairing]|].
  split; [vm_compute; reflexivity|]. split; [vm_compute; reflexivity|].
  destruct (restore_undoes_staging Posix.resolve Posix.relative Posix.rootDir
              Posix_resolve_relative w0 cs s.1 s.2 _ cs' s'.1 s'.2
              (surjective_pairing s) eq_refl (surjective_pairing s'))
    as (Hr & _ & Hsame).
  split; [exact Hr|]. split.
  - exact (proj1 (Hsame "a.txt")).
  - exact (proj2 (Hsame "existing.txt")).
Defined.

(** A test of the repository: a file is created, committed and rolled
    back. *)
Lemma getters_after_commit_witness :
  let s := Posix.run_calls [CreateFile "test.txt" "content"] fresh (Posix.start ∅) in
  let c := Posix.commit s.1 s.2 in
  Posix.commit s.1 s.2 = (Ok tt, c.1.2, c.2)
  ∧ pendingOperations c.1.2 = 1 ∧ hasPendingChanges s.1 = true
  ∧ hasPendingChanges c.1.2 = false.
Proof.
  intros s c.
  assert (Posix.commit s.1 s.2 = (Ok tt, c.1.2, c.2)) as E
    by (vm_compute; reflexivity).
  split; [exact E|].
  destruct (getters_after_commit Posix.resolve Posix.dirname Posix.rootDir
              s.1 s.2 c.1.2 c.2 E) as ((_ & Hp & _ & Hh & _) & _).
  split; [exact Hp|]. split; [reflexivity | exact Hh].
Defined.

(** * The validation, and the other paths *)

Section ValidationFacts.
Variable resolve : string → string → string.
Variable relative : string → string → string.
Variable rootDir : string.

Local Notation "'key' path" := (relative rootDir (resolve rootDir path))
  (at level 10, path at level 9, only parsing).
Local Notation "'abs' path" := (resolve rootDir path)
  (at level 10, path at level 9, only parsing).

(** A staging method changes the cache of its own path alone. *)
Lemma addOperation_latest path type content t w r t' w' k :
  _addOperation resolve relative rootDir path type content t w = (r, t', w') →
  k ≠ key path →
  JsMap.get k (latestContent t') = JsMap.get k (latestContent t).
Proof.
  intros E Hk.
  destruct (addOperation_cases resolve relative rootDir path type content t w)
    as (r0 & t0 & w0 & E0 & _ & _ & _ & [(e & _ & _ & _ & Hl & _)|(_ & _ & Hl & _)]);
    rewrite E in E0; injection E0 as <- <- <-; rewrite Hl; [done|].
  by rewrite JsMapFacts.get_set_ne.
Qed.

Lemma readFile_latest path t w r t' w' k :
  readFile resolve relative rootDir path t w = (r, t', w') →
  k ≠ key path →
  JsMap.get k (latestContent t') = JsMap.get k (latestContent t).
Proof.
  intros E Hk. destruct (readFile_run resolve relative rootDir path t w) as (w0 & E0 & _).
  rewrite E in E0. injection E0 as _ -> _.
  destruct (JsMap.get (key path) (latestContent t)); [done|].
  destruct (disk w !! _) as [[c|]|]; try done. cbn. by rewrite JsMapFacts.get_set_ne.
Qed.

Lemma run_call_latest c path t w r t' w' k :
  staged_path c = Some path →
  run_call resolve relative rootDir c t w = (r, t', w') →
  k ≠ key path →
  JsMap.get k (latestContent t') = JsMap.get k (latestContent t).
Proof.
  intros Hp E Hk. destruct c; cbn in Hp; try discriminate; injection Hp as ->;
    cbn [run_call] in E; try by (eapply addOperation_latest; eauto).
  - unfold transformFile, bind, try_catch in E.
    destruct (readFile _ _ _ path t w) as [[r1 t1] w1] eqn:E1.
    rewrite <- (readFile_latest _ _ _ _ _ _ _ E1 Hk).
    assert (∃ c, _addOperation resolve relative rootDir path modify (Some c) t1 w1
                 = (r, t', w')) as [c E2].
    { destruct r1; cbn -[_addOperation] in E; eauto. }
    by eapply addOperation_latest.
  - unfold overwriteFile, bind in E.
    destruct (fileExists_run resolve relative rootDir path t w) as (w1 & E1 & _).
    rewrite E1 in E. by eapply addOperation_latest.
Qed.

(** X22.  Staging is per path.  A staging method called on one path,
    accepted or rejected, changes nothing for a path of another key:
    [readFile] and [fileExists] answer on it what they answered before
    the call. *)
Theorem staging_is_per_path c path other t w r t' w' :
  staged_path c = Some path →
  key other ≠ key path →
  run_call resolve relative rootDir c t w = (r, t', w') →
  (readFile resolve relative rootDir other t' w').1.1
  = (readFile resolve relative rootDir other t w).1.1 ∧
  (fileExists resolve relative rootDir other t' w').1.1
  = (fileExists resolve relative rootDir other t w).1.1.
Proof.
  intros Hp Hk E.
  pose proof (run_call_latest _ _ _ _ _ _ _ _ Hp E Hk) as Hl.
  apply run_call_framed in E as ([Hd _] & _ & _).
  split.
  - destruct (readFile_run resolve relative rootDir other t w) as (? & -> & _).
    destruct (readFile_run resolve relative rootDir other t' w') as (? & -> & _).
    cbn. by rewrite Hl, Hd.
  - destruct (fileExists_run resolve relative rootDir other t w) as (? & -> & _).
    destruct (fileExists_run resolve relative rootDir other t' w') as (? & -> & _).
    cbn. unfold current_exists. by rewrite Hl, Hd.
Qed.

Hypothesis resolve_relative :
  ∀ p, resolve rootDir (relative rootDir (resolve rootDir p)) = resolve rootDir p.

(** X23.  The validation is by existence.  In a transaction staged on a
    fresh object, what [fileExists] answers for the path decides every
    staging method: [createFile] is rejected exactly when the path exists
    and no delete of it is queued (so the captured original state never
    decides), and [modifyFile], [appendToFile], [prependToFile] and
    [deleteFile] are rejected exactly when the path does not exist. *)
Theorem validation_is_by_existence w0 cs t w path exists_ :
  run_calls resolve relative rootDir cs fresh w0 = (t, w) →
  (fileExists resolve relative rootDir path t w).1.1 = Ok exists_ →
  (∀ content,
     (createFile resolve relative rootDir path content t w).1.1
     = if exists_ && negb (has_delete (key path) (operationQueue t))
       then Err (CannotCreate path) else Ok tt) ∧
  (∀ type content, type ≠ create →
     (_addOperation resolve relative rootDir path type content t w).1.1
     = if exists_ then Ok tt else Err (CannotOperate type path)).
Proof.
  intros E Hex.
  destruct (run_calls_kept resolve relative rootDir resolve_relative
              (disk w0) cs fresh w0 t w E (wf_fresh resolve relative rootDir)
              (staged_on_fresh resolve rootDir w0))
    as (_ & (Hd & Hfold & _ & Horig & _) & _ & _).
  destruct (fileExists_run resolve relative rootDir path t w) as (w1 & E1 & _).
  rewrite E1 in Hex. cbn in Hex. injection Hex as Hex.
  split.
  - intros content. unfold createFile.
    destruct (addOperation_run resolve relative rootDir path create (Some content) t w)
      as (w' & orig & _ & Horig1 & ->).
    rewrite Hex. rewrite (bool_decide_eq_true_2 (create = create)) by done.
    cbn [andb negb].
    destruct (has_delete (key path) (operationQueue t)) eqn:Hdel; cbn [negb].
    { by rewrite !andb_false_r. }
    rewrite !andb_true_r.
    assert (os_existed orig = true → exists_ = true) as Himp.
    { intros Hex0. rewrite captured_get, decide_True in Horig1 by done.
      assert (orig = disk_original (disk w0) (abs path)) as ->.
      { destruct (JsMap.get _ (originalStates t)) as [o|] eqn:Eo; cbn in Horig1;
          injection Horig1 as <-.
        - rewrite (Horig _ _ Eo). by rewrite resolve_relative.
        - by rewrite Hd. }
      unfold disk_original in Hex0. subst exists_.
      unfold current_exists, disk_exists.
      specialize (Hfold (key path)). rewrite resolve_relative in Hfold.
      destruct (JsMap.get _ (latestContent t)) as [st|].
      - destruct (cs_exists st) eqn:Hst; [done|]. exfalso.
        rewrite (fold_gone_has_delete (key path) (operationQueue t)
                   (disk_state (disk w0) (abs path))) in Hdel; [done | |].
        + unfold disk_state. by destruct (disk w0 !! abs path) as [[c0|]|].
        + by rewrite <- Hfold.
      - rewrite Hd. by destruct (disk w0 !! abs path) as [[c0|]|]. }
    destruct exists_; [by rewrite orb_true_r|].
    destruct (os_existed orig); [by specialize (Himp eq_refl)|]. done.
  - intros type content Hty.
    destruct (addOperation_run resolve relative rootDir path type content t w)
      as (w' & orig & _ & _ & ->).
    rewrite Hex. rewrite (bool_decide_eq_false_2 (type = create)) by done.
    cbn [andb negb]. by destruct exists_.
Qed.

End ValidationFacts.

(** A file is staged while another was read. *)
Lemma staging_is_per_path_witness :
  let w0 := Posix.start {["/r/a.txt" := File "x"]} in
  let c := CreateFile "b.txt" "y" in
  let r := run_call Posix.resolve Posix.relative Posix.rootDir c fresh w0 in
  (staged_path c = Some "b.txt"
   ∧ Posix.relative Posix.rootDir (Posix.resolve Posix.rootDir "a.txt")
     ≠ Posix.relative Posix.rootDir (Posix.resolve Posix.rootDir "b.txt")
   ∧ run_call Posix.resolve Posix.relative Posix.rootDir c fresh w0
     = (r.1.1, r.1.2, r.2))
  ∧ (Posix.readFile "a.txt" r.1.2 r.2).1.1 = Ok "x".
Proof.
  intros w0 c r.
  assert (run_call Posix.resolve Posix.relative Posix.rootDir c fresh w0
          = (r.1.1, r.1.2, r.2)) as E by (vm_compute; reflexivity).
  split; [by split_and!|].
  exact (proj1 (staging_is_per_path Posix.resolve Posix.relative Posix.rootDir
                  c "b.txt" "a.txt" fresh w0 _ r.1.2 r.2 eq_refl
                  ltac:(done) E)).
Defined.

(** A file of the disk: creating it is rejected, deleting it is accepted,
    and creating it is accepted once the delete is queued. *)
Lemma validation_is_by_existence_witness :
  let w0 := Posix.start {["/r/existing.txt" := File "existing content"]} in
  let s := Posix.run_calls [DeleteFile "existing.txt"] fresh w0 in
  (Posix.run_calls [] fresh w0 = (fresh, w0)
   ∧ (Posix.fileExists "existing.txt" fresh w0).1.1 = Ok true
   ∧ Posix.run_calls [DeleteFile "existing.txt"] fresh w0 = (s.1, s.2)
   ∧ (Posix.fileExists "existing.txt" s.1 s.2).1.1 = Ok false)
  ∧ (Posix.createFile "existing.txt" "new" fresh w0).1.1
    = Err (CannotCreate "existing.txt")
  ∧ (Posix.deleteFile "existing.txt" fresh w0).1.1 = Ok tt
  ∧ (Posix.createFile "existing.txt" "new" s.1 s.2).1.1 = Ok tt
  ∧ (Posix.deleteFile "existing.txt" s.1 s.2).1.1
    = Err (CannotOperate delete "existing.txt").
Proof.
  intros w0 s.
  split; [split_and!; try reflexivity; apply surjective_pairing|].
  pose proof (validation_is_by_existence Posix.resolve Posix.relative Posix.rootDir
                Posix_resolve_relative w0 [] fresh w0 "existing.txt" true
                eq_refl eq_refl) as [H1 H2].
  pose proof (validation_is_by_existence Posix.resolve Posix.relative Posix.rootDir
                Posix_resolve_relative w0 [DeleteFile "existing.txt"] s.1 s.2
                "existing.txt" false (surjective_pairing s) eq_refl) as [H3 H4].
  split_and!.
  - exact (H1 "new").
  - exact (H2 delete None ltac:(done)).
  - exact (H3 "new").
  - exact (H4 delete None ltac:(done)).
Defined.
